(** * async_tui: a shallow embedding of [src/code/async_tui/main.c]

    The program has two threads: the main (UI) thread, which reads
    keystrokes, redraws the screen and submits URLs over a pipe, and the
    network thread, which drives a curl multi handle and appends response
    bytes to a fixed array of response slots.

    Conventions of the embedding:
    - a [char] or byte is a [Z]; [size_t] values are [Z] with the
      wrap-around modulo [2^64] written out where the source does
      arithmetic on them; [int] values are [Z], without overflow (signed
      overflow is undefined in C): a theorem that depends on the countdown
      of the scroll offset in [redraw] carries the range in which the
      [int] of the source does not overflow;
    - a C array is a [list], indexed with stdpp's lookup and insert;
    - a pipe is the FIFO list of what has been written and not yet read;
    - the calls into libcurl, the allocator, the terminal and the kernel
      are answered by explicit arguments (an io record per loop
      iteration), so every function below is a total, executable function
      of the program state and of what the outside world answered;
    - a failing [assert] ends the run with [Abort];
    - the two threads are interleaved round by round: one trip through the
      loop of [main], or through the loop of [network_thread], is one step
      on the shared state. *)

From Stdlib Require Import ZArith Lia.
From stdpp Require Import base numbers option list gmap.

(** ** Machine integers and characters *)

Definition SIZE_T_MODULUS : Z := 2 ^ 64.

(** Unsigned arithmetic on [size_t] wraps around. *)
Definition size_t_wrap (z : Z) : Z := z mod SIZE_T_MODULUS.

(** The range of [int]. *)
Definition INT_MIN : Z := - 2 ^ 31.
Definition INT_MAX : Z := 2 ^ 31 - 1.

Definition NUL : Z := 0.
Definition BACKSPACE : Z := 8.    (* backslash-b *)
Definition TAB : Z := 9.          (* backslash-t *)
Definition NEWLINE : Z := 10.     (* backslash-n *)
Definition CARRIAGE : Z := 13.    (* backslash-r *)
Definition SPACE : Z := 32.
Definition DQUOTE : Z := 34.      (* the double quote *)
Definition SQUOTE : Z := 39.      (* the single quote *)
Definition DEL : Z := 127.
Definition CTRL_C : Z := 3.

(** [isprint] in the C locale. *)
Definition isprint (c : Z) : bool := (32 <=? c)%Z && (c <=? 126)%Z.

(** ** Outcomes of code that may hit an [assert] *)

Inductive failure : Type :=
  | AssertRealloc          (* write_cb: assert(ptr) *)
  | AssertMaxResponses     (* network_thread: max responses filled *)
  | AssertCurlFailure      (* network_thread: curl failed without done *)
  | AssertPipeRead         (* a read of the command pipe came back short *)
  | AssertNotifyWrite      (* notify_main: assert(ret == 1) *)
  | InvalidFree.           (* free of a pointer that is not live *)

Inductive result (A : Type) : Type :=
  | Ok (a : A)
  | Abort (why : failure).
Arguments Ok {A} a.
Arguments Abort {A} why.

(** The error monad of aborting code, with stdpp's [x ← m; k] notation. *)
Global Instance result_ret : MRet result := fun A a => Ok a.
Global Instance result_bind : MBind result := fun A B k r =>
  match r with
  | Ok a => k a
  | Abort why => Abort why
  end.

(** ** Response slots and the curl write callback *)

(** [struct curl_response]: [response] is [None] for the null pointer and
    otherwise the bytes of the allocated block; [size] is the number of
    payload bytes, the block holds one more byte for the terminator. *)
Record curl_response : Type := {
  response : option (list Z);
  size : Z;
}.

Definition empty_response : curl_response := {| response := None; size := 0 |}.

Global Instance curl_response_inhabited : Inhabited curl_response :=
  populate empty_response.

(** What the allocator answers to one call: whether it succeeds, and the
    indeterminate contents of fresh memory. *)
Record allocator : Type := {
  alloc_ok : bool;
  alloc_junk : nat -> Z;
}.

(** [realloc(ptr, n)]: a block of [n] bytes that keeps the old contents up
    to the smaller of the two sizes; the rest is indeterminate.  A null
    [ptr] makes it [malloc(n)]. *)
Definition realloc (a : allocator) (ptr : option (list Z)) (n : Z)
  : option (list Z) :=
  if alloc_ok a then
    let old := default [] ptr in
    Some (take (Z.to_nat n) old
          ++ map (alloc_junk a) (seq (length old) (Z.to_nat n - length old)))
  else None.

(** [memcpy(&dst[off], src, n)]. *)
Definition memcpy (dst : list Z) (off : Z) (src : list Z) (n : Z) : list Z :=
  take (Z.to_nat off) dst ++ take (Z.to_nat n) src
  ++ drop (Z.to_nat off + Z.to_nat n) dst.

Definition write_cb (a : allocator) (data : list Z) (size_arg nmemb : Z)
    (mem : curl_response) : result (curl_response * Z) :=
  let realsize := size_t_wrap (size_arg * nmemb) in
  match realloc a (response mem) (size_t_wrap (size mem + realsize + 1)) with
  | None => Abort AssertRealloc
  | Some ptr =>
      let ptr := memcpy ptr (size mem) data realsize in
      let new_size := size_t_wrap (size mem + realsize) in
      Ok ({| response := Some (<[Z.to_nat new_size := NUL]> ptr);
             size := new_size |}, realsize)
  end.

(** One invocation of the sink as libcurl makes it. *)
Record sink_call : Type := {
  sc_alloc : allocator;
  sc_data : list Z;
  sc_size : Z;
  sc_nmemb : Z;
}.

(** The sink invoked on one slot for a sequence of chunks. *)
Fixpoint sink_calls (calls : list sink_call) (mem : curl_response)
  : result curl_response :=
  match calls with
  | [] => Ok mem
  | c :: calls' =>
      r ← write_cb (sc_alloc c) (sc_data c) (sc_size c) (sc_nmemb c) mem;
      sink_calls calls' (fst r)
  end.

(** The payload bytes of a slot: the first [size] bytes of its block. *)
Definition payload (mem : curl_response) : list Z :=
  take (Z.to_nat (size mem)) (default [] (response mem)).

(** A slot as the program keeps it: untouched (null, size 0), or a block of
    [size + 1] bytes whose last byte is the terminator. *)
Definition slot_wf (mem : curl_response) : Prop :=
  (0 <= size mem)%Z /\
  match response mem with
  | None => size mem = 0%Z
  | Some buf => buf = take (Z.to_nat (size mem)) buf ++ [NUL]
  end.

(** A sink call libcurl can make: [size * nmemb] bytes of data, and the
    allocation succeeds. *)
Definition sink_call_ok (c : sink_call) : Prop :=
  alloc_ok (sc_alloc c) = true /\
  (0 <= sc_size c)%Z /\ (0 <= sc_nmemb c)%Z /\
  Z.of_nat (length (sc_data c)) = (sc_size c * sc_nmemb c)%Z.

(** All the bytes of a sequence of sink calls, in order. *)
Definition chunks (calls : list sink_call) : list Z :=
  concat (sc_data <$> calls).

(** The bytes fit: the size they bring the slot to, and the terminator,
    can be counted in a [size_t]. *)
Definition chunks_fit (calls : list sink_call) (mem : curl_response) : Prop :=
  (size mem + Z.of_nat (length (chunks calls)) + 1 < SIZE_T_MODULUS)%Z.

(** ** The shared state *)

(** [struct pipe_event]: the pointer to the duplicated URL, [None] when
    [strdup] returned null, otherwise the address of its heap block. *)
Record pipe_event : Type := {
  url : option nat;
}.

(** The options of the easy handle that the program sets.  [CURLOPT_WRITEDATA]
    points into the array of slots; it is kept as the index of the slot. *)
Record CURL : Type := {
  CURLOPT_URL : option (list Z);
  CURLOPT_WRITEDATA : option Z;
}.

(** The multi handle, as far as the program can observe it: the easy
    handle that has been added and whose transfer has not ended yet. *)
Record CURLM : Type := {
  active : option CURL;
}.

(** What the program does to the outside, in program order (a model-only
    record used to state the order of effects). *)
Inductive event : Type :=
  | EvSink (slot : Z) (data : list Z)   (* write_cb ran on responses[slot] *)
  | EvPublish (count : Z)               (* ++latest_response gave count *)
  | EvNotify                            (* notify_main wrote its byte *)
  | EvAddHandle (slot : Z)              (* curl_multi_add_handle, output to slot *)
  | EvWriteEvent (p : option nat)       (* send_request wrote an event *)
  | EvFree (p : option nat)             (* free(ev.url) *)
  | EvWakeup                            (* curl_multi_wakeup *)
  | EvSetDone                           (* state->done = true *)
  | EvJoin                              (* pthread_join returned *)
  | EvClose (fd : nat)                  (* close of one pipe end *)
  | EvCurlCleanup                       (* curl_multi_cleanup, curl_global_cleanup *)
  | EvFreeResponse (slot : nat).        (* free(responses[slot].response) *)

(** [struct global_state].  [pipe] and [notify_ui_pipe] hold the contents of
    the two pipes.  [heap] and [history] are not fields of the C struct:
    [heap] is the part of the process heap that holds the URL strings made
    by [strdup], [history] the effects so far. *)
Record global_state : Type := {
  pipe : list pipe_event;
  notify_ui_pipe : list Z;
  scroll : Z;
  done : bool;
  multi : CURLM;
  responses : list curl_response;
  latest_response : Z;
  heap : gmap nat (list Z);
  history : list event;
}.

Definition set_pipe (v : list pipe_event) (s : global_state) : global_state :=
  {| pipe := v; notify_ui_pipe := notify_ui_pipe s; scroll := scroll s;
     done := done s; multi := multi s; responses := responses s;
     latest_response := latest_response s; heap := heap s;
     history := history s |}.
Definition set_notify_ui_pipe (v : list Z) (s : global_state) : global_state :=
  {| pipe := pipe s; notify_ui_pipe := v; scroll := scroll s;
     done := done s; multi := multi s; responses := responses s;
     latest_response := latest_response s; heap := heap s;
     history := history s |}.
Definition set_scroll (v : Z) (s : global_state) : global_state :=
  {| pipe := pipe s; notify_ui_pipe := notify_ui_pipe s; scroll := v;
     done := done s; multi := multi s; responses := responses s;
     latest_response := latest_response s; heap := heap s;
     history := history s |}.
Definition set_done (v : bool) (s : global_state) : global_state :=
  {| pipe := pipe s; notify_ui_pipe := notify_ui_pipe s; scroll := scroll s;
     done := v; multi := multi s; responses := responses s;
     latest_response := latest_response s; heap := heap s;
     history := history s |}.
Definition set_multi (v : CURLM) (s : global_state) : global_state :=
  {| pipe := pipe s; notify_ui_pipe := notify_ui_pipe s; scroll := scroll s;
     done := done s; multi := v; responses := responses s;
     latest_response := latest_response s; heap := heap s;
     history := history s |}.
Definition set_responses (v : list curl_response) (s : global_state)
  : global_state :=
  {| pipe := pipe s; notify_ui_pipe := notify_ui_pipe s; scroll := scroll s;
     done := done s; multi := multi s; responses := v;
     latest_response := latest_response s; heap := heap s;
     history := history s |}.
Definition set_latest_response (v : Z) (s : global_state) : global_state :=
  {| pipe := pipe s; notify_ui_pipe := notify_ui_pipe s; scroll := scroll s;
     done := done s; multi := multi s; responses := responses s;
     latest_response := v; heap := heap s; history := history s |}.
Definition set_heap (v : gmap nat (list Z)) (s : global_state) : global_state :=
  {| pipe := pipe s; notify_ui_pipe := notify_ui_pipe s; scroll := scroll s;
     done := done s; multi := multi s; responses := responses s;
     latest_response := latest_response s; heap := v; history := history s |}.
Definition record_event (e : event) (s : global_state) : global_state :=
  {| pipe := pipe s; notify_ui_pipe := notify_ui_pipe s; scroll := scroll s;
     done := done s; multi := multi s; responses := responses s;
     latest_response := latest_response s; heap := heap s;
     history := history s ++ [e] |}.

Definition set_history (v : list event) (s : global_state) : global_state :=
  {| pipe := pipe s; notify_ui_pipe := notify_ui_pipe s; scroll := scroll s;
     done := done s; multi := multi s; responses := responses s;
     latest_response := latest_response s; heap := heap s; history := v |}.

(** The number of response slots. *)
Definition MAX_RESPONSES : Z := 1024.

(** [init_state]: the struct is zero-initialised apart from [multi], whose
    fresh handle has no transfer; both pipes are empty. *)
Definition init_state : global_state :=
  {| pipe := []; notify_ui_pipe := []; scroll := 0; done := false;
     multi := {| active := None |};
     responses := replicate (Z.to_nat MAX_RESPONSES) empty_response;
     latest_response := 0; heap := ∅; history := [] |}.

(** [notify_main]: one zero byte into the notify pipe.  [ok] answers
    whether the write returned 1; when it did not (the pipe is full and a
    signal interrupts the write) the assert fails. *)
Definition notify_main (ok : bool) (s : global_state) : result global_state :=
  if ok then
    Ok (record_event EvNotify (set_notify_ui_pipe (notify_ui_pipe s ++ [NUL]) s))
  else Abort AssertNotifyWrite.

Definition sigwinch_handler (ok : bool) (s : global_state)
  : result global_state := notify_main ok s.

(** [free(p)] for a URL string: nothing for the null pointer, the block is
    released when it is live. *)
Definition free (p : option nat) (s : global_state) : result global_state :=
  match p with
  | None => Ok (record_event (EvFree None) s)
  | Some a =>
      match heap s !! a with
      | Some _ => Ok (record_event (EvFree p) (set_heap (delete a (heap s)) s))
      | None => Abort InvalidFree
      end
  end.

(** ** C strings and the input line *)

(** [strlen]: the number of bytes before the first terminator. *)
Fixpoint strlen (s : list Z) : nat :=
  match s with
  | [] => 0
  | b :: s' => if (b =? NUL)%Z then 0 else S (strlen s')
  end.

(** The string a [char *] denotes: the bytes before the terminator. *)
Definition c_str (s : list Z) : list Z := take (strlen s) s.

(** [strchr(s, c)]: the offset of the first [c], unless the terminator
    comes first (the null result). *)
Fixpoint strchr (s : list Z) (c : Z) : option nat :=
  match s with
  | [] => None
  | b :: s' =>
      if (b =? c)%Z then Some 0
      else if (b =? NUL)%Z then None
      else S <$> strchr s' c
  end.

(** The size of the input buffer, [char buf[128]]. *)
Definition BUF_SIZE : nat := 128.

(** [strdup]: a fresh heap block holding a copy of the string, or null. *)
Definition strdup (ok : bool) (s : list Z) (state : global_state)
  : option nat * global_state :=
  if ok then
    let p := fresh (dom (heap state)) in
    (Some p, set_heap (<[p := c_str s]> (heap state)) state)
  else (None, state).

Definition send_request (ok : bool) (state : global_state) (buf : list Z)
  : global_state :=
  let '(p, state) := strdup ok buf state in
  let state := record_event (EvWriteEvent p)
                 (set_pipe (pipe state ++ [{| url := p |}]) state) in
  record_event EvWakeup state.

(** [read_char].  [ok] answers whether the [strdup] of [send_request]
    succeeds. *)
Definition read_char (ok : bool) (state : global_state) (buf : list Z) (c : Z)
  : global_state * list Z :=
  let len := strlen buf in
  if (c =? CARRIAGE)%Z then
    (send_request ok state buf, replicate BUF_SIZE NUL)
  else if (c =? DEL)%Z || (c =? BACKSPACE)%Z then
    (state, if (0 <? len)%nat then <[(len - 1)%nat := NUL]> buf else buf)
  else if (c =? DQUOTE)%Z then
    (set_scroll (scroll state - 1) state, buf)
  else if (c =? SQUOTE)%Z then
    (set_scroll (scroll state + 1) state, buf)
  else if (len + 1 <? BUF_SIZE)%nat && isprint c then
    (state, <[len := c]> buf)
  else (state, buf).

(** ** The renderer *)

(** [struct wsize], as [get_win_size] returns it. *)
Record wsize : Type := {
  rows : Z;
  cols : Z;
}.

(** What goes to standard output. *)
Inductive term_op : Type :=
  | TermClear                     (* term_clear *)
  | TermSetCursor (y x : Z)       (* term_set_cursor(y, x) *)
  | PutChar (c : Z)               (* one character *)
  | Flush.                        (* fflush(stdout) *)

(** The locals of [redraw] that its loops update, with the output so far. *)
Record draw : Type := {
  y : Z;
  n_skip : Z;
  out : list term_op;
}.

(** The innermost loop of [redraw]: from [begin] up to and including
    [newline], at most [fuel] characters ([fuel] is what is left of
    [size.cols] after [i] rounds), tabs shown as spaces. *)
Fixpoint put_line (block : list Z) (begin stop : nat) (fuel : nat)
  : list term_op :=
  match fuel with
  | O => []
  | S fuel' =>
      if (begin =? stop)%nat then []
      else
        let ch := block !!! begin in
        PutChar (if (ch =? TAB)%Z then SPACE else ch)
        :: put_line block (S begin) stop fuel'
  end.

(** Where the line that begins at [start] ends: the next newline, or, when
    [strchr] finds none, the terminator at [response[size]]. *)
Definition line_end (block : list Z) (resp_size start : nat) : nat :=
  match strchr (drop start block) NEWLINE with
  | Some off => start + off
  | None => resp_size
  end.

(** The position test of the loop over one response. *)
Definition line_start (block : list Z) (start : nat) : bool :=
  (start =? 0)%nat || (block !!! (start - 1)%nat =? NEWLINE)%Z.

(** The loop over one response, [index] running down from [resp->size];
    the [break] ends this loop only. *)
Fixpoint redraw_response (win : wsize) (block : list Z) (resp_size : nat)
    (index : nat) (d : draw) : draw :=
  match index with
  | O => d
  | S start =>
      if line_start block start then
        if (y d <=? 0)%Z then d
        else if (0 <? n_skip d)%Z then
          redraw_response win block resp_size start
            {| y := y d; n_skip := n_skip d - 1; out := out d |}
        else
          redraw_response win block resp_size start
            {| y := y d - 1; n_skip := n_skip d - 1;
               out := out d ++ TermSetCursor (y d) 1
                      :: put_line block start
                           (line_end block resp_size start + 1)
                           (Z.to_nat (size_t_wrap (cols win))) |}
      else redraw_response win block resp_size start d
  end.

(** The loop over the responses, [i] running down from [latest_response]. *)
Fixpoint redraw_responses (win : wsize) (resps : list curl_response)
    (i : nat) (d : draw) : draw :=
  match i with
  | O => d
  | S j =>
      let resp := resps !!! j in
      match response resp with
      | None => redraw_responses win resps j d
      | Some block =>
          redraw_responses win resps j
            (redraw_response win block (Z.to_nat (size resp))
               (Z.to_nat (size resp)) d)
      end
  end.

(** [printf] with the format percent-dot-star-s: at most [precision]
    characters of the string, all of it for a negative precision. *)
Definition printf_prec (precision : Z) (s : list Z) : list term_op :=
  PutChar <$> (if (precision <? 0)%Z then c_str s
               else take (Z.to_nat precision) (c_str s)).

Definition redraw (win : wsize) (state : global_state) (buf : list Z)
  : list term_op :=
  let d := redraw_responses win (responses state)
             (Z.to_nat (latest_response state))
             {| y := rows win - 1; n_skip := scroll state;
                out := [TermClear] |} in
  out d ++ TermSetCursor (rows win) 1 :: printf_prec (cols win) buf ++ [Flush].

(** ** The main loop *)

(** What the outside answers during one round of the main loop: the window
    size, whether [poll] was interrupted by a signal (it then reports no
    descriptor ready), and whether a [strdup] succeeds. *)
Record main_io : Type := {
  mi_win : wsize;
  mi_intr : bool;
  mi_strdup_ok : bool;
}.

(** The main thread: the shared state, its input buffer, and the bytes
    waiting on standard input. *)
Record main_thread : Type := {
  mt_state : global_state;
  mt_buf : list Z;
  mt_stdin : list Z;
}.

Inductive main_step : Type :=
  | MainNext (m : main_thread)    (* the round ended, the loop goes on *)
  | MainWait (m : main_thread)    (* poll blocks: nothing is ready *)
  | MainBreak (m : main_thread).  (* Ctrl + C *)

(** One round of the main loop from the call of [poll] on.  A descriptor
    is reported ready when it has data; with data pending the one-byte read
    returns 1, as the two asserts require. *)
Definition main_poll (io : main_io) (m : main_thread) : main_step :=
  let stdin_ready := negb (mi_intr io) && bool_decide (mt_stdin m ≠ []) in
  let notify_ready :=
    negb (mi_intr io) && bool_decide (notify_ui_pipe (mt_state m) ≠ []) in
  if negb (mi_intr io) && negb stdin_ready && negb notify_ready then MainWait m
  else
    let after_key :=
      match mt_stdin m with
      | c :: rest =>
          if stdin_ready then
            if (c =? CTRL_C)%Z then
              inl {| mt_state := mt_state m; mt_buf := mt_buf m;
                     mt_stdin := rest |}
            else
              let '(state, buf) :=
                read_char (mi_strdup_ok io) (mt_state m) (mt_buf m) c in
              inr {| mt_state := state; mt_buf := buf; mt_stdin := rest |}
          else inr m
      | [] => inr m
      end in
    match after_key with
    | inl m => MainBreak m
    | inr m =>
        if notify_ready then
          MainNext {| mt_state := set_notify_ui_pipe
                                    (tail (notify_ui_pipe (mt_state m)))
                                    (mt_state m);
                      mt_buf := mt_buf m; mt_stdin := mt_stdin m |}
        else MainNext m
    end.

(** One full round: [redraw], then the rest. *)
Definition main_loop (io : main_io) (m : main_thread)
  : list term_op * main_step :=
  (redraw (mi_win io) (mt_state m) (mt_buf m), main_poll io m).

(** [n] rounds of the main loop, as long as it neither blocks nor ends. *)
Fixpoint main_rounds (ios : list main_io) (m : main_thread) : main_step :=
  match ios with
  | [] => MainNext m
  | io :: ios' =>
      match main_poll io m with
      | MainNext m' => main_rounds ios' m'
      | other => other
      end
  end.

(** ** The network thread *)

(** What libcurl and the kernel answer during one round of the worker's
    loop: the code of [curl_multi_perform], the calls of the write callback
    it made, whether the transfer ended in it ([Some true] in success,
    [Some false] in failure; the program never asks libcurl which), the
    code of [curl_multi_poll], whether that reported the command pipe
    readable, and whether a write of [notify_main] returns 1. *)
Record curl_io : Type := {
  io_perform_ok : bool;
  io_sink : list sink_call;
  io_finished : option bool;
  io_poll_ok : bool;
  io_pollin : bool;
  io_notify_ok : bool;
}.

(** The locals of [network_thread]. *)
Record worker : Type := {
  easy : CURL;
  prev_running_handles : Z;
}.

Definition init_worker : worker :=
  {| easy := {| CURLOPT_URL := None; CURLOPT_WRITEDATA := None |};
     prev_running_handles := -1 |}.

(** libcurl running the write callback on the slot the easy handle writes
    to. *)
Fixpoint deliver (calls : list sink_call) (slot : Z) (state : global_state)
  : result global_state :=
  match calls with
  | [] => Ok state
  | c :: calls' =>
      r ← write_cb (sc_alloc c) (sc_data c) (sc_size c) (sc_nmemb c)
            (responses state !!! Z.to_nat slot);
      deliver calls' slot
        (record_event (EvSink slot (sc_data c))
           (set_responses (<[Z.to_nat slot := fst r]> (responses state)) state))
  end.

(** [curl_multi_perform]: with a transfer in progress the callback runs on
    what arrived and the transfer may end; the second component is
    [running_handles]. *)
Definition curl_multi_perform (io : curl_io) (state : global_state)
  : result (global_state * Z) :=
  match active (multi state) with
  | None => Ok (state, 0%Z)
  | Some h =>
      state ← match CURLOPT_WRITEDATA h with
              | Some slot => deliver (io_sink io) slot state
              | None => Ok state
              end;
      match io_finished io with
      | Some _ => Ok (set_multi {| active := None |} state, 0%Z)
      | None => Ok (state, 1%Z)
      end
  end.

Inductive control (A : Type) : Type :=
  | Continue (a : A)
  | Exit (a : A).
Arguments Continue {A} a.
Arguments Exit {A} a.

(** The block that runs when a transfer completed or failed. *)
Definition publish (ok : bool) (state : global_state) : result global_state :=
  let n := size_t_wrap (latest_response state + 1) in
  let state := record_event (EvPublish n) (set_latest_response n state) in
  if (n =? MAX_RESPONSES)%Z then Abort AssertMaxResponses
  else notify_main ok state.

(** The block that takes the next request from the command pipe and starts
    its transfer. *)
Definition start_transfer (state : global_state) (w : worker)
  : result (global_state * worker) :=
  match pipe state with
  | [] => Abort AssertPipeRead
  | read_event :: rest =>
      let state := set_pipe rest state in
      let state := set_multi {| active := None |} state in
      let h := {| CURLOPT_URL := url read_event ≫= (heap state !!.);
                  CURLOPT_WRITEDATA := Some (latest_response state) |} in
      let state := record_event (EvAddHandle (latest_response state))
                     (set_multi {| active := Some h |} state) in
      state ← free (url read_event) state;
      Ok (state, {| easy := h;
                    prev_running_handles := prev_running_handles w |})
  end.

(** One round of the [while] loop of [network_thread], its test included. *)
Definition network_thread_loop (io : curl_io) (state : global_state)
    (w : worker) : result (control (global_state * worker)) :=
  if done state then Ok (Exit (state, w))
  else
    '(state, running_handles) ← curl_multi_perform io state;
    if negb (io_perform_ok io) then Ok (Exit (state, w))
    else
      state ← (if (prev_running_handles w =? 1)%Z && (running_handles =? 0)%Z
               then publish (io_notify_ok io) state else Ok state);
      if negb (io_poll_ok io) then Ok (Exit (state, w))
      else
        '(state, w) ← (if (running_handles =? 0)%Z && io_pollin io
                       then start_transfer state w else Ok (state, w));
        Ok (Continue (state, {| easy := easy w;
                                prev_running_handles := running_handles |})).

(** What follows the loop: the assertion, and the removal of the handle. *)
Definition network_thread_exit (state : global_state) : result global_state :=
  if done state then Ok (set_multi {| active := None |} state)
  else Abort AssertCurlFailure.

(** The worker run on the answers of a sequence of consecutive rounds,
    with no step of the main thread in between: the shared fields that the
    main thread writes ([done], the command pipe, the scroll offset) change
    here only as the worker changes them.  Runs in which the main thread
    acts between rounds are the sequences of [sys_step] below; what a
    single round does when [done] is set is in [network_thread_loop]. *)
Fixpoint network_thread (ios : list curl_io) (state : global_state)
    (w : worker) : result (control (global_state * worker)) :=
  match ios with
  | [] => Ok (Continue (state, w))
  | io :: ios' =>
      c ← network_thread_loop io state w;
      match c with
      | Continue (state, w) => network_thread ios' state w
      | Exit (state, w) =>
          state ← network_thread_exit state; Ok (Exit (state, w))
      end
  end.

(** ** Shutdown *)

(** The loop of [cleanup_state] that empties the command pipe: each read
    takes one event off the pipe and frees its URL, until the read reports
    that it would block. *)
Fixpoint drain_pipe (events : list pipe_event) (state : global_state)
  : result global_state :=
  match events with
  | [] => Ok (set_pipe [] state)
  | ev :: rest =>
      state ← free (url ev) (set_pipe rest state);
      drain_pipe rest state
  end.

Fixpoint free_responses (n : nat) (i : nat) (state : global_state)
  : global_state :=
  match n with
  | O => state
  | S n' => free_responses n' (S i) (record_event (EvFreeResponse i) state)
  end.
Arguments free_responses : simpl never.

(** [cleanup_state].  [pthread_join] returns when the worker, having seen
    [done], has run what follows its loop. *)
Definition cleanup_state (state : global_state) : result global_state :=
  let state := record_event EvSetDone (set_done true state) in
  let state := record_event EvWakeup state in
  state ← network_thread_exit state;
  let state := record_event EvJoin state in
  state ← drain_pipe (pipe state) state;
  let state := record_event (EvClose 0) state in
  let state := record_event (EvClose 1) state in
  let state := record_event (EvClose 2) state in
  let state := record_event (EvClose 3) state in
  let state := record_event EvCurlCleanup state in
  Ok (free_responses (Z.to_nat MAX_RESPONSES) 0 state).

(** ** The vocabulary of the properties *)

(** The input line held by the buffer. *)
Definition input_line (buf : list Z) : list Z := c_str buf.

(** The input buffer as the main loop keeps it: 128 bytes, the line (at
    most 127 characters, none of them the terminator) followed by zero
    bytes only. *)
Definition buf_wf (buf : list Z) : Prop :=
  exists line, buf = line ++ replicate (BUF_SIZE - length line) NUL /\
               (length line < BUF_SIZE)%nat /\ Forall (fun b => b <> NUL) line.

(** A window size that [get_win_size] can return: both fields come from an
    unsigned short. *)
Definition wsize_ok (win : wsize) : Prop :=
  (0 <= rows win <= 65535)%Z /\ (0 <= cols win <= 65535)%Z.

(** The screen rows of an output stream: for each cursor placement its row
    number and the characters sent right after it. *)
Fixpoint leading_chars (ops : list term_op) : list Z :=
  match ops with
  | PutChar c :: ops' => c :: leading_chars ops'
  | _ => []
  end.

Fixpoint rows_of (ops : list term_op) : list (Z * list Z) :=
  match ops with
  | [] => []
  | TermSetCursor y _ :: ops' => (y, leading_chars ops') :: rows_of ops'
  | _ :: ops' => rows_of ops'
  end.

(** A stored logical line: the block that holds it, the payload size of
    that response, and the position where the line starts. *)
Record line : Type := {
  ln_block : list Z;
  ln_size : nat;
  ln_start : nat;
}.

(** The starts of the logical lines of one response, bottom-up: the
    positions below [index] that pass the test of the loop. *)
Fixpoint line_starts (block : list Z) (index : nat) : list nat :=
  match index with
  | O => []
  | S start =>
      if line_start block start then start :: line_starts block start
      else line_starts block start
  end.

Definition response_lines (resp : curl_response) : list line :=
  match response resp with
  | None => []
  | Some block =>
      (fun s => {| ln_block := block; ln_size := Z.to_nat (size resp);
                   ln_start := s |})
      <$> line_starts block (Z.to_nat (size resp))
  end.

(** The stored logical lines of the first [i] slots, bottom-up: the last
    line of the most recent response first. *)
Fixpoint stored_lines (resps : list curl_response) (i : nat) : list line :=
  match i with
  | O => []
  | S j => response_lines (resps !!! j) ++ stored_lines resps j
  end.

Definition log_lines (state : global_state) : list line :=
  stored_lines (responses state) (Z.to_nat (latest_response state)).

(** The length of a logical line: the bytes from its start to the next
    newline or to the end of the payload. *)
Fixpoint until_newline (s : list Z) : nat :=
  match s with
  | [] => 0
  | b :: s' => if (b =? NEWLINE)%Z then 0 else S (until_newline s')
  end.

Definition line_length (l : line) : nat :=
  until_newline (take (ln_size l - ln_start l) (drop (ln_start l) (ln_block l))).

(** The characters [redraw] sends for one line. *)
Definition line_row (win : wsize) (l : line) : list Z :=
  leading_chars
    (put_line (ln_block l) (ln_start l)
       (line_end (ln_block l) (ln_size l) (ln_start l) + 1)
       (Z.to_nat (size_t_wrap (cols win)))).

(** The characters of the last row: the input line, cut at the width. *)
Definition input_row (win : wsize) (buf : list Z) : list Z :=
  leading_chars (printf_prec (cols win) buf).

(** The screen for a bottom-up list of lines: as many lines as there are
    rows above the last one, placed upwards from the second-to-last row,
    and the input line on the last row. *)
Definition screen (win : wsize) (lines : list line) (buf : list Z)
  : list (Z * list Z) :=
  imap (fun i l => ((rows win - 1 - Z.of_nat i)%Z, line_row win l))
       (take (Z.to_nat (rows win - 1)) lines)
  ++ [(rows win, input_row win buf)].

(** What [redraw] sends for a line it renders on row [row]. *)
Definition line_ops (win : wsize) (row : Z) (l : line) : list term_op :=
  TermSetCursor row 1
  :: put_line (ln_block l) (ln_start l)
       (line_end (ln_block l) (ln_size l) (ln_start l) + 1)
       (Z.to_nat (size_t_wrap (cols win))).

(** What the loops of [redraw] do at one line start. *)
Definition draw_line (win : wsize) (d : draw) (l : line) : draw :=
  if (y d <=? 0)%Z then d
  else if (0 <? n_skip d)%Z then
    {| y := y d; n_skip := n_skip d - 1; out := out d |}
  else
    {| y := y d - 1; n_skip := n_skip d - 1;
       out := out d ++ line_ops win (y d) l |}.

(** The published slots that hold a payload. *)
Definition delivered (state : global_state) : list curl_response :=
  filter (fun r => is_Some (response r))
         (take (Z.to_nat (latest_response state)) (responses state)).

(** The stored lines that fall on the rows above the input line: the
    first [scroll] lines from the bottom are passed over. *)
Definition visible_lines (win : wsize) (state : global_state) : list line :=
  take (Z.to_nat (rows win - 1))
       (drop (Z.to_nat (scroll state)) (log_lines state)).

(** The whole program: the shared state and the locals of the two threads. *)
Record system : Type := {
  sys_state : global_state;
  sys_worker : worker;
  sys_buf : list Z;
}.

Definition init_system : system :=
  {| sys_state := init_state; sys_worker := init_worker;
     sys_buf := replicate BUF_SIZE NUL |}.

(** The steps of the program while both threads run: a round of the main
    loop on whatever is waiting on standard input, a window resize whose
    handler passes its assertion, or a round of the worker's loop on
    whatever libcurl answers. *)
Inductive sys_step : system -> system -> Prop :=
  | step_main io stdin s m' :
      main_poll io {| mt_state := sys_state s; mt_buf := sys_buf s;
                      mt_stdin := stdin |} = MainNext m' ->
      sys_step s {| sys_state := mt_state m'; sys_worker := sys_worker s;
                    sys_buf := mt_buf m' |}
  | step_sigwinch ok s state' :
      sigwinch_handler ok (sys_state s) = Ok state' ->
      sys_step s {| sys_state := state'; sys_worker := sys_worker s;
                    sys_buf := sys_buf s |}
  | step_worker io s state' w' :
      network_thread_loop io (sys_state s) (sys_worker s)
        = Ok (Continue (state', w')) ->
      sys_step s {| sys_state := state'; sys_worker := w';
                    sys_buf := sys_buf s |}.

Definition reachable (s : system) : Prop := rtc sys_step init_system s.

(** The program after a round of the main loop, or of the worker's loop,
    with given answers; a round that blocks, breaks or aborts leaves the
    system as it is. *)
Definition run_main (io : main_io) (stdin : list Z) (s : system) : system :=
  match main_poll io {| mt_state := sys_state s; mt_buf := sys_buf s;
                        mt_stdin := stdin |} with
  | MainNext m' => {| sys_state := mt_state m'; sys_worker := sys_worker s;
                      sys_buf := mt_buf m' |}
  | _ => s
  end.

Definition run_worker (io : curl_io) (s : system) : system :=
  match network_thread_loop io (sys_state s) (sys_worker s) with
  | Ok (Continue (state', w')) =>
      {| sys_state := state'; sys_worker := w'; sys_buf := sys_buf s |}
  | _ => s
  end.

(** The state in which a round of the worker's loop ends. *)
Definition control_state (c : control (global_state * worker)) : global_state :=
  match c with
  | Continue (state, _) => state
  | Exit (state, _) => state
  end.

(** The worker takes a transfer to have completed or failed when its loop
    reaches the test for it (the round runs and [curl_multi_perform]
    returned without error) and the test holds: the count of running
    handles seen in the previous round was 1 and is 0 now. *)
Definition completion_detected (io : curl_io) (state : global_state)
    (w : worker) : Prop :=
  done state = false /\ io_perform_ok io = true /\
  prev_running_handles w = 1%Z /\
  exists state1, curl_multi_perform io state = Ok (state1, 0%Z).

(** The events that a state has more than an earlier one. *)
Definition new_events (before after : global_state) : list event :=
  drop (length (history before)) (history after).

(** The URL blocks referred to from the command pipe. *)
Definition queued_urls (state : global_state) : list nat :=
  omap url (pipe state).

(** What holds of the shared state while both threads run: [done] is not
    set, the count is below the capacity, a slot is null exactly when the
    callback never ran on it, and the live URL blocks are the ones referred
    to from the command pipe, each once. *)
Definition state_inv (state : global_state) : Prop :=
  done state = false /\
  (0 <= latest_response state < MAX_RESPONSES)%Z /\
  length (responses state) = Z.to_nat MAX_RESPONSES /\
  (forall k : nat, (k < length (responses state))%nat ->
     response (responses state !!! k) = None <->
     forall d, EvSink (Z.of_nat k) d ∉ history state) /\
  NoDup (queued_urls state) /\
  dom (heap state) = list_to_set (queued_urls state).

(** What holds of the program while both threads run: moreover, a transfer
    in progress writes to the slot at the current count, and the worker
    remembers one running handle only while a transfer is in progress. *)
Definition sys_inv (s : system) : Prop :=
  state_inv (sys_state s) /\
  (forall h, active (multi (sys_state s)) = Some h ->
             CURLOPT_WRITEDATA h = Some (latest_response (sys_state s))) /\
  (prev_running_handles (sys_worker s) = 1%Z ->
   is_Some (active (multi (sys_state s)))) /\
  buf_wf (sys_buf s).

(** The heap after [free(p)]. *)
Definition heap_without (p : option nat) (h : gmap nat (list Z))
  : gmap nat (list Z) :=
  match p with
  | Some a => delete a h
  | None => h
  end.

(** The events of [cleanup_state] after the command pipe is empty. *)
Definition closing_events : list event :=
  [EvClose 0; EvClose 1; EvClose 2; EvClose 3; EvCurlCleanup]
  ++ (EvFreeResponse <$> seq 0 (Z.to_nat MAX_RESPONSES)).

(** ** Further vocabulary *)

(** The keys of [read_char] that are not put into the input line: Enter,
    the two backspace keys and the two quotes. *)
Definition special_key (c : Z) : bool :=
  (c =? CARRIAGE)%Z || (c =? DEL)%Z || (c =? BACKSPACE)%Z
  || (c =? DQUOTE)%Z || (c =? SQUOTE)%Z.

(** [read_char] on the keys of a sequence, one after the other. *)
Definition read_chars (ok : bool) (keys : list Z)
    (sb : global_state * list Z) : global_state * list Z :=
  foldl (fun sb c => read_char ok sb.1 sb.2 c) sb keys.

(** The strings the queued requests point to, in the order of the pipe;
    [None] stands for a null URL. *)
Definition queued_strings (state : global_state) : list (option (list Z)) :=
  (fun ev => url ev ≫= (heap state !!.)) <$> pipe state.

(** How many times a key occurs in a sequence of keys. *)
Definition count_key (c : Z) (keys : list Z) : Z :=
  Z.of_nat (length (filter (fun k => k = c) keys)).

(** A key that is put into the input line when there is room: printable,
    and not one of the two quotes. *)
Definition plain_key (c : Z) : bool := isprint c && negb (special_key c).

(** The bytes of a stored line as [redraw] delimits it: from its start up
    to the position it takes as the end of the line (the next newline, or
    the terminator), that position left out. *)
Definition line_chars (l : line) : list Z :=
  take (line_end (ln_block l) (ln_size l) (ln_start l) - ln_start l)
       (drop (ln_start l) (ln_block l)).

(** A text whose last line is not closed by a newline. *)
Definition ends_open (text : list Z) : bool :=
  match last text with
  | Some c => negb (c =? NEWLINE)%Z
  | None => false
  end.

(** The text with its last line closed. *)
Definition newline_closed (text : list Z) : list Z :=
  text ++ (if ends_open text then [NEWLINE] else []).

(** All the calls of the callback that libcurl makes in a sequence of
    rounds of the worker, in order. *)
Definition sink_of_rounds (ios : list curl_io) : list sink_call :=
  concat (io_sink <$> ios).

(** ** Sample inputs *)

(** A call of the callback as libcurl makes it: [size] is 1, [nmemb] the
    number of bytes, and the allocation succeeds. *)
Definition chunk (data : list Z) : sink_call :=
  {| sc_alloc := {| alloc_ok := true; alloc_junk := fun _ => 7%Z |};
     sc_data := data; sc_size := 1; sc_nmemb := Z.of_nat (length data) |}.

(** An input buffer holding the two characters h and i. *)
Definition buf_hi : list Z := [104; 105]%Z ++ replicate (BUF_SIZE - 2) NUL.

(** Window sizes. *)
Definition win_3x2 : wsize := {| rows := 3; cols := 2 |}.
Definition win_3x80 : wsize := {| rows := 3; cols := 80 |}.
Definition win_0x80 : wsize := {| rows := 0; cols := 80 |}.

(** One response holding the line abc. *)
Definition state_abc : global_state :=
  set_latest_response 1
    (set_responses
       (<[0%nat := {| response := Some [97; 98; 99; 0]%Z; size := 3 |}]>
          (responses init_state))
       init_state).

(** One response holding the three lines a, b and c. *)
Definition state_3lines : global_state :=
  set_latest_response 1
    (set_responses
       (<[0%nat := {| response := Some [97; 10; 98; 10; 99; 0]%Z; size := 5 |}]>
          (responses init_state))
       init_state).

(** One response holding a, a tab and b. *)
Definition state_tab : global_state :=
  set_latest_response 1
    (set_responses
       (<[0%nat := {| response := Some [97; 9; 98; 0]%Z; size := 3 |}]>
          (responses init_state))
       init_state).

(** The one line of [state_tab]. *)
Definition line_tab : line :=
  {| ln_block := [97; 9; 98; 0]%Z; ln_size := 3; ln_start := 0 |}.

(** The answers to a round of the main loop in which nothing goes wrong. *)
Definition io_plain : main_io :=
  {| mi_win := {| rows := 24; cols := 80 |}; mi_intr := false;
     mi_strdup_ok := true |}.

(** The main thread with two wake bytes pending and no key pressed, and
    with one. *)
Definition two_wakes : main_thread :=
  {| mt_state := set_notify_ui_pipe [NUL; NUL] init_state;
     mt_buf := replicate BUF_SIZE NUL; mt_stdin := [] |}.

Definition one_wake : main_thread :=
  {| mt_state := set_notify_ui_pipe [NUL] init_state;
     mt_buf := replicate BUF_SIZE NUL; mt_stdin := [] |}.

(** The answers of libcurl in three rounds: nothing to do and a request
    waiting; a chunk holding the byte x with the transfer going on; the
    transfer ends in failure. *)
Definition io_idle : curl_io :=
  {| io_perform_ok := true; io_sink := []; io_finished := None;
     io_poll_ok := true; io_pollin := true; io_notify_ok := true |}.
Definition io_data : curl_io :=
  {| io_perform_ok := true; io_sink := [chunk [120%Z]]; io_finished := None;
     io_poll_ok := true; io_pollin := false;
     io_notify_ok := true |}.
Definition io_fail : curl_io :=
  {| io_perform_ok := true; io_sink := []; io_finished := Some false;
     io_poll_ok := true; io_pollin := false;
     io_notify_ok := true |}.

(** The answers of libcurl in a round in which the whole response, the
    byte A, arrives and the transfer ends in success. *)
Definition io_at_once : curl_io :=
  {| io_perform_ok := true; io_sink := [chunk [65%Z]];
     io_finished := Some true; io_poll_ok := true; io_pollin := false;
     io_notify_ok := true |}.

(** The program after the user typed a and Enter; after the worker took
    the request; after one chunk arrived; after the transfer failed. *)
Definition sys_submitted : system :=
  run_main io_plain [CARRIAGE] (run_main io_plain [97%Z] init_system).
Definition sys_started : system := run_worker io_idle sys_submitted.
Definition sys_receiving : system := run_worker io_data sys_started.
Definition sys_failed : system := run_worker io_fail sys_receiving.

(** The program after the worker took the request and the transfer ended
    in the round that followed. *)
Definition sys_at_once : system := run_worker io_at_once sys_started.

(** * Properties *)

(** ** The model at work *)

Example write_cb_first_chunk :
  write_cb (sc_alloc (chunk [1; 2]%Z)) [1; 2]%Z 1 2 empty_response
  = Ok ({| response := Some [1; 2; 0]%Z; size := 2 |}, 2%Z).
Proof. reflexivity. Qed.

Example write_cb_realloc_fails :
  write_cb {| alloc_ok := false; alloc_junk := fun _ => 0%Z |} [1; 2]%Z 1 2
    empty_response
  = Abort AssertRealloc.
Proof. reflexivity. Qed.

Example read_char_appends :
  input_line (read_char true init_state buf_hi 33).2 = [104; 105; 33]%Z.
Proof. reflexivity. Qed.

Example read_char_ignores_control :
  (read_char true init_state buf_hi 7).2 = buf_hi.
Proof. reflexivity. Qed.

Example read_char_scrolls :
  scroll (read_char true init_state buf_hi SQUOTE).1 = 1%Z /\
  scroll (read_char true init_state buf_hi DQUOTE).1 = (-1)%Z.
Proof. split; reflexivity. Qed.

Example read_char_submits :
  pipe (read_char true init_state buf_hi CARRIAGE).1 = [{| url := Some 0%nat |}] /\
  heap (read_char true init_state buf_hi CARRIAGE).1 !! 0%nat
  = Some [104; 105]%Z /\
  input_line (read_char true init_state buf_hi CARRIAGE).2 = [].
Proof. repeat split; reflexivity. Qed.

Example redraw_abc :
  redraw win_3x2 state_abc buf_hi
  = [TermClear; TermSetCursor 2 1; PutChar 97; PutChar 98;
     TermSetCursor 3 1; PutChar 104; PutChar 105; Flush].
Proof. reflexivity. Qed.

(** A short line is sent with the byte that ends it: the newline, or the
    terminator of the payload. *)
Example redraw_3lines :
  rows_of (redraw win_3x80 state_3lines buf_hi)
  = [(2%Z, [99; 0]%Z); (1%Z, [98; 10]%Z); (3%Z, [104; 105]%Z)].
Proof. reflexivity. Qed.

Example redraw_3lines_scrolled :
  rows_of (redraw win_3x80 (set_scroll 1 state_3lines) buf_hi)
  = [(2%Z, [98; 10]%Z); (1%Z, [97; 10]%Z); (3%Z, [104; 105]%Z)].
Proof. reflexivity. Qed.

Example worker_history :
  history (sys_state sys_failed)
  = [EvWriteEvent (Some 0%nat); EvWakeup; EvAddHandle 0; EvFree (Some 0%nat);
     EvSink 0 [120%Z]; EvPublish 1; EvNotify].
Proof. reflexivity. Qed.

(** ** The write callback *)

Lemma size_t_wrap_small z : (0 <= z < SIZE_T_MODULUS)%Z -> size_t_wrap z = z.
Proof. intros. unfold size_t_wrap. by apply Z.mod_small. Qed.

Lemma payload_length mem :
  slot_wf mem -> length (payload mem) = Z.to_nat (size mem).
Proof.
  intros [Hsz Hwf]. unfold payload. destruct (response mem) as [buf|]; simpl.
  - rewrite length_take. apply (f_equal length) in Hwf.
    rewrite length_app, length_take in Hwf. simpl in Hwf. lia.
  - rewrite Hwf. by rewrite take_nil.
Qed.

(** One call: the block becomes the old payload, the chunk and the
    terminator; the size grows by the length of the chunk, which is also
    what the callback returns. *)
Lemma write_cb_spec c mem :
  slot_wf mem -> sink_call_ok c -> chunks_fit [c] mem ->
  write_cb (sc_alloc c) (sc_data c) (sc_size c) (sc_nmemb c) mem =
    Ok ({| response := Some (payload mem ++ sc_data c ++ [NUL]);
           size := size mem + Z.of_nat (length (sc_data c)) |},
        Z.of_nat (length (sc_data c))).
Proof.
  intros Hwf (Hok & Hsz & Hnm & Hlen) Hfit.
  destruct c as [a data sz nmemb]. unfold chunks_fit, chunks in Hfit.
  simpl in *. rewrite app_nil_r in Hfit.
  pose proof (payload_length mem Hwf) as Hpl.
  destruct Hwf as [Hsize Hwf].
  unfold write_cb, realloc. rewrite Hok, <- Hlen.
  rewrite (size_t_wrap_small (Z.of_nat (length data))) by lia.
  rewrite !size_t_wrap_small by lia.
  do 3 f_equal. unfold memcpy, payload in *.
  set (old := default [] (response mem)) in *.
  set (n := Z.to_nat (size mem)) in *.
  set (k := length data).
  assert (n <= length old)%nat as Hn by (rewrite length_take in Hpl; lia).
  replace (Z.to_nat (size mem + Z.of_nat k + 1)) with (n + k + 1)%nat by lia.
  replace (Z.to_nat (size mem + Z.of_nat k)) with (n + k)%nat by lia.
  rewrite Nat2Z.id.
  set (blk := take (n + k + 1) old ++ _).
  assert (length blk = (n + k + 1)%nat) as Hblk.
  { unfold blk. rewrite length_app, length_take, length_map, length_seq. lia. }
  assert (take n blk = take n old) as Htake.
  { unfold blk. rewrite take_app_le by (rewrite length_take; lia).
    rewrite take_take. f_equal. lia. }
  rewrite Htake, (take_ge data) by (unfold k; lia).
  assert (length (drop (n + k) blk) = 1%nat) as Hd by (rewrite length_drop; lia).
  destruct (drop (n + k) blk) as [|x [|? ?]] eqn:Hdrop; simpl in Hd; try lia.
  replace (n + k)%nat with (length (take n old ++ data) + 0)%nat
    by (rewrite length_app; unfold k; lia).
  rewrite (assoc_L (++)), insert_app_r. simpl. by rewrite <- (assoc_L (++)).
Qed.

Lemma slot_wf_after mem data :
  slot_wf mem ->
  slot_wf {| response := Some (payload mem ++ data ++ [NUL]);
             size := size mem + Z.of_nat (length data) |}.
Proof.
  intros Hwf. pose proof (payload_length mem Hwf) as Hpl.
  destruct Hwf as [Hsz _]. split; simpl; [lia|].
  rewrite (assoc_L (++)). rewrite take_app_length'; [done|].
  rewrite length_app. lia.
Qed.

Lemma payload_after mem data :
  slot_wf mem ->
  payload {| response := Some (payload mem ++ data ++ [NUL]);
             size := size mem + Z.of_nat (length data) |} = payload mem ++ data.
Proof.
  intros Hwf. pose proof (payload_length mem Hwf) as Hpl.
  destruct Hwf as [Hsz _]. unfold payload at 1. simpl.
  rewrite (assoc_L (++)). rewrite take_app_length'; [done|].
  rewrite length_app. lia.
Qed.

Lemma chunks_cons c calls : chunks (c :: calls) = sc_data c ++ chunks calls.
Proof. done. Qed.

Lemma chunks_app calls1 calls2 :
  chunks (calls1 ++ calls2) = chunks calls1 ++ chunks calls2.
Proof. unfold chunks. by rewrite fmap_app, concat_app. Qed.

(** A sequence of calls: the payload grows by all the chunks, in order. *)
Lemma sink_calls_spec calls : forall mem,
  slot_wf mem -> Forall sink_call_ok calls -> chunks_fit calls mem ->
  exists mem',
    sink_calls calls mem = Ok mem' /\ slot_wf mem' /\
    payload mem' = payload mem ++ chunks calls /\
    size mem' = (size mem + Z.of_nat (length (chunks calls)))%Z /\
    (calls <> [] -> response mem' = Some (payload mem' ++ [NUL])).
Proof.
  induction calls as [|c calls IH]; intros mem Hwf Hok Hfit.
  - exists mem. unfold chunks. simpl. rewrite app_nil_r.
    split; [done|]. split; [done|]. split; [done|]. split; [lia|done].
  - apply Forall_cons in Hok as [Hc Hok].
    unfold chunks_fit in Hfit. rewrite chunks_cons, length_app in Hfit.
    cbn [sink_calls]. rewrite (write_cb_spec c mem Hwf Hc).
    2:{ unfold chunks_fit, chunks. simpl. rewrite app_nil_r. lia. }
    destruct (IH _ (slot_wf_after mem (sc_data c) Hwf) Hok)
      as (mem' & Hrun & Hwf' & Hpay & Hsize & Hterm).
    { unfold chunks_fit. simpl. lia. }
    exists mem'. split; [exact Hrun|]. split; [done|].
    rewrite (payload_after mem _ Hwf) in Hpay. simpl in Hsize.
    rewrite chunks_cons, length_app.
    split; [by rewrite Hpay, (assoc_L (++))|]. split; [lia|].
    intros _. destruct calls as [|c' calls'].
    + injection Hrun as <-. simpl.
      by rewrite (payload_after mem _ Hwf), (assoc_L (++)).
    + by apply Hterm.
Qed.

Lemma sink_calls_app calls1 calls2 mem :
  sink_calls (calls1 ++ calls2) mem
  = sink_calls calls1 mem ≫= sink_calls calls2.
Proof.
  revert mem. induction calls1 as [|c calls1 IH]; intros mem; [done|].
  simpl. destruct (write_cb _ _ _ _ mem) as [r|why]; simpl; [apply IH|done].
Qed.

(** C10: on a slot that is untouched or holds what earlier calls left, a
    sequence of sink calls, followed by one more call with a chunk of [n]
    bytes, leaves the earlier bytes in place, puts exactly the chunk after
    them, adds exactly [n] to the stored size, and leaves a zero byte at
    index [size]; the payload is the concatenation, in order, of all the
    chunks. *)
Theorem write_cb_accumulates calls c mem :
  slot_wf mem -> Forall sink_call_ok (calls ++ [c]) ->
  chunks_fit (calls ++ [c]) mem ->
  exists before after,
    sink_calls calls mem = Ok before /\
    sink_calls (calls ++ [c]) mem = Ok after /\
    write_cb (sc_alloc c) (sc_data c) (sc_size c) (sc_nmemb c) before
      = Ok (after, Z.of_nat (length (sc_data c))) /\
    payload after = payload before ++ sc_data c /\
    size after = (size before + Z.of_nat (length (sc_data c)))%Z /\
    response after = Some (payload after ++ [NUL]) /\
    default [] (response after) !! Z.to_nat (size after) = Some NUL /\
    payload after = payload mem ++ chunks (calls ++ [c]).
Proof.
  intros Hwf Hok Hfit. apply Forall_app in Hok as [Hok Hc].
  apply Forall_cons in Hc as [Hc _].
  unfold chunks_fit in Hfit. rewrite chunks_app, length_app in Hfit.
  unfold chunks at 2 in Hfit. simpl in Hfit. rewrite app_nil_r in Hfit.
  destruct (sink_calls_spec calls mem Hwf Hok)
    as (before & Hrun & Hwfb & Hpay & Hsize & _); [unfold chunks_fit; lia|].
  pose proof (payload_length before Hwfb) as Hpl.
  set (after := {| response := Some (payload before ++ sc_data c ++ [NUL]);
                   size := size before + Z.of_nat (length (sc_data c)) |}).
  assert (write_cb (sc_alloc c) (sc_data c) (sc_size c) (sc_nmemb c) before
          = Ok (after, Z.of_nat (length (sc_data c)))) as Hcb.
  { apply write_cb_spec; [done|done|].
    unfold chunks_fit, chunks. simpl. rewrite app_nil_r. lia. }
  assert (payload after = payload before ++ sc_data c) as Hpa
    by (by apply payload_after).
  exists before, after. split; [done|]. split.
  { rewrite sink_calls_app, Hrun. simpl. by rewrite Hcb. }
  split; [done|]. split; [done|]. split; [done|].
  split; [simpl; by rewrite Hpa, (assoc_L (++))|]. split.
  { simpl. rewrite (assoc_L (++)). apply list_lookup_middle.
    rewrite length_app. destruct Hwfb. lia. }
  rewrite Hpa, Hpay, chunks_app. unfold chunks at 3. simpl.
  by rewrite app_nil_r, (assoc_L (++)).
Qed.

Lemma write_cb_accumulates_witness :
  exists before after,
    sink_calls [chunk [1; 2]%Z] empty_response = Ok before /\
    sink_calls ([chunk [1; 2]%Z] ++ [chunk [3%Z]]) empty_response = Ok after /\
    write_cb (sc_alloc (chunk [3%Z])) (sc_data (chunk [3%Z]))
      (sc_size (chunk [3%Z])) (sc_nmemb (chunk [3%Z])) before
      = Ok (after, Z.of_nat (length (sc_data (chunk [3%Z])))) /\
    payload after = payload before ++ sc_data (chunk [3%Z]) /\
    size after = (size before + Z.of_nat (length (sc_data (chunk [3%Z]))))%Z /\
    response after = Some (payload after ++ [NUL]) /\
    default [] (response after) !! Z.to_nat (size after) = Some NUL /\
    payload after
    = payload empty_response ++ chunks ([chunk [1; 2]%Z] ++ [chunk [3%Z]]).
Proof.
  apply (write_cb_accumulates [chunk [1; 2]%Z] (chunk [3%Z]) empty_response).
  - split; [simpl; lia | reflexivity].
  - repeat constructor; simpl; lia.
  - vm_compute. reflexivity.
Defined.

(** ** The input line *)

Lemma strlen_app_nul line rest :
  Forall (fun b => b <> NUL) line -> strlen (line ++ NUL :: rest) = length line.
Proof.
  induction 1 as [|b line Hb _ IH]; [done|]. simpl.
  destruct (Z.eqb_spec b NUL); [done|]. by rewrite IH.
Qed.

Lemma buf_wf_strlen buf line :
  buf = line ++ replicate (BUF_SIZE - length line) NUL ->
  (length line < BUF_SIZE)%nat -> Forall (fun b => b <> NUL) line ->
  strlen buf = length line /\ input_line buf = line /\ length buf = BUF_SIZE.
Proof.
  intros -> Hlen Hnz.
  destruct (BUF_SIZE - length line)%nat as [|k] eqn:Hk; [lia|]. simpl.
  unfold input_line, c_str. rewrite strlen_app_nul by done.
  split; [done|]. split; [by rewrite take_app_length|].
  rewrite length_app. simpl. rewrite length_replicate. lia.
Qed.

Lemma buf_wf_init : buf_wf (replicate BUF_SIZE NUL).
Proof. exists []. split; [done|]. split; [unfold BUF_SIZE; simpl; lia|done]. Qed.

(** [read_char] keeps the input buffer in shape, whatever the key. *)
Lemma read_char_buf_wf ok state buf c :
  buf_wf buf -> buf_wf (read_char ok state buf c).2.
Proof.
  intros (line & Hbuf & Hlen & Hnz).
  destruct (buf_wf_strlen buf line Hbuf Hlen Hnz) as (Hstr & _ & Hblen).
  unfold read_char. rewrite Hstr.
  destruct (c =? CARRIAGE)%Z; [apply buf_wf_init|].
  destruct ((c =? DEL)%Z || (c =? BACKSPACE)%Z).
  { simpl. destruct (Nat.ltb_spec 0 (length line)) as [Hpos|Hpos].
    - destruct (exists_last (l := line)) as (l & x & ->);
        [by intros ->; simpl in Hpos; lia|].
      rewrite length_app in *. simpl in *.
      exists l. split; [|split; [lia|]].
      + rewrite Hbuf. replace (length l + 1 - 1)%nat with (length l + 0)%nat by lia.
        rewrite <- (assoc_L (++)). rewrite insert_app_r. simpl.
        replace (BUF_SIZE - length l)%nat
          with (S (BUF_SIZE - (length l + 1)))%nat by lia.
        done.
      + by apply Forall_app in Hnz as [? _].
    - by exists line. }
  destruct (c =? DQUOTE)%Z; [by exists line|].
  destruct (c =? SQUOTE)%Z; [by exists line|].
  destruct (Nat.ltb_spec (length line + 1) BUF_SIZE) as [Hroom|Hroom];
    [|by exists line].
  destruct (isprint c) eqn:Hprint; simpl; [|by exists line].
  exists (line ++ [c]). rewrite length_app. simpl. split; [|split; [lia|]].
  - rewrite Hbuf. replace (length line) with (length line + 0)%nat at 1 by lia.
    replace (BUF_SIZE - length line)%nat
      with (S (BUF_SIZE - (length line + 1)))%nat by lia.
    rewrite insert_app_r. simpl. by rewrite <- (assoc_L (++)).
  - apply Forall_app. split; [done|]. constructor; [|done].
    unfold isprint, NUL in *. lia.
Qed.

(** C8: on a backspace or delete key [read_char] leaves the shared state
    alone, removes exactly the last character of a non-empty input line,
    and leaves the buffer as it is when the input line is empty. *)
Theorem backspace_removes_last ok state buf c :
  buf_wf buf -> c = DEL \/ c = BACKSPACE ->
  exists buf',
    read_char ok state buf c = (state, buf') /\ buf_wf buf' /\
    (input_line buf = [] -> buf' = buf) /\
    (forall l x, input_line buf = l ++ [x] -> input_line buf' = l).
Proof.
  intros Hwf Hc. pose proof (read_char_buf_wf ok state buf c Hwf) as Hwf'.
  destruct Hwf as (line & Hbuf & Hlen & Hnz).
  destruct (buf_wf_strlen buf line Hbuf Hlen Hnz) as (Hstr & Hline & Hblen).
  unfold read_char in *. rewrite Hstr in *.
  assert ((c =? CARRIAGE)%Z = false) as Hcr
    by (destruct Hc as [-> | ->]; reflexivity).
  assert (((c =? DEL)%Z || (c =? BACKSPACE)%Z) = true) as Hbs
    by (destruct Hc as [-> | ->]; reflexivity).
  rewrite Hcr, Hbs in *. simpl in Hwf'.
  eexists. split; [reflexivity|]. split; [done|]. rewrite Hline. split.
  - intros ->. reflexivity.
  - intros l x ->. rewrite length_app in *. simpl in *.
    destruct (Nat.ltb_spec 0 (length l + 1)) as [_|?]; [|lia].
    rewrite Hbuf. replace (length l + 1 - 1)%nat with (length l + 0)%nat by lia.
    rewrite <- (assoc_L (++)), insert_app_r. simpl.
    unfold input_line, c_str. apply Forall_app in Hnz as [Hl _].
    rewrite strlen_app_nul by done. by rewrite take_app_length.
Qed.

Lemma backspace_removes_last_witness :
  exists buf',
    read_char true init_state buf_hi DEL = (init_state, buf') /\ buf_wf buf' /\
    (input_line buf_hi = [] -> buf' = buf_hi) /\
    (forall l x, input_line buf_hi = l ++ [x] -> input_line buf' = l).
Proof.
  apply (backspace_removes_last true init_state buf_hi DEL).
  - exists [104; 105]%Z. split; [reflexivity|]. split; [simpl; unfold BUF_SIZE; lia|].
    repeat constructor; discriminate.
  - left. reflexivity.
Defined.

(** ** The renderer *)

(** What [redraw] sends, for a fixed window size. *)
Section Screen.

Context (win : wsize).

Lemma foldl_draw_line_stuck lines d :
  (y d <= 0)%Z -> foldl (draw_line win) d lines = d.
Proof.
  intros Hy. induction lines as [|l lines IH]; [done|]. simpl.
  unfold draw_line at 2. destruct (Z.leb_spec (y d) 0); [done|lia].
Qed.

Lemma redraw_response_fold block n index : forall d,
  redraw_response win block n index d
  = foldl (draw_line win) d
      ((fun s => {| ln_block := block; ln_size := n; ln_start := s |})
       <$> line_starts block index).
Proof.
  induction index as [|start IH]; intros d; [done|]. simpl.
  destruct (line_start block start); [|apply IH]. simpl.
  unfold draw_line at 2. simpl.
  destruct (Z.leb_spec (y d) 0) as [Hy|Hy].
  { by rewrite foldl_draw_line_stuck. }
  destruct (0 <? n_skip d)%Z; apply IH.
Qed.

Lemma redraw_responses_fold resps i : forall d,
  redraw_responses win resps i d
  = foldl (draw_line win) d (stored_lines resps i).
Proof.
  induction i as [|j IH]; intros d; [done|]. simpl.
  rewrite foldl_app. unfold response_lines.
  destruct (response (resps !!! j)) as [block|]; [|apply IH].
  by rewrite IH, redraw_response_fold.
Qed.

(** The lines that get rendered are the ones after the first [n_skip], as
    many as [y] allows, on the rows [y], [y - 1], ... *)
Lemma foldl_draw_line_out lines : forall d,
  out (foldl (draw_line win) d lines)
  = out d ++ concat (imap (fun i l => line_ops win (y d - Z.of_nat i) l)
                       (take (Z.to_nat (y d))
                          (drop (Z.to_nat (n_skip d)) lines))).
Proof.
  induction lines as [|l lines IH]; intros d.
  { simpl. rewrite drop_nil, take_nil. simpl. by rewrite app_nil_r. }
  simpl. unfold draw_line at 2.
  destruct (Z.leb_spec (y d) 0) as [Hy|Hy].
  { rewrite IH. by replace (Z.to_nat (y d)) with 0%nat by lia. }
  destruct (Z.ltb_spec 0 (n_skip d)) as [Hn|Hn].
  - rewrite IH. simpl.
    by replace (Z.to_nat (n_skip d)) with (S (Z.to_nat (n_skip d - 1))) by lia.
  - rewrite IH. simpl.
    replace (Z.to_nat (n_skip d)) with 0%nat by lia.
    replace (Z.to_nat (n_skip d - 1)) with 0%nat by lia.
    replace (Z.to_nat (y d)) with (S (Z.to_nat (y d - 1))) by lia.
    simpl. rewrite Z.sub_0_r, <- (assoc_L (++)). f_equal.
    change (TermSetCursor (y d) 1 :: ?a ++ ?b) with (line_ops win (y d) l ++ b).
    do 2 f_equal. apply imap_ext. intros i x _. simpl. f_equal. lia.
Qed.

Lemma leading_chars_putchars cs rest :
  leading_chars ((PutChar <$> cs) ++ rest) = cs ++ leading_chars rest.
Proof. induction cs as [|c cs IH]; [done|]. simpl. f_equal. exact IH. Qed.

Lemma leading_chars_fmap cs : leading_chars (PutChar <$> cs) = cs.
Proof.
  rewrite <- (app_nil_r (PutChar <$> cs)).
  by rewrite leading_chars_putchars, app_nil_r.
Qed.

Lemma rows_of_putchars cs rest :
  rows_of ((PutChar <$> cs) ++ rest) = rows_of rest.
Proof. induction cs as [|c cs IH]; [done|]. exact IH. Qed.

(** The innermost loop sends characters only. *)
Lemma put_line_putchars block fuel : forall begin stop,
  put_line block begin stop fuel
  = PutChar <$> leading_chars (put_line block begin stop fuel).
Proof.
  induction fuel as [|fuel IH]; intros begin stop; [done|]. simpl.
  destruct (begin =? stop)%nat; [done|]. simpl. by rewrite <- IH.
Qed.

Lemma rows_of_line_ops row l rest :
  leading_chars rest = [] ->
  rows_of (line_ops win row l ++ rest) = (row, line_row win l) :: rows_of rest.
Proof.
  intros Hrest. unfold line_ops, line_row. simpl.
  rewrite put_line_putchars, leading_chars_putchars, rows_of_putchars, Hrest.
  by rewrite app_nil_r, leading_chars_fmap.
Qed.

Lemma rows_of_lines rest lines : forall row,
  leading_chars rest = [] ->
  rows_of (concat (imap (fun i l => line_ops win (row - Z.of_nat i) l) lines)
           ++ rest)
  = imap (fun i l => ((row - Z.of_nat i)%Z, line_row win l)) lines
    ++ rows_of rest.
Proof.
  induction lines as [|l lines IH]; intros row Hrest; [done|].
  rewrite !imap_cons. cbn [concat]. rewrite <- (assoc_L (++)).
  rewrite rows_of_line_ops.
  - cbn [app]. f_equal.
    rewrite (imap_ext _ (fun i l => line_ops win (row - 1 - Z.of_nat i) l))
      by (intros; simpl; f_equal; lia).
    rewrite IH by done. f_equal. apply imap_ext. intros; simpl. f_equal. lia.
  - destruct lines; [exact Hrest|done].
Qed.

Lemma rows_of_input_row buf :
  rows_of (TermSetCursor (rows win) 1 :: printf_prec (cols win) buf ++ [Flush])
  = [(rows win, input_row win buf)].
Proof.
  unfold input_row, printf_prec. simpl.
  rewrite leading_chars_putchars, rows_of_putchars. simpl.
  by rewrite app_nil_r, leading_chars_fmap.
Qed.

(** What [redraw] puts on the screen: the stored lines after the first
    [scroll], bottom-up from the second-to-last row, and the input line. *)
Lemma redraw_screen state buf :
  rows_of (redraw win state buf)
  = screen win (drop (Z.to_nat (scroll state)) (log_lines state)) buf.
Proof.
  unfold redraw, screen, log_lines.
  rewrite redraw_responses_fold, foldl_draw_line_out. simpl.
  rewrite rows_of_lines by done. by rewrite rows_of_input_row.
Qed.

End Screen.

Lemma put_line_length block fuel : forall begin stop,
  (length (leading_chars (put_line block begin stop fuel)) <= fuel)%nat.
Proof.
  induction fuel as [|fuel IH]; intros begin stop; [done|]. simpl.
  destruct (begin =? stop)%nat; simpl; [lia|]. specialize (IH (S begin) stop). lia.
Qed.

Lemma put_line_length_exact block fuel : forall begin stop,
  (begin <= stop)%nat ->
  length (leading_chars (put_line block begin stop fuel))
  = (fuel `min` (stop - begin))%nat.
Proof.
  induction fuel as [|fuel IH]; intros begin stop Hle; [done|].
  cbn [put_line].
  destruct (Nat.eqb_spec begin stop) as [->|Hne]; cbn [leading_chars length].
  - rewrite Nat.sub_diag. lia.
  - rewrite IH by lia. lia.
Qed.

Lemma put_line_lookup block fuel : forall begin stop j c,
  leading_chars (put_line block begin stop fuel) !! j = Some c ->
  c = (if (block !!! (begin + j)%nat =? TAB)%Z then SPACE
       else block !!! (begin + j)%nat).
Proof.
  induction fuel as [|fuel IH]; intros begin stop j c; [done|]. simpl.
  destruct (begin =? stop)%nat; [done|]. destruct j as [|j]; simpl.
  - rewrite Nat.add_0_r. congruence.
  - intros Hj. apply IH in Hj. by replace (begin + S j)%nat with (S begin + j)%nat by lia.
Qed.

Lemma until_newline_take_le k : forall s, (until_newline (take k s) <= k)%nat.
Proof.
  induction k as [|k IH]; intros [|b s]; simpl; try lia.
  destruct (b =? NEWLINE)%Z; [lia|]. specialize (IH s). lia.
Qed.

Lemma until_newline_strchr s : forall k off,
  strchr s NEWLINE = Some off -> (until_newline (take k s) <= off)%nat.
Proof.
  induction s as [|b s IH]; intros k off; [done|]. simpl.
  destruct k as [|k]; simpl; [lia|].
  destruct (b =? NEWLINE)%Z; [lia|]. destruct (b =? NUL)%Z; [done|].
  destruct (strchr s NEWLINE) as [off'|] eqn:Hs; [|done]. simpl.
  intros [= <-]. specialize (IH k off' eq_refl). lia.
Qed.

(** The end that [redraw] computes for a line is not before its newline. *)
Lemma line_end_ge block n start :
  (start <= n)%nat ->
  (start + line_length {| ln_block := block; ln_size := n; ln_start := start |}
   <= line_end block n start)%nat.
Proof.
  intros Hle. unfold line_length, line_end. simpl.
  destruct (strchr (drop start block) NEWLINE) as [off|] eqn:Hs.
  - pose proof (until_newline_strchr _ (n - start) off Hs). lia.
  - pose proof (until_newline_take_le (n - start) (drop start block)). lia.
Qed.

Lemma line_end_ge_start block n start :
  (start <= n)%nat -> (start <= line_end block n start)%nat.
Proof.
  intros Hle. unfold line_end. destruct (strchr _ _); lia.
Qed.

Lemma line_starts_lt block index s :
  s ∈ line_starts block index -> (s < index)%nat.
Proof.
  induction index as [|start IH]; simpl; [by intros ?%elem_of_nil|].
  destruct (line_start block start).
  - intros [->|Hs]%elem_of_cons; [lia|]. specialize (IH Hs). lia.
  - intros Hs. specialize (IH Hs). lia.
Qed.

Lemma stored_lines_start resps i l :
  l ∈ stored_lines resps i -> (ln_start l < ln_size l)%nat.
Proof.
  induction i as [|j IH]; simpl; [by intros ?%elem_of_nil|].
  intros [Hl|Hl]%elem_of_app; [|by apply IH].
  unfold response_lines in Hl. destruct (response (resps !!! j)); [|by apply elem_of_nil in Hl].
  apply list_elem_of_fmap in Hl as (s & -> & Hs). simpl.
  by apply line_starts_lt in Hs.
Qed.

Lemma visible_lines_start win state i l :
  visible_lines win state !! i = Some l -> (ln_start l < ln_size l)%nat.
Proof.
  intros Hl. apply (stored_lines_start (responses state)
                      (Z.to_nat (latest_response state))).
  apply list_elem_of_lookup_2 in Hl. unfold visible_lines in Hl.
  apply elem_of_take in Hl as (k & Hk & _).
  rewrite lookup_drop in Hk. by eapply list_elem_of_lookup_2.
Qed.

Lemma screen_lookup win lines buf i l :
  take (Z.to_nat (rows win - 1)) lines !! i = Some l ->
  screen win lines buf !! i
  = Some ((rows win - 1 - Z.of_nat i)%Z, line_row win l).
Proof.
  intros Hl. unfold screen. rewrite lookup_app_l.
  - by rewrite list_lookup_imap, Hl.
  - rewrite length_imap. by eapply lookup_lt_Some.
Qed.

Lemma input_row_length win buf :
  (0 <= cols win)%Z -> (length (input_row win buf) <= Z.to_nat (cols win))%nat.
Proof.
  intros Hc. unfold input_row, printf_prec. rewrite leading_chars_fmap.
  destruct (Z.ltb_spec (cols win) 0); [lia|]. rewrite length_take. lia.
Qed.

Lemma wsize_ok_cols win :
  wsize_ok win -> Z.to_nat (size_t_wrap (cols win)) = Z.to_nat (cols win).
Proof.
  intros [_ Hc]. rewrite size_t_wrap_small; [done|]. unfold SIZE_T_MODULUS. lia.
Qed.

(** The rows of a screen are distinct rows of the window. *)
Lemma screen_rows win lines buf :
  (1 <= rows win)%Z ->
  (screen win lines buf).*1
  = ((fun i => (rows win - 1 - Z.of_nat i)%Z)
     <$> seq 0 (length (take (Z.to_nat (rows win - 1)) lines)))
    ++ [rows win].
Proof.
  intros Hrows. unfold screen. rewrite fmap_app, fmap_imap. simpl.
  f_equal. rewrite <- imap_seq_0. by apply imap_ext.
Qed.

Lemma screen_rows_distinct win lines buf :
  (1 <= rows win)%Z ->
  NoDup (screen win lines buf).*1 /\
  Forall (fun row => (1 <= row <= rows win)%Z) (screen win lines buf).*1.
Proof.
  intros Hrows. rewrite screen_rows by done.
  set (n := length (take (Z.to_nat (rows win - 1)) lines)).
  assert (n <= Z.to_nat (rows win - 1))%nat as Hn
    by (unfold n; rewrite length_take; lia).
  split.
  - apply NoDup_app. split; [|split; [|apply NoDup_singleton]].
    + apply NoDup_fmap_2; [|apply NoDup_seq]. intros i j Hij. lia.
    + intros row (i & -> & Hi)%list_elem_of_fmap Hin%list_elem_of_singleton.
      lia.
  - apply Forall_app. split.
    + apply Forall_fmap, Forall_forall. intros i Hi%elem_of_seq. simpl. lia.
    + constructor; [lia|done].
Qed.

Lemma redraw_visible_row win state buf i l :
  visible_lines win state !! i = Some l ->
  rows_of (redraw win state buf) !! i
  = Some ((rows win - 1 - Z.of_nat i)%Z, line_row win l).
Proof. intros Hl. rewrite redraw_screen. by apply screen_lookup. Qed.

(** C4, as the code has it: for a viewport with at least one row, every
    row [redraw] sends has at most [cols] characters, and at most [rows]
    rows are sent, all of them different rows of the viewport, the input
    line on the last row counted; a rendered line longer than [cols] gives
    exactly [cols] characters (the lines rendered being those after the
    first [scroll], for a scroll offset whose countdown stays within the
    range of [int]). *)
Theorem redraw_fits_viewport win state buf :
  wsize_ok win -> (1 <= rows win)%Z ->
  Forall (fun r => (length r.2 <= Z.to_nat (cols win))%nat)
         (rows_of (redraw win state buf)) /\
  (Z.of_nat (length (rows_of (redraw win state buf))) <= rows win)%Z /\
  NoDup (rows_of (redraw win state buf)).*1 /\
  Forall (fun row => (1 <= row <= rows win)%Z)
         (rows_of (redraw win state buf)).*1 /\
  last (rows_of (redraw win state buf)) = Some (rows win, input_row win buf) /\
  (forall i l,
     (INT_MIN + Z.of_nat (length (log_lines state)) <= scroll state)%Z ->
     visible_lines win state !! i = Some l ->
     (Z.to_nat (cols win) < line_length l)%nat ->
     exists row cs, rows_of (redraw win state buf) !! i = Some (row, cs) /\
                    length cs = Z.to_nat (cols win)).
Proof.
  intros Hwin Hrows. pose proof (wsize_ok_cols win Hwin) as Hcols.
  split; [|split; [|split; [|split; [|split]]]].
  3:{ rewrite redraw_screen. by apply screen_rows_distinct. }
  3:{ rewrite redraw_screen. by apply screen_rows_distinct. }
  3:{ rewrite redraw_screen. unfold screen. by rewrite last_snoc. }
  - rewrite redraw_screen. unfold screen. apply Forall_app. split.
    + apply Forall_forall. intros [row cs] Hin.
      apply list_elem_of_lookup in Hin as [i Hi].
      rewrite list_lookup_imap in Hi.
      destruct (take _ _ !! i) as [l|]; [|done]. injection Hi as _ <-. simpl.
      unfold line_row. rewrite Hcols. apply put_line_length.
    + constructor; [|done]. simpl. apply input_row_length. by destruct Hwin as [_ [? _]].
  - rewrite redraw_screen. unfold screen.
    rewrite length_app, length_imap, length_take. simpl. lia.
  - intros i l _ Hl Hlong. eexists _, _. split; [by apply redraw_visible_row|].
    pose proof (visible_lines_start _ _ _ _ Hl) as Hstart.
    unfold line_row. rewrite Hcols.
    destruct l as [block n start]; simpl in *.
    pose proof (line_end_ge block n start ltac:(lia)) as Hend.
    rewrite put_line_length_exact by lia. lia.
Qed.

Lemma redraw_fits_viewport_witness :
  Forall (fun r => (length r.2 <= Z.to_nat (cols win_3x2))%nat)
         (rows_of (redraw win_3x2 state_abc buf_hi)) /\
  (Z.of_nat (length (rows_of (redraw win_3x2 state_abc buf_hi)))
   <= rows win_3x2)%Z /\
  NoDup (rows_of (redraw win_3x2 state_abc buf_hi)).*1 /\
  Forall (fun row => (1 <= row <= rows win_3x2)%Z)
         (rows_of (redraw win_3x2 state_abc buf_hi)).*1 /\
  last (rows_of (redraw win_3x2 state_abc buf_hi))
  = Some (rows win_3x2, input_row win_3x2 buf_hi) /\
  (forall i l,
     (INT_MIN + Z.of_nat (length (log_lines state_abc)) <= scroll state_abc)%Z ->
     visible_lines win_3x2 state_abc !! i = Some l ->
     (Z.to_nat (cols win_3x2) < line_length l)%nat ->
     exists row cs,
       rows_of (redraw win_3x2 state_abc buf_hi) !! i = Some (row, cs) /\
       length cs = Z.to_nat (cols win_3x2)).
Proof.
  apply (redraw_fits_viewport win_3x2 state_abc buf_hi).
  - unfold wsize_ok. simpl. lia.
  - simpl. lia.
Defined.

(** C4 as stated fails for a viewport without rows, a size [get_win_size]
    can return: [redraw] still places the cursor on row 0 and sends the
    input line, one row where the claim allows none. *)
Lemma zero_rows_viewport_counterexample :
  wsize_ok win_0x80 /\ rows win_0x80 = 0%Z /\
  rows_of (redraw win_0x80 state_abc buf_hi) = [(0%Z, [104; 105]%Z)] /\
  ~ (Z.of_nat (length (rows_of (redraw win_0x80 state_abc buf_hi)))
     <= rows win_0x80)%Z.
Proof.
  split; [unfold wsize_ok; simpl; lia|]. split; [reflexivity|].
  split; [reflexivity|]. vm_compute. intros H. by apply H.
Qed.

(** A window reported with no rows has no last row; the input line is sent
    all the same, after a cursor placement on row 0. *)
Example redraw_zero_rows :
  rows_of (redraw win_0x80 state_abc buf_hi) = [(0%Z, [104; 105]%Z)].
Proof. reflexivity. Qed.

(** C5: with [scroll] set to [k], below the number of stored lines, exactly
    the [k] bottom-most stored lines are passed over before the first line
    is rendered: the screen is the one that [scroll = 0] gives for the same
    log once those [k] lines are left out of it. *)
Theorem scroll_skips_bottom_lines win state buf (k : nat) :
  (k < length (log_lines state))%nat ->
  exists skipped rest,
    log_lines state = skipped ++ rest /\ length skipped = k /\
    rows_of (redraw win (set_scroll (Z.of_nat k) state) buf)
      = screen win rest buf /\
    rows_of (redraw win (set_scroll 0 state) buf)
      = screen win (skipped ++ rest) buf.
Proof.
  intros Hk. exists (take k (log_lines state)), (drop k (log_lines state)).
  split; [by rewrite take_drop|]. split; [rewrite length_take; lia|].
  rewrite !redraw_screen, take_drop. split.
  - unfold log_lines. simpl. by rewrite Nat2Z.id.
  - done.
Qed.

Lemma scroll_skips_bottom_lines_witness :
  exists skipped rest,
    log_lines state_3lines = skipped ++ rest /\ length skipped = 2%nat /\
    rows_of (redraw win_3x80 (set_scroll (Z.of_nat 2) state_3lines) buf_hi)
      = screen win_3x80 rest buf_hi /\
    rows_of (redraw win_3x80 (set_scroll 0 state_3lines) buf_hi)
      = screen win_3x80 (skipped ++ rest) buf_hi.
Proof.
  apply (scroll_skips_bottom_lines win_3x80 state_3lines buf_hi 2).
  vm_compute. lia.
Defined.

(** C6: a rendered line gives one character per payload position, in
    order, and where the payload has a tab the character sent is one
    space.  The lines rendered are those after the first [scroll]; the
    scroll offset is taken not to be so far below zero that counting it
    down once per stored line leaves the range of [int]. *)
Theorem tab_rendered_as_space win state buf i l :
  wsize_ok win ->
  (INT_MIN + Z.of_nat (length (log_lines state)) <= scroll state)%Z ->
  visible_lines win state !! i = Some l ->
  exists row cs,
    rows_of (redraw win state buf) !! i = Some (row, cs) /\
    length cs = (Z.to_nat (cols win)
                 `min` (line_end (ln_block l) (ln_size l) (ln_start l) + 1
                        - ln_start l))%nat /\
    (forall j c, cs !! j = Some c ->
       c = if (ln_block l !!! (ln_start l + j)%nat =? TAB)%Z then SPACE
           else ln_block l !!! (ln_start l + j)%nat) /\
    (forall j, (j < length cs)%nat ->
       ln_block l !!! (ln_start l + j)%nat = TAB -> cs !! j = Some SPACE).
Proof.
  intros Hwin _ Hl. pose proof (wsize_ok_cols win Hwin) as Hcols.
  pose proof (visible_lines_start _ _ _ _ Hl) as Hstart.
  pose proof (line_end_ge_start (ln_block l) (ln_size l) (ln_start l)
                ltac:(lia)) as Hend.
  eexists _, _. split; [by apply redraw_visible_row|].
  unfold line_row. rewrite Hcols. split; [|split].
  - apply put_line_length_exact. lia.
  - intros j c Hj. by apply put_line_lookup in Hj.
  - intros j Hj Htab.
    destruct (lookup_lt_is_Some_2 _ _ Hj) as [c Hc]. rewrite Hc.
    apply put_line_lookup in Hc. rewrite Htab in Hc. by subst c.
Qed.

Lemma tab_rendered_as_space_witness :
  exists row cs,
    rows_of (redraw win_3x80 state_tab buf_hi) !! 0%nat = Some (row, cs) /\
    length cs
    = (Z.to_nat (cols win_3x80)
       `min` (line_end (ln_block line_tab) (ln_size line_tab)
                (ln_start line_tab) + 1 - ln_start line_tab))%nat /\
    (forall j c, cs !! j = Some c ->
       c = if (ln_block line_tab !!! (ln_start line_tab + j)%nat =? TAB)%Z
           then SPACE
           else ln_block line_tab !!! (ln_start line_tab + j)%nat) /\
    (forall j, (j < length cs)%nat ->
       ln_block line_tab !!! (ln_start line_tab + j)%nat = TAB ->
       cs !! j = Some SPACE).
Proof.
  apply (tab_rendered_as_space win_3x80 state_tab buf_hi 0 line_tab).
  - unfold wsize_ok. simpl. lia.
  - vm_compute. discriminate.
  - reflexivity.
Defined.

Lemma stored_lines_concat resps i :
  stored_lines resps i = concat (response_lines <$> reverse (take i resps)).
Proof.
  induction i as [|j IH]; [done|]. simpl. rewrite IH.
  destruct (resps !! j) as [x|] eqn:Hj.
  - rewrite (take_S_r _ _ _ Hj), reverse_snoc. simpl.
    by rewrite (list_lookup_total_correct _ _ _ Hj).
  - apply lookup_ge_None in Hj.
    rewrite list_lookup_total_alt, (proj2 (lookup_ge_None _ _) Hj). simpl.
    by rewrite !take_ge by lia.
Qed.

Lemma response_lines_filter resps :
  concat (response_lines <$> filter (fun r => is_Some (response r)) resps)
  = concat (response_lines <$> resps).
Proof.
  induction resps as [|r resps IH]; [done|].
  rewrite filter_cons. destruct (decide (is_Some (response r))) as [Hr|Hr].
  - rewrite !fmap_cons. cbn [concat]. by rewrite IH.
  - rewrite !fmap_cons. cbn [concat]. rewrite IH. unfold response_lines at 2.
    destruct (response r); [|done]. by destruct Hr.
Qed.

(** C7: a slot with no payload takes nothing from the renderer, neither a
    row nor a step of the countdown nor any output, so [redraw] sends
    exactly what it sends for the log without the slots that have no
    payload. *)
Theorem failed_slot_not_rendered win state buf :
  (forall j d, response (responses state !!! j) = None ->
     redraw_responses win (responses state) (S j) d
     = redraw_responses win (responses state) j d) /\
  redraw win state buf
  = redraw win
      (set_latest_response (Z.of_nat (length (delivered state)))
         (set_responses (delivered state) state)) buf.
Proof.
  split.
  - intros j d Hj. simpl. by rewrite Hj.
  - unfold redraw. simpl. rewrite !redraw_responses_fold.
    rewrite !stored_lines_concat, Nat2Z.id, (take_ge (delivered state)) by lia.
    unfold delivered.
    by rewrite <- filter_reverse, response_lines_filter.
Qed.

(** ** The main loop and the wake channel *)

Lemma read_char_notify ok state buf c :
  notify_ui_pipe (read_char ok state buf c).1 = notify_ui_pipe state.
Proof.
  unfold read_char, send_request, strdup.
  repeat (match goal with |- context [if ?b then _ else _] => destruct b end);
    reflexivity.
Qed.

Lemma main_poll_notify io m m' :
  mi_intr io = false -> notify_ui_pipe (mt_state m) <> [] ->
  main_poll io m = MainNext m' ->
  notify_ui_pipe (mt_state m') = tail (notify_ui_pipe (mt_state m)).
Proof.
  intros Hintr Hne. unfold main_poll. rewrite Hintr. simpl.
  rewrite (bool_decide_eq_true_2 _ Hne), andb_false_r.
  destruct (mt_stdin m) as [|c rest] eqn:Hin; simpl.
  - intros [= <-]. done.
  - destruct (c =? CTRL_C)%Z; [done|].
    pose proof (read_char_notify (mi_strdup_ok io) (mt_state m) (mt_buf m) c) as Hrc.
    destruct (read_char _ _ _ c) as [state buf]. simpl in *.
    intros [= <-]. simpl. by rewrite Hrc.
Qed.

Lemma main_poll_quiet io m :
  mi_intr io = false -> mt_stdin m = [] ->
  main_poll io m
  = match notify_ui_pipe (mt_state m) with
    | [] => MainWait m
    | _ :: rest =>
        MainNext {| mt_state := set_notify_ui_pipe rest (mt_state m);
                    mt_buf := mt_buf m; mt_stdin := mt_stdin m |}
    end.
Proof.
  intros Hintr Hin. unfold main_poll. rewrite Hintr.
  destruct m as [state buf stdin]. simpl in *. subst stdin.
  destruct (notify_ui_pipe state) as [|b rest] eqn:Hn; rewrite ?Hn.
  - by rewrite bool_decide_eq_false_2 by (intros H; by apply H).
  - rewrite (bool_decide_eq_true_2 (b :: rest ≠ [])) by done.
    rewrite andb_false_r. simpl. by rewrite Hn.
Qed.

Lemma main_rounds_drain ios : forall m,
  Forall (fun io => mi_intr io = false) ios -> mt_stdin m = [] ->
  length ios = length (notify_ui_pipe (mt_state m)) ->
  exists m', main_rounds ios m = MainNext m' /\
             notify_ui_pipe (mt_state m') = [] /\
             forall io, mi_intr io = false -> main_poll io m' = MainWait m'.
Proof.
  induction ios as [|io ios IH]; intros m Hios Hin Hlen.
  - exists m. simpl in Hlen. symmetry in Hlen. apply length_zero_iff_nil in Hlen.
    split; [done|]. split; [done|]. intros io Hio.
    by rewrite main_poll_quiet, Hlen.
  - apply Forall_cons in Hios as [Hio Hios]. simpl.
    rewrite main_poll_quiet by done.
    destruct (notify_ui_pipe (mt_state m)) as [|b rest] eqn:Hn; [done|].
    apply IH; [done|done|]. simpl in *. lia.
Qed.

(** What the main loop does with the notify pipe: a round that finds it
    readable reads exactly one byte from it, the oldest.  The bytes that
    are left each make [poll] return once more: with no key pressed, as
    many further rounds as there are bytes left empty the pipe, and only
    then does [poll] block. *)
Lemma wake_reads_one_byte io m m' :
  mi_intr io = false -> notify_ui_pipe (mt_state m) <> [] ->
  main_poll io m = MainNext m' ->
  notify_ui_pipe (mt_state m') = tail (notify_ui_pipe (mt_state m)) /\
  (forall ios,
     Forall (fun io => mi_intr io = false) ios -> mt_stdin m' = [] ->
     length ios = length (notify_ui_pipe (mt_state m')) ->
     exists m'', main_rounds ios m' = MainNext m'' /\
                 notify_ui_pipe (mt_state m'') = [] /\
                 forall io, mi_intr io = false -> main_poll io m'' = MainWait m'').
Proof.
  intros Hintr Hne Hpoll. split; [by eapply main_poll_notify|].
  intros ios. apply main_rounds_drain.
Qed.

(** C1 does not hold of the code: with two wake bytes pending (two window
    resizes, or a resize and a finished transfer, before the main thread
    runs), the round that was woken by the notify pipe reads one byte and
    goes back to [poll] with the other still in the pipe, so [poll] returns
    at once instead of blocking. *)
Theorem wake_two_pending_leaves_one :
  main_poll io_plain two_wakes = MainNext one_wake /\
  notify_ui_pipe (mt_state one_wake) = [NUL] /\
  main_poll io_plain one_wake <> MainWait one_wake.
Proof. split; [reflexivity|]. split; [reflexivity|]. vm_compute. discriminate. Qed.

(** ** The network thread *)

(** Closes a goal from a hypothesis that places an event in an explicit
    list of events of other kinds. *)
Ltac not_in_list H :=
  repeat (apply elem_of_cons in H as [H|H]; [done|]);
  by apply elem_of_nil in H.

Lemma write_cb_response a data sz nmemb mem r :
  write_cb a data sz nmemb mem = Ok r -> is_Some (response r.1).
Proof.
  unfold write_cb. destruct (realloc _ _ _); [|done]. intros [= <-]. by eexists.
Qed.

Lemma sink_calls_response calls : forall mem mem',
  sink_calls calls mem = Ok mem' ->
  response mem' = None <-> response mem = None /\ calls = [].
Proof.
  induction calls as [|c calls IH]; intros mem mem'; simpl.
  - intros [= <-]. split; [by intros ?|by intros [? _]].
  - destruct (write_cb _ _ _ _ mem) as [r|] eqn:Hcb; [|done]. simpl.
    intros Hrun. apply IH in Hrun. apply write_cb_response in Hcb as [? Hr].
    rewrite Hr in Hrun. split; [|by intros [_ ?]].
    intros H. apply Hrun in H as [? _]. done.
Qed.

(** libcurl running the callback: the slot takes what [sink_calls] makes
    of it, one event per call, and nothing else changes. *)
Lemma deliver_spec calls slot : forall state state',
  (Z.to_nat slot < length (responses state))%nat ->
  deliver calls slot state = Ok state' ->
  exists mem',
    sink_calls calls (responses state !!! Z.to_nat slot) = Ok mem' /\
    state' = set_history
               (history state ++ ((fun c => EvSink slot (sc_data c)) <$> calls))
               (set_responses (<[Z.to_nat slot := mem']> (responses state))
                  state).
Proof.
  induction calls as [|c calls IH]; intros state state' Hslot; simpl.
  - intros [= <-]. eexists. split; [done|].
    destruct (lookup_lt_is_Some_2 _ _ Hslot) as [x Hx].
    rewrite (list_lookup_total_correct _ _ _ Hx), (list_insert_id _ _ _ Hx).
    destruct state. unfold set_history, set_responses. simpl.
    by rewrite app_nil_r.
  - destruct (write_cb _ _ _ _ _) as [r|] eqn:Hcb; [|done]. simpl.
    intros Hrun. apply IH in Hrun as (mem' & Hsink & ->);
      [|by simpl; rewrite length_insert].
    simpl in Hsink. rewrite list_lookup_total_insert_eq in Hsink by done.
    exists mem'. split; [done|].
    unfold set_history, set_responses, record_event. simpl.
    by rewrite list_insert_insert_eq, <- (assoc_L (++)).
Qed.

Lemma curl_multi_perform_spec io state state1 rh :
  (forall h, active (multi state) = Some h ->
     exists slot, CURLOPT_WRITEDATA h = Some slot /\
                  (Z.to_nat slot < length (responses state))%nat) ->
  curl_multi_perform io state = Ok (state1, rh) ->
  (active (multi state) = None /\ state1 = state /\ rh = 0%Z) \/
  (exists h slot mem',
     active (multi state) = Some h /\ CURLOPT_WRITEDATA h = Some slot /\
     sink_calls (io_sink io) (responses state !!! Z.to_nat slot) = Ok mem' /\
     let delivered :=
       set_history
         (history state ++ ((fun c => EvSink slot (sc_data c)) <$> io_sink io))
         (set_responses (<[Z.to_nat slot := mem']> (responses state)) state) in
     (io_finished io = None /\ state1 = delivered /\ rh = 1%Z) \/
     (is_Some (io_finished io) /\
      state1 = set_multi {| active := None |} delivered /\ rh = 0%Z)).
Proof.
  intros Hactive. unfold curl_multi_perform.
  destruct (active (multi state)) as [h|] eqn:Hh; [|intros [= <- <-]; by left].
  destruct (Hactive h eq_refl) as (slot & Hslot & Hrange). rewrite Hslot.
  destruct (deliver _ _ _) as [state2|] eqn:Hdel; [|done]. simpl.
  apply deliver_spec in Hdel as (mem' & Hsink & ->); [|done].
  intros Hres. right. exists h, slot, mem'. split; [done|]. split; [done|].
  split; [done|]. simpl.
  destruct (io_finished io) as [b|]; injection Hres as <- <-.
  - right. split; [by eexists|done].
  - by left.
Qed.

Lemma publish_spec ok state state' :
  (0 <= latest_response state < MAX_RESPONSES)%Z ->
  publish ok state = Ok state' ->
  ok = true /\
  (latest_response state + 1 < MAX_RESPONSES)%Z /\
  state' = set_history
             (history state ++ [EvPublish (latest_response state + 1); EvNotify])
             (set_notify_ui_pipe (notify_ui_pipe state ++ [NUL])
                (set_latest_response (latest_response state + 1) state)).
Proof.
  intros Hl. unfold publish.
  rewrite size_t_wrap_small by (unfold MAX_RESPONSES, SIZE_T_MODULUS in *; lia).
  destruct (Z.eqb_spec (latest_response state + 1) MAX_RESPONSES); [done|].
  unfold notify_main. destruct ok; [|done].
  intros [= <-]. split; [done|]. split; [lia|].
  unfold set_history, record_event, set_notify_ui_pipe,
    set_latest_response. simpl. by rewrite <- (assoc_L (++)).
Qed.

Lemma publish_abort ok state :
  latest_response state = (MAX_RESPONSES - 1)%Z ->
  publish ok state = Abort AssertMaxResponses.
Proof. intros Hl. unfold publish. by rewrite Hl. Qed.

Lemma free_spec p state state' :
  free p state = Ok state' ->
  (forall a, p = Some a -> is_Some (heap state !! a)) /\
  state' = set_history (history state ++ [EvFree p])
             (set_heap (heap_without p (heap state)) state).
Proof.
  unfold free. destruct p as [a|].
  - destruct (heap state !! a) eqn:Ha; [|done]. intros [= <-].
    split; [intros ? [= <-]; by eexists|done].
  - intros [= <-]. split; [done|]. by destruct state.
Qed.

Lemma start_transfer_spec state w state' w' :
  start_transfer state w = Ok (state', w') ->
  exists ev rest,
    pipe state = ev :: rest /\
    (forall a, url ev = Some a -> is_Some (heap state !! a)) /\
    let h := {| CURLOPT_URL := url ev ≫= (heap state !!.);
                CURLOPT_WRITEDATA := Some (latest_response state) |} in
    w' = {| easy := h; prev_running_handles := prev_running_handles w |} /\
    state' = set_history
               (history state
                ++ [EvAddHandle (latest_response state); EvFree (url ev)])
               (set_heap (heap_without (url ev) (heap state))
                  (set_multi {| active := Some h |} (set_pipe rest state))).
Proof.
  unfold start_transfer. destruct (pipe state) as [|ev rest] eqn:Hp; [done|].
  destruct (free _ _) as [state2|] eqn:Hfree; [|done]. simpl.
  intros [= <- <-]. apply free_spec in Hfree as [Hlive ->].
  exists ev, rest. split; [done|]. split; [done|]. split; [done|].
  unfold set_history, set_heap, record_event. simpl.
  by rewrite <- (assoc_L (++)).
Qed.

(** A round of the worker's loop that goes on, taken apart. *)
Lemma network_thread_loop_spec io state w state' w' :
  network_thread_loop io state w = Ok (Continue (state', w')) ->
  done state = false /\ io_perform_ok io = true /\ io_poll_ok io = true /\
  exists s1 rh s2 w3,
    curl_multi_perform io state = Ok (s1, rh) /\
    (if (prev_running_handles w =? 1)%Z && (rh =? 0)%Z
     then publish (io_notify_ok io) s1 = Ok s2 else s2 = s1) /\
    (if (rh =? 0)%Z && io_pollin io
     then start_transfer s2 w = Ok (state', w3) else (state', w3) = (s2, w)) /\
    w' = {| easy := easy w3; prev_running_handles := rh |}.
Proof.
  unfold network_thread_loop. destruct (done state); [done|].
  destruct (curl_multi_perform io state) as [[s1 rh]|] eqn:Hperf; [|done]. simpl.
  destruct (io_perform_ok io); [|done]. simpl.
  intros Hrest. split; [done|]. split; [done|].
  destruct ((prev_running_handles w =? 1)%Z && (rh =? 0)%Z) eqn:Hedge.
  - destruct (publish (io_notify_ok io) s1) as [s2|] eqn:Hpub; [|done].
    simpl in Hrest.
    destruct (io_poll_ok io); [|done]. simpl in Hrest. split; [done|].
    exists s1, rh, s2.
    destruct ((rh =? 0)%Z && io_pollin io) eqn:Hstart.
    + destruct (start_transfer s2 w) as [[s3 w3]|] eqn:Hst; [|done].
      simpl in Hrest. injection Hrest as <- <-. exists w3.
      by rewrite ?Hedge, ?Hstart.
    + simpl in Hrest. injection Hrest as <- <-. exists w.
      by rewrite ?Hedge, ?Hstart.
  - simpl in Hrest.
    destruct (io_poll_ok io); [|done]. simpl in Hrest. split; [done|].
    exists s1, rh, s1.
    destruct ((rh =? 0)%Z && io_pollin io) eqn:Hstart.
    + destruct (start_transfer s1 w) as [[s3 w3]|] eqn:Hst; [|done].
      simpl in Hrest. injection Hrest as <- <-. exists w3.
      by rewrite ?Hedge, ?Hstart.
    + simpl in Hrest. injection Hrest as <- <-. exists w.
      by rewrite ?Hedge, ?Hstart.
Qed.

(** *** The invariant, phase by phase *)

Lemma not_sink_in_fmap (slot : Z) (calls : list sink_call) n d :
  EvSink n d ∈ ((fun c => EvSink slot (sc_data c)) <$> calls) ->
  n = slot /\ calls <> [].
Proof.
  intros (c & [= -> ->] & Hc)%list_elem_of_fmap. split; [done|].
  intros ->. by apply elem_of_nil in Hc.
Qed.

Lemma curl_multi_perform_inv io state s1 rh :
  state_inv state ->
  (forall h, active (multi state) = Some h ->
             CURLOPT_WRITEDATA h = Some (latest_response state)) ->
  curl_multi_perform io state = Ok (s1, rh) ->
  state_inv s1 /\
  latest_response s1 = latest_response state /\
  pipe s1 = pipe state /\ heap s1 = heap state /\
  notify_ui_pipe s1 = notify_ui_pipe state /\ scroll s1 = scroll state /\
  (forall k, k <> Z.to_nat (latest_response state) ->
             responses s1 !!! k = responses state !!! k) /\
  ((rh = 1%Z /\ active (multi s1) = active (multi state) /\
    is_Some (active (multi state))) \/
   (rh = 0%Z /\ active (multi s1) = None)).
Proof.
  intros (Hdone & Hl & Hlen & Hsink & Hnd & Hdom) Hactive Hperf.
  apply curl_multi_perform_spec in Hperf.
  2:{ intros h Hh. exists (latest_response state). split; [by apply Hactive|].
      rewrite Hlen. unfold MAX_RESPONSES in *. lia. }
  destruct Hperf as [(Hnone & -> & ->)|(h & slot & mem' & Hh & Hslot & Hrun & Hcases)].
  { split; [done|]. repeat (split; [done|]). right. done. }
  rewrite (Hactive h Hh) in Hslot. injection Hslot as <-.
  set (L := latest_response state) in *.
  assert (Z.to_nat L < length (responses state))%nat as Hrange
    by (rewrite Hlen; unfold MAX_RESPONSES in *; lia).
  apply sink_calls_response in Hrun.
  assert (state_inv
            (set_history
               (history state ++ ((fun c => EvSink L (sc_data c)) <$> io_sink io))
               (set_responses (<[Z.to_nat L := mem']> (responses state)) state)))
    as Hinv.
  { split; [done|]. split; [done|]. simpl. rewrite length_insert.
    split; [done|]. split; [|done].
    intros k Hk. destruct (decide (k = Z.to_nat L)) as [->|Hne].
    - rewrite list_lookup_total_insert_eq by done. rewrite Hrun, (Hsink _ Hk).
      rewrite Z2Nat.id by lia. split.
      + intros [Hno ->] d. rewrite fmap_nil, app_nil_r. apply Hno.
      + intros Hno. split.
        * intros d Hd. apply (Hno d). apply elem_of_app. by left.
        * destruct (io_sink io) as [|c calls]; [done|]. exfalso.
          apply (Hno (sc_data c)). apply elem_of_app. right. simpl. left.
    - rewrite list_lookup_total_insert_ne by done. rewrite (Hsink _ Hk).
      split.
      + intros Hno d [Hd|Hd]%elem_of_app; [by apply (Hno d)|].
        apply not_sink_in_fmap in Hd as [Hd _]. lia.
      + intros Hno d Hd. apply (Hno d). apply elem_of_app. by left. }
  assert (forall k, k <> Z.to_nat L ->
            <[Z.to_nat L := mem']> (responses state) !!! k
            = responses state !!! k) as Hother
    by (intros k Hk; by rewrite list_lookup_total_insert_ne).
  simpl in Hcases. destruct Hcases as [(Hfin & -> & ->)|(Hfin & -> & ->)].
  - split; [done|]. repeat (split; [done|]). left. rewrite Hh. split; [done|].
    split; [done|]. by eexists.
  - split; [done|]. repeat (split; [done|]). by right.
Qed.

Lemma publish_inv ok s1 s2 :
  state_inv s1 -> publish ok s1 = Ok s2 ->
  state_inv s2 /\
  latest_response s2 = (latest_response s1 + 1)%Z /\
  multi s2 = multi s1 /\ pipe s2 = pipe s1 /\ heap s2 = heap s1 /\
  responses s2 = responses s1 /\
  history s2 = history s1 ++ [EvPublish (latest_response s1 + 1); EvNotify].
Proof.
  intros (Hdone & Hl & Hlen & Hsink & Hnd & Hdom) Hpub.
  apply publish_spec in Hpub as (_ & Hlt & ->); [|done]. simpl.
  split; [|done]. split; [done|]. simpl. split; [lia|]. split; [done|].
  split; [|done]. intros k Hk. rewrite (Hsink _ Hk). split.
  - intros Hno d [Hd|Hd]%elem_of_app; [by apply (Hno d)|].
    not_in_list Hd.
  - intros Hno d Hd. apply (Hno d). apply elem_of_app. by left.
Qed.

Lemma queued_urls_cons ev rest state :
  pipe state = ev :: rest ->
  queued_urls state = from_option (fun a => [a]) [] (url ev) ++ omap url rest.
Proof. unfold queued_urls. intros ->. simpl. by destruct (url ev). Qed.

Lemma start_transfer_inv s2 w s3 w3 :
  state_inv s2 -> start_transfer s2 w = Ok (s3, w3) ->
  state_inv s3 /\
  latest_response s3 = latest_response s2 /\
  responses s3 = responses s2 /\
  notify_ui_pipe s3 = notify_ui_pipe s2 /\
  active (multi s3) = Some (easy w3) /\
  CURLOPT_WRITEDATA (easy w3) = Some (latest_response s2) /\
  prev_running_handles w3 = prev_running_handles w /\
  exists ev, history s3 = history s2
                          ++ [EvAddHandle (latest_response s2); EvFree (url ev)].
Proof.
  intros (Hdone & Hl & Hlen & Hsink & Hnd & Hdom) Hst.
  apply start_transfer_spec in Hst as (ev & rest & Hp & Hlive & -> & ->).
  simpl. split; [|repeat (split; [done|]); by exists ev].
  split; [done|]. split; [done|]. split; [done|]. simpl.
  rewrite (queued_urls_cons _ _ _ Hp) in Hnd, Hdom. unfold queued_urls. simpl.
  split; [|split].
  - intros k Hk. rewrite (Hsink _ Hk). split.
    + intros Hno d [Hd|Hd]%elem_of_app; [by apply (Hno d)|].
      not_in_list Hd.
    + intros Hno d Hd. apply (Hno d). apply elem_of_app. by left.
  - destruct (url ev); simpl in *; [by apply NoDup_cons in Hnd as [_ ?]|done].
  - destruct (url ev) as [a|]; simpl in *; [|done].
    apply NoDup_cons in Hnd as [Hnotin _].
    rewrite dom_delete_L, Hdom.
    apply set_eq. intros x.
    rewrite elem_of_difference, elem_of_union, elem_of_singleton,
      elem_of_list_to_set.
    split; [by intros [[?|?] ?]|].
    intros Hx. split; [by right|]. by intros ->.
Qed.

Lemma curl_multi_perform_history io state s1 rh :
  state_inv state ->
  (forall h, active (multi state) = Some h ->
             CURLOPT_WRITEDATA h = Some (latest_response state)) ->
  curl_multi_perform io state = Ok (s1, rh) ->
  (active (multi state) = None /\ s1 = state) \/
  (is_Some (active (multi state)) /\
   exists mem',
     sink_calls (io_sink io)
       (responses state !!! Z.to_nat (latest_response state)) = Ok mem' /\
     responses s1 !!! Z.to_nat (latest_response state) = mem' /\
     history s1
     = history state
       ++ ((fun c => EvSink (latest_response state) (sc_data c)) <$> io_sink io)).
Proof.
  intros (Hdone & Hl & Hlen & Hsink & Hnd & Hdom) Hactive Hperf.
  assert (Z.to_nat (latest_response state) < length (responses state))%nat
    as Hrange by (rewrite Hlen; unfold MAX_RESPONSES in *; lia).
  apply curl_multi_perform_spec in Hperf.
  2:{ intros h Hh. exists (latest_response state). split; [by apply Hactive|done]. }
  destruct Hperf as [(Hnone & -> & ->)|(h & slot & mem' & Hh & Hslot & Hrun & Hcases)].
  { by left. }
  rewrite (Hactive h Hh) in Hslot. injection Hslot as <-.
  right. split; [by eexists|]. exists mem'. split; [done|].
  simpl in Hcases. destruct Hcases as [(_ & -> & _)|(_ & -> & _)]; simpl;
    by rewrite list_lookup_total_insert_eq.
Qed.

(** A round of the worker's loop that goes on: the invariant is kept, and
    the effects come in the order callback, publication, start. *)
Lemma worker_round s io state' w' :
  sys_inv s ->
  network_thread_loop io (sys_state s) (sys_worker s)
    = Ok (Continue (state', w')) ->
  let state := sys_state s in
  let L := latest_response state in
  sys_inv {| sys_state := state'; sys_worker := w'; sys_buf := sys_buf s |} /\
  (forall k, k <> Z.to_nat L -> responses state' !!! k = responses state !!! k) /\
  exists sinks pub start,
    history state' = history state ++ sinks ++ pub ++ start /\
    ((active (multi state) = None /\ sinks = [] /\
      responses state' = responses state) \/
     (is_Some (active (multi state)) /\
      sinks = ((fun c => EvSink L (sc_data c)) <$> io_sink io) /\
      exists mem', sink_calls (io_sink io) (responses state !!! Z.to_nat L)
                   = Ok mem' /\
                   responses state' !!! Z.to_nat L = mem')) /\
    ((completion_detected io state (sys_worker s) /\
      pub = [EvPublish (L + 1); EvNotify] /\
      latest_response state' = (L + 1)%Z) \/
     (~ completion_detected io state (sys_worker s) /\
      pub = [] /\ latest_response state' = L)) /\
    (start = [] \/
     exists p h, start = [EvAddHandle (latest_response state'); EvFree p] /\
                 active (multi state') = Some h /\
                 CURLOPT_WRITEDATA h = Some (latest_response state')).
Proof.
  intros (Hinv & Hwd & Hprev & Hbuf) Hloop. simpl.
  apply network_thread_loop_spec in Hloop
    as (Hdone & Hpok & Hpoll & s1 & rh & s2 & w3 & Hperf & Hpub & Hstart & ->).
  destruct (curl_multi_perform_inv _ _ _ _ Hinv Hwd Hperf)
    as (Hinv1 & Hl1 & Hp1 & Hh1 & Hn1 & Hs1 & Hother1 & Hrh).
  pose proof (curl_multi_perform_history _ _ _ _ Hinv Hwd Hperf) as Hhist1.
  (* the test for a completed transfer *)
  assert (completion_detected io (sys_state s) (sys_worker s)
          <-> (prev_running_handles (sys_worker s) =? 1)%Z && (rh =? 0)%Z = true)
    as Hedge.
  { unfold completion_detected. rewrite Hperf, andb_true_iff, !Z.eqb_eq. split.
    - intros (_ & _ & ? & (? & [= _ <-])). done.
    - intros [? ->]. repeat (split; [done|]). by eexists. }
  assert (exists pub,
            state_inv s2 /\ history s2 = history s1 ++ pub /\
            responses s2 = responses s1 /\ multi s2 = multi s1 /\
            ((completion_detected io (sys_state s) (sys_worker s) /\
              pub = [EvPublish (latest_response (sys_state s) + 1); EvNotify] /\
              latest_response s2 = (latest_response (sys_state s) + 1)%Z /\
              active (multi s1) = None) \/
             (~ completion_detected io (sys_state s) (sys_worker s) /\
              pub = [] /\ latest_response s2 = latest_response (sys_state s))))
    as (pub & Hinv2 & Hhist2 & Hresp2 & Hmulti2 & Hpubcase).
  { destruct ((prev_running_handles (sys_worker s) =? 1)%Z && (rh =? 0)%Z)
      eqn:Htest.
    - destruct (publish_inv _ _ _ Hinv1 Hpub)
        as (? & Hl2 & ? & ? & ? & ? & Hh2).
      eexists. split; [done|]. split; [exact Hh2|]. split; [done|].
      split; [done|]. left. rewrite Hl1 in *. split; [by apply Hedge|].
      split; [done|]. split; [done|].
      apply andb_true_iff in Htest as [_ ?%Z.eqb_eq].
      destruct Hrh as [[? _]|[_ ?]]; [lia|done].
    - subst s2. exists []. rewrite app_nil_r. repeat (split; [done|]). right.
      split; [|done]. intros Hc. apply Hedge in Hc. done. }
  assert (exists start,
            state_inv state' /\ history state' = history s2 ++ start /\
            responses state' = responses s2 /\
            latest_response state' = latest_response s2 /\
            ((start = [] /\ state' = s2 /\ w3 = sys_worker s) \/
             ((rh =? 0)%Z = true /\
              exists p, start = [EvAddHandle (latest_response s2); EvFree p] /\
                        active (multi state') = Some (easy w3) /\
                        CURLOPT_WRITEDATA (easy w3)
                        = Some (latest_response s2))))
    as (start & Hinv3 & Hhist3 & Hresp3 & Hl3 & Hstartcase).
  { destruct ((rh =? 0)%Z && io_pollin io) eqn:Htest.
    - destruct (start_transfer_inv _ _ _ _ Hinv2 Hstart)
        as (? & ? & ? & ? & ? & ? & ? & ev & ?).
      eexists. split; [done|]. split; [done|]. split; [done|]. split; [done|].
      right. apply andb_true_iff in Htest as [? _]. split; [done|].
      by exists (url ev).
    - injection Hstart as -> ->. exists []. rewrite app_nil_r.
      repeat (split; [done|]). by left. }
  split; [|split].
  - (* the invariant *)
    split; [done|]. simpl. split; [|split; [|done]].
    + intros h Hh. rewrite Hl3.
      destruct Hstartcase as [(_ & -> & _)|(_ & p & _ & Hact & Hw)];
        [|congruence].
      rewrite Hmulti2 in Hh.
      destruct Hrh as [(-> & Hsame & _)|[_ Hnone]]; [|congruence].
      rewrite Hsame in Hh.
      destruct Hpubcase as [(Hc & _)|(_ & _ & ->)]; [|by apply Hwd].
      apply Hedge, andb_true_iff in Hc as [_ ?]. done.
    + intros ->.
      destruct Hrh as [(_ & Hsame & Hsome)|[? _]]; [|done].
      destruct Hstartcase as [(_ & -> & _)|[? _]]; [|done].
      by rewrite Hmulti2, Hsame.
  - intros k Hk. rewrite Hresp3, Hresp2. by apply Hother1.
  - destruct Hhist1 as [(Hnone & ->)|(Hsome & mem' & Hrun & Hslot & Hhist1)].
    + exists [], pub, start. split; [by rewrite Hhist3, Hhist2, <- (assoc_L (++))|].
      split; [left; by rewrite Hresp3, Hresp2|].
      split.
      { destruct Hpubcase as [(? & ? & ? & _)|?]; [left|right]; by rewrite Hl3. }
      destruct Hstartcase as [(? & _)|(_ & p & ? & ? & ?)]; [by left|right].
      exists p, (easy w3). by rewrite Hl3.
    + exists ((fun c => EvSink (latest_response (sys_state s)) (sc_data c))
               <$> io_sink io), pub, start.
      split; [by rewrite Hhist3, Hhist2, Hhist1, <- !(assoc_L (++))|].
      split; [right; split; [done|]; split; [done|]; exists mem';
              by rewrite Hresp3, Hresp2|].
      split.
      { destruct Hpubcase as [(? & ? & ? & _)|?]; [left|right]; by rewrite Hl3. }
      destruct Hstartcase as [(? & _)|(_ & p & ? & ? & ?)]; [by left|right].
      exists p, (easy w3). by rewrite Hl3.
Qed.

(** *** The invariant along the steps of the program *)

(** A step that leaves the slots, the count and [done] alone and adds no
    callback event keeps the invariant, given the part about the URLs. *)
Lemma state_inv_frame state state' evs :
  state_inv state ->
  done state' = done state ->
  latest_response state' = latest_response state ->
  responses state' = responses state ->
  history state' = history state ++ evs ->
  (forall n d, EvSink n d ∉ evs) ->
  NoDup (queued_urls state') ->
  dom (heap state') = list_to_set (queued_urls state') ->
  state_inv state'.
Proof.
  intros (Hdone & Hl & Hlen & Hsink & _ & _) Hd' Hl' Hr' Hh' Hevs Hnd' Hdom'.
  split; [congruence|]. split; [by rewrite Hl'|]. rewrite Hr', Hh'.
  split; [done|]. split; [|done].
  intros k Hk. rewrite (Hsink _ Hk). split.
  - intros Hno d [Hd|Hd]%elem_of_app; [by apply (Hno d)|by apply Hevs in Hd].
  - intros Hno d Hd. apply (Hno d). apply elem_of_app. by left.
Qed.

Lemma send_request_inv ok state buf :
  state_inv state ->
  state_inv (send_request ok state buf) /\
  latest_response (send_request ok state buf) = latest_response state /\
  responses (send_request ok state buf) = responses state /\
  multi (send_request ok state buf) = multi state.
Proof.
  intros Hinv. pose proof Hinv as (_ & _ & _ & _ & Hnd & Hdom).
  unfold send_request, strdup. destruct ok; simpl.
  - split; [|done].
    set (p := fresh (dom (heap state))).
    assert (p ∉ queued_urls state) as Hfresh.
    { rewrite <- (elem_of_list_to_set (C := gset nat)), <- Hdom. apply is_fresh. }
    apply (state_inv_frame state _ [EvWriteEvent (Some p); EvWakeup]);
      try done; simpl.
    + by rewrite <- (assoc_L (++)).
    + intros n d Hd. not_in_list Hd.
    + unfold queued_urls. simpl. rewrite omap_app. simpl.
      apply NoDup_app. split; [done|]. split; [|apply NoDup_singleton].
      intros x Hx ->%list_elem_of_singleton. done.
    + unfold queued_urls. simpl. rewrite omap_app. simpl.
      rewrite dom_insert_L, Hdom, list_to_set_app_L. simpl.
      apply set_eq. intros x.
      rewrite !elem_of_union, elem_of_singleton, elem_of_empty. tauto.
  - split; [|done].
    apply (state_inv_frame state _ [EvWriteEvent None; EvWakeup]);
      try done; simpl.
    + by rewrite <- (assoc_L (++)).
    + intros n d Hd. not_in_list Hd.
    + unfold queued_urls. simpl. rewrite omap_app. simpl. by rewrite app_nil_r.
    + unfold queued_urls. simpl. rewrite omap_app. simpl. by rewrite app_nil_r.
Qed.

Lemma read_char_inv ok state buf c :
  state_inv state ->
  state_inv (read_char ok state buf c).1 /\
  latest_response (read_char ok state buf c).1 = latest_response state /\
  responses (read_char ok state buf c).1 = responses state /\
  multi (read_char ok state buf c).1 = multi state.
Proof.
  intros Hinv. unfold read_char.
  destruct (c =? CARRIAGE)%Z; [by apply send_request_inv|].
  destruct ((c =? DEL)%Z || (c =? BACKSPACE)%Z); [done|].
  assert (forall v, state_inv (set_scroll v state)) as Hscroll.
  { intros v. apply (state_inv_frame state _ []); try done.
    - simpl. by rewrite app_nil_r.
    - intros n d Hd. not_in_list Hd.
    - by destruct Hinv as (_ & _ & _ & _ & ? & _).
    - by destruct Hinv as (_ & _ & _ & _ & _ & ?). }
  destruct (c =? DQUOTE)%Z; [done|]. destruct (c =? SQUOTE)%Z; [done|].
  by destruct (_ && _).
Qed.

Lemma set_notify_ui_pipe_inv v state :
  state_inv state -> state_inv (set_notify_ui_pipe v state).
Proof.
  intros Hinv. apply (state_inv_frame state _ []); try done.
  - simpl. by rewrite app_nil_r.
  - intros n d Hd. not_in_list Hd.
  - by destruct Hinv as (_ & _ & _ & _ & ? & _).
  - by destruct Hinv as (_ & _ & _ & _ & _ & ?).
Qed.

Lemma notify_main_inv ok state state' :
  state_inv state -> notify_main ok state = Ok state' ->
  state_inv state' /\
  latest_response state' = latest_response state /\
  responses state' = responses state /\ multi state' = multi state.
Proof.
  intros Hinv. unfold notify_main. destruct ok; [|done]. intros [= <-].
  split; [|done].
  apply (state_inv_frame state _ [EvNotify]); try done.
  - intros n d Hd. not_in_list Hd.
  - by destruct Hinv as (_ & _ & _ & _ & ? & _).
  - by destruct Hinv as (_ & _ & _ & _ & _ & ?).
Qed.

Lemma main_poll_inv io state buf stdin m' :
  state_inv state -> buf_wf buf ->
  main_poll io {| mt_state := state; mt_buf := buf; mt_stdin := stdin |}
    = MainNext m' ->
  state_inv (mt_state m') /\ buf_wf (mt_buf m') /\
  latest_response (mt_state m') = latest_response state /\
  responses (mt_state m') = responses state /\
  multi (mt_state m') = multi state.
Proof.
  intros Hinv Hbuf. unfold main_poll. simpl.
  destruct (negb (mi_intr io) && negb _ && negb _); [done|].
  assert (forall state1 buf1 stdin1,
    state_inv state1 -> buf_wf buf1 ->
    latest_response state1 = latest_response state ->
    responses state1 = responses state -> multi state1 = multi state ->
    (if negb (mi_intr io) && bool_decide (notify_ui_pipe state ≠ [])
     then MainNext
            {| mt_state := set_notify_ui_pipe (tail (notify_ui_pipe state1)) state1;
               mt_buf := buf1; mt_stdin := stdin1 |}
     else MainNext {| mt_state := state1; mt_buf := buf1; mt_stdin := stdin1 |})
    = MainNext m' ->
    state_inv (mt_state m') /\ buf_wf (mt_buf m') /\
    latest_response (mt_state m') = latest_response state /\
    responses (mt_state m') = responses state /\
    multi (mt_state m') = multi state) as Hwake.
  { intros state1 buf1 stdin1 Hinv1 Hbuf1 Hl1 Hr1 Hm1.
    destruct (negb (mi_intr io) && bool_decide _); intros [= <-]; simpl;
      [|done].
    split; [by apply set_notify_ui_pipe_inv|done]. }
  destruct stdin as [|c rest]; [by apply Hwake|].
  destruct (negb (mi_intr io) && bool_decide (c :: rest ≠ []));
    [|by apply Hwake].
  destruct (c =? CTRL_C)%Z; [done|].
  pose proof (read_char_inv (mi_strdup_ok io) state buf c Hinv)
    as (Hinv1 & Hl1 & Hr1 & Hm1).
  pose proof (read_char_buf_wf (mi_strdup_ok io) state buf c Hbuf) as Hbuf1.
  destruct (read_char _ _ _ c) as [state1 buf1]. simpl in *.
  by apply Hwake.
Qed.

(** When the worker detects a completed transfer, a transfer was in
    progress and ended in this call of [curl_multi_perform]. *)
Lemma completion_detected_finished io state w :
  is_Some (active (multi state)) ->
  completion_detected io state w -> is_Some (io_finished io).
Proof.
  intros [h Hh] (_ & _ & Hprev & s1 & Hperf).
  unfold curl_multi_perform in Hperf. rewrite Hh in Hperf.
  destruct (match CURLOPT_WRITEDATA h with Some _ => _ | None => _ end);
    [|done].
  simpl in Hperf. destruct (io_finished io); [by eexists|done].
Qed.

Lemma state_inv_init : state_inv init_state.
Proof.
  split; [done|]. split; [unfold MAX_RESPONSES; simpl; lia|].
  unfold init_state. cbn [responses history pipe heap].
  split; [by rewrite length_replicate|]. split; [|split].
  - intros k Hk. rewrite length_replicate in Hk.
    rewrite list_lookup_total_alt, lookup_replicate_2 by done.
    split; [|done]. intros _ d Hd. by apply elem_of_nil in Hd.
  - apply NoDup_nil_2.
  - unfold queued_urls. simpl. by rewrite dom_empty_L.
Qed.

Lemma sys_inv_init : sys_inv init_system.
Proof.
  split; [apply state_inv_init|]. split; [done|]. split; [done|].
  apply buf_wf_init.
Qed.

(** A step keeps the invariant, never lowers the count, and leaves every
    slot below the count as it is. *)
Lemma sys_step_inv s s' :
  sys_inv s -> sys_step s s' ->
  sys_inv s' /\
  (latest_response (sys_state s) <= latest_response (sys_state s'))%Z /\
  (forall k, (Z.of_nat k < latest_response (sys_state s))%Z ->
     responses (sys_state s') !!! k = responses (sys_state s) !!! k).
Proof.
  intros Hinv Hstep.
  destruct Hstep as [io stdin s m' Hpoll|ok s state' Hsig|io s state' w' Hloop].
  - destruct Hinv as (Hst & Hwd & Hprev & Hbuf).
    destruct (main_poll_inv _ _ _ _ _ Hst Hbuf Hpoll)
      as (Hst' & Hbuf' & Hl & Hr & Hm).
    simpl. rewrite Hl, Hr. split; [|split; [lia|done]].
    split; [done|]. simpl. rewrite Hm, Hl. done.
  - destruct Hinv as (Hst & Hwd & Hprev & Hbuf).
    destruct (notify_main_inv _ _ _ Hst Hsig) as (Hst' & Hl & Hr & Hm).
    simpl. rewrite Hl, Hr. split; [|split; [lia|done]].
    split; [done|]. simpl. rewrite Hm, Hl. done.
  - destruct (worker_round _ _ _ _ Hinv Hloop)
      as (Hinv' & Hother & sinks & pub & start & _ & _ & Hpub & _).
    simpl. split; [done|]. split.
    + destruct Hpub as [(_ & _ & ->)|(_ & _ & ->)]; lia.
    + intros k Hk. apply Hother.
      destruct Hinv as ((_ & ? & _) & _). lia.
Qed.

Lemma rtc_sys_step_inv s s' :
  sys_inv s -> rtc sys_step s s' ->
  sys_inv s' /\
  (latest_response (sys_state s) <= latest_response (sys_state s'))%Z /\
  (forall k, (Z.of_nat k < latest_response (sys_state s))%Z ->
     responses (sys_state s') !!! k = responses (sys_state s) !!! k).
Proof.
  intros Hinv Hrtc. induction Hrtc as [s|s s1 s' Hstep _ IH].
  - split; [done|]. split; [lia|done].
  - destruct (sys_step_inv _ _ Hinv Hstep) as (Hinv1 & Hle1 & Hsame1).
    destruct (IH Hinv1) as (Hinv' & Hle' & Hsame').
    split; [done|]. split; [lia|].
    intros k Hk. rewrite Hsame' by lia. by apply Hsame1.
Qed.

Lemma reachable_inv s : reachable s -> sys_inv s.
Proof. intros Hs. by apply (rtc_sys_step_inv init_system s sys_inv_init). Qed.

(** X19: the count starts at 0; in every state the program reaches it lies
    below the capacity 1024; no step lowers it; a round of the worker's
    loop raises it by exactly 1 when it detects a completed transfer
    (one running handle in the round before, none now), which is then a
    transfer that was in progress and ended in this round, and leaves it
    alone otherwise; and the detection that would bring it to 1024 ends
    the process with the failed assertion. *)
Theorem latest_response_bounded s :
  reachable s ->
  latest_response (sys_state init_system) = 0%Z /\
  (0 <= latest_response (sys_state s) < MAX_RESPONSES)%Z /\
  (forall s', sys_step s s' ->
     (latest_response (sys_state s) <= latest_response (sys_state s'))%Z) /\
  (forall io state' w',
     network_thread_loop io (sys_state s) (sys_worker s)
       = Ok (Continue (state', w')) ->
     (completion_detected io (sys_state s) (sys_worker s) /\
      is_Some (active (multi (sys_state s))) /\ is_Some (io_finished io) /\
      latest_response state' = (latest_response (sys_state s) + 1)%Z) \/
     (~ completion_detected io (sys_state s) (sys_worker s) /\
      latest_response state' = latest_response (sys_state s))) /\
  (forall io,
     completion_detected io (sys_state s) (sys_worker s) ->
     latest_response (sys_state s) = (MAX_RESPONSES - 1)%Z ->
     network_thread_loop io (sys_state s) (sys_worker s)
       = Abort AssertMaxResponses).
Proof.
  intros Hreach. pose proof (reachable_inv s Hreach) as Hinv.
  split; [done|]. split; [by destruct Hinv as ((_ & ? & _) & _)|].
  split; [|split].
  - intros s' Hstep. by destruct (sys_step_inv _ _ Hinv Hstep) as (_ & ? & _).
  - intros io state' w' Hloop.
    destruct (worker_round _ _ _ _ Hinv Hloop)
      as (_ & _ & sinks & pub & start & _ & _ & Hpub & _).
    destruct Hpub as [(Hc & _ & ?)|(? & _ & ?)]; [left|by right].
    assert (is_Some (active (multi (sys_state s)))) as Hsome.
    { destruct Hc as (_ & _ & Hprev & _).
      destruct Hinv as (_ & _ & Hp & _). by apply Hp. }
    split; [done|]. split; [done|]. split; [|done].
    by apply (completion_detected_finished io (sys_state s) (sys_worker s)).
  - intros io (Hdone & Hpok & Hprev & s1 & Hperf) Hlast.
    destruct Hinv as (Hst & Hwd & _).
    destruct (curl_multi_perform_inv _ _ _ _ Hst Hwd Hperf) as (_ & Hl1 & _).
    unfold network_thread_loop. rewrite Hdone, Hperf. simpl.
    rewrite Hpok, Hprev. simpl.
    rewrite publish_abort by congruence. done.
Qed.

Lemma reachable_run_main io stdin s : reachable s -> reachable (run_main io stdin s).
Proof.
  intros Hs. unfold run_main.
  destruct (main_poll _ _) as [m'| |] eqn:Hpoll; [|done|done].
  eapply rtc_r; [exact Hs|]. by eapply step_main.
Qed.

Lemma reachable_run_worker io s : reachable s -> reachable (run_worker io s).
Proof.
  intros Hs. unfold run_worker.
  destruct (network_thread_loop _ _ _) as [[[state' w']|]|] eqn:Hloop;
    [|done|done].
  eapply rtc_r; [exact Hs|]. by eapply step_worker.
Qed.

Lemma reachable_sys_submitted : reachable sys_submitted.
Proof. do 2 apply reachable_run_main. apply rtc_refl. Qed.

Lemma reachable_sys_receiving : reachable sys_receiving.
Proof. do 2 apply reachable_run_worker. apply reachable_sys_submitted. Qed.

Lemma latest_response_bounded_witness :
  latest_response (sys_state init_system) = 0%Z /\
  (0 <= latest_response (sys_state sys_receiving) < MAX_RESPONSES)%Z /\
  (forall s', sys_step sys_receiving s' ->
     (latest_response (sys_state sys_receiving)
      <= latest_response (sys_state s'))%Z) /\
  (forall io state' w',
     network_thread_loop io (sys_state sys_receiving) (sys_worker sys_receiving)
       = Ok (Continue (state', w')) ->
     (completion_detected io (sys_state sys_receiving) (sys_worker sys_receiving) /\
      is_Some (active (multi (sys_state sys_receiving))) /\
      is_Some (io_finished io) /\
      latest_response state'
      = (latest_response (sys_state sys_receiving) + 1)%Z) \/
     (~ completion_detected io (sys_state sys_receiving)
          (sys_worker sys_receiving) /\
      latest_response state' = latest_response (sys_state sys_receiving))) /\
  (forall io,
     completion_detected io (sys_state sys_receiving) (sys_worker sys_receiving) ->
     latest_response (sys_state sys_receiving) = (MAX_RESPONSES - 1)%Z ->
     network_thread_loop io (sys_state sys_receiving) (sys_worker sys_receiving)
       = Abort AssertMaxResponses).
Proof.
  apply (latest_response_bounded sys_receiving).
  apply reachable_run_worker, reachable_run_worker, reachable_run_main,
    reachable_run_main, rtc_refl.
Defined.

(** C3 fails on the code: a transfer that ends in the first round after the
    one that added its handle is never counted.  After the user typed a and
    Enter and the worker took the request, libcurl delivers the byte A and
    reports the end of the transfer in the next call of
    [curl_multi_perform].  The round runs to its end: the transfer has
    completed, no handle is left running, the byte is in slot 0; but the
    worker saw no running handle in the round before, so the count is
    still 0, no wake byte has been written, and no later round detects
    this completion either. *)
Theorem completed_transfer_not_counted :
  reachable sys_started /\
  is_Some (active (multi (sys_state sys_started))) /\
  prev_running_handles (sys_worker sys_started) = 0%Z /\
  io_finished io_at_once = Some true /\
  network_thread_loop io_at_once (sys_state sys_started) (sys_worker sys_started)
  = Ok (Continue (sys_state sys_at_once, sys_worker sys_at_once)) /\
  active (multi (sys_state sys_at_once)) = None /\
  payload (responses (sys_state sys_at_once) !!! 0%nat) = [65%Z] /\
  latest_response (sys_state sys_started) = 0%Z /\
  latest_response (sys_state sys_at_once) = 0%Z /\
  notify_ui_pipe (sys_state sys_at_once) = [] /\
  (forall io, ~ completion_detected io (sys_state sys_at_once)
                  (sys_worker sys_at_once)).
Proof.
  split; [apply reachable_run_worker, reachable_sys_submitted|].
  split; [vm_compute; by eexists|].
  do 8 (split; [vm_compute; reflexivity|]).
  intros io (_ & _ & Hprev & _). vm_compute in Hprev. discriminate.
Qed.

Lemma new_events_app before after evs :
  history after = history before ++ evs -> new_events before after = evs.
Proof. intros H. unfold new_events. by rewrite H, drop_app_length. Qed.

(** C2, as the code has it.  In every round of the worker's loop:
    - a transfer started in the round writes to the slot whose index is the
      count at that moment, which starting does not change;
    - when the round detects a completed transfer, the callback has put
      what arrived into the slot at the count, then the count goes up by
      exactly 1, then the wake byte is written, in that order, with no
      callback event after them; the slot then holds what the callback made
      of it and keeps it in all later states; it is null exactly when the
      callback never ran on it, whether the transfer succeeded or failed. *)
Theorem transfer_published_in_order s io state' w' :
  reachable s ->
  network_thread_loop io (sys_state s) (sys_worker s)
    = Ok (Continue (state', w')) ->
  let state := sys_state s in
  let L := latest_response state in
  (forall n, EvAddHandle n ∈ new_events state state' ->
     n = latest_response state' /\
     exists h, active (multi state') = Some h /\
               CURLOPT_WRITEDATA h = Some n) /\
  (completion_detected io state (sys_worker s) ->
   exists mem' rest,
     sink_calls (io_sink io) (responses state !!! Z.to_nat L) = Ok mem' /\
     new_events state state'
     = ((fun c => EvSink L (sc_data c)) <$> io_sink io)
       ++ [EvPublish (L + 1); EvNotify] ++ rest /\
     (forall n d, EvSink n d ∉ rest) /\
     latest_response state' = (L + 1)%Z /\
     responses state' !!! Z.to_nat L = mem' /\
     (response mem' = None <-> forall d, EvSink L d ∉ history state') /\
     (forall s2,
        rtc sys_step {| sys_state := state'; sys_worker := w';
                        sys_buf := sys_buf s |} s2 ->
        responses (sys_state s2) !!! Z.to_nat L = mem')).
Proof.
  intros Hreach Hloop. simpl. pose proof (reachable_inv s Hreach) as Hinv.
  destruct (worker_round _ _ _ _ Hinv Hloop)
    as (Hinv' & Hother & sinks & pub & start & Hhist & Hsinks & Hpub & Hstart).
  pose proof (new_events_app _ _ _ Hhist) as Hnew. rewrite Hnew.
  assert (forall n d, EvSink n d ∉ start) as Hstart_nosink.
  { intros n d Hd. destruct Hstart as [->|(p & h & -> & _)].
    - by apply elem_of_nil in Hd.
    - not_in_list Hd. }
  split.
  - intros n Hn. apply elem_of_app in Hn as [Hn|Hn].
    { destruct Hsinks as [(_ & -> & _)|(_ & -> & _)].
      - by apply elem_of_nil in Hn.
      - by apply list_elem_of_fmap in Hn as (c & ? & _). }
    apply elem_of_app in Hn as [Hn|Hn].
    { destruct Hpub as [(_ & -> & _)|(_ & -> & _)].
      - not_in_list Hn.
      - by apply elem_of_nil in Hn. }
    destruct Hstart as [->|(p & h & -> & Hact & Hwd)].
    { by apply elem_of_nil in Hn. }
    apply elem_of_cons in Hn as [[= ->]|Hn].
    + split; [done|]. by exists h.
    + not_in_list Hn.
  - intros Hc. pose proof Hc as (_ & _ & Hprev & _).
    destruct Hinv as (Hst & Hwd & Hp & _). specialize (Hp Hprev).
    destruct Hsinks as [(Hnone & _)|(_ & -> & mem' & Hrun & Hslot)].
    { rewrite Hnone in Hp. by destruct Hp. }
    destruct Hpub as [(_ & -> & Hl')|(Hnc & _)]; [|done].
    exists mem', start. split; [done|]. split; [done|]. split; [done|].
    split; [done|]. split; [done|].
    destruct Hst as (_ & Hl & Hlen & _).
    assert (Z.to_nat (latest_response (sys_state s))
            < length (responses (sys_state s)))%nat as Hrange
      by (rewrite Hlen; unfold MAX_RESPONSES in *; lia).
    split.
    + destruct Hinv' as ((_ & _ & Hlen' & Hsink' & _) & _). simpl in *.
      rewrite <- Hslot, (Hsink' (Z.to_nat (latest_response (sys_state s))))
        by (rewrite Hlen', <- Hlen; done).
      by rewrite Z2Nat.id by lia.
    + intros s2 Hrtc.
      destruct (rtc_sys_step_inv _ _ Hinv' Hrtc) as (_ & _ & Hsame).
      simpl in Hsame. rewrite Hsame by lia. done.
Qed.

Lemma transfer_published_in_order_witness :
  (forall n,
     EvAddHandle n ∈ new_events (sys_state sys_receiving) (sys_state sys_failed) ->
     n = latest_response (sys_state sys_failed) /\
     exists h, active (multi (sys_state sys_failed)) = Some h /\
               CURLOPT_WRITEDATA h = Some n) /\
  (completion_detected io_fail (sys_state sys_receiving)
     (sys_worker sys_receiving) ->
   exists mem' rest,
     sink_calls (io_sink io_fail)
       (responses (sys_state sys_receiving)
          !!! Z.to_nat (latest_response (sys_state sys_receiving))) = Ok mem' /\
     new_events (sys_state sys_receiving) (sys_state sys_failed)
     = ((fun c => EvSink (latest_response (sys_state sys_receiving)) (sc_data c))
        <$> io_sink io_fail)
       ++ [EvPublish (latest_response (sys_state sys_receiving) + 1); EvNotify]
       ++ rest /\
     (forall n d, EvSink n d ∉ rest) /\
     latest_response (sys_state sys_failed)
     = (latest_response (sys_state sys_receiving) + 1)%Z /\
     responses (sys_state sys_failed)
       !!! Z.to_nat (latest_response (sys_state sys_receiving)) = mem' /\
     (response mem' = None <->
      forall d, EvSink (latest_response (sys_state sys_receiving)) d
                ∉ history (sys_state sys_failed)) /\
     (forall s2,
        rtc sys_step {| sys_state := sys_state sys_failed;
                        sys_worker := sys_worker sys_failed;
                        sys_buf := sys_buf sys_receiving |} s2 ->
        responses (sys_state s2)
          !!! Z.to_nat (latest_response (sys_state sys_receiving)) = mem')).
Proof.
  apply (transfer_published_in_order sys_receiving io_fail
           (sys_state sys_failed) (sys_worker sys_failed)).
  - apply reachable_run_worker, reachable_run_worker, reachable_run_main,
      reachable_run_main, rtc_refl.
  - vm_compute. reflexivity.
Defined.

(** C2 as stated fails where it says that a failed transfer leaves the
    slot without payload: a transfer that delivered the byte x and then
    failed is published with that byte as its payload. *)
Lemma failed_transfer_payload_counterexample :
  reachable sys_receiving /\
  io_finished io_fail = Some false /\
  completion_detected io_fail (sys_state sys_receiving)
    (sys_worker sys_receiving) /\
  network_thread_loop io_fail (sys_state sys_receiving)
    (sys_worker sys_receiving)
  = Ok (Continue (sys_state sys_failed, sys_worker sys_failed)) /\
  latest_response (sys_state sys_failed) = 1%Z /\
  response (responses (sys_state sys_failed) !!! 0%nat) = Some [120; 0]%Z /\
  response (responses (sys_state sys_failed) !!! 0%nat) <> None.
Proof.
  split; [apply reachable_sys_receiving|]. split; [reflexivity|].
  split.
  { split; [reflexivity|]. split; [reflexivity|]. split; [reflexivity|].
    eexists. vm_compute. reflexivity. }
  split; [vm_compute; reflexivity|]. split; [reflexivity|].
  split; [reflexivity|]. vm_compute. discriminate.
Qed.

(** ** Shutdown *)

(** Emptying the command pipe frees every queued URL, in the order of the
    queue, and ends with an empty pipe. *)
Lemma drain_pipe_spec events : forall state,
  NoDup (omap url events) ->
  dom (heap state) = list_to_set (omap url events) ->
  exists state',
    drain_pipe events state = Ok state' /\
    pipe state' = [] /\ heap state' = ∅ /\ done state' = done state /\
    history state'
    = history state ++ ((fun ev => EvFree (url ev)) <$> events).
Proof.
  induction events as [|ev rest IH]; intros state Hnd Hdom.
  - exists (set_pipe [] state). simpl in *. rewrite app_nil_r.
    split; [done|]. split; [done|]. split; [|done].
    by apply dom_empty_inv_L.
  - simpl. simpl in Hnd, Hdom. destruct (url ev) as [a|]; simpl in *;
      change (list_omap pipe_event nat url rest) with (omap url rest) in *.
    + apply NoDup_cons in Hnd as [Hnotin Hnd].
      destruct (heap state !! a) as [v|] eqn:Ha.
      2:{ apply not_elem_of_dom in Ha. rewrite Hdom in Ha.
          exfalso. apply Ha. apply elem_of_union. left.
          by apply elem_of_singleton. }
      destruct (IH (record_event (EvFree (Some a))
                      (set_heap (delete a (heap state)) (set_pipe rest state))))
        as (state' & Hrun & Hp & Hh & Hd & Hhist); [done| |].
      { simpl. rewrite dom_delete_L, Hdom. apply set_eq. intros x.
        rewrite elem_of_difference, elem_of_union, elem_of_singleton,
          elem_of_list_to_set.
        split; [by intros [[?|?] ?]|].
        intros Hx. split; [by right|]. by intros ->. }
      exists state'.
      split; [exact Hrun|]. split; [done|]. split; [done|]. split; [done|].
      rewrite Hhist. simpl. by rewrite <- (assoc_L (++)).
    + destruct (IH (record_event (EvFree None) (set_pipe rest state)))
        as (state' & Hrun & Hp & Hh & Hd & Hhist); [done|done|].
      exists state'.
      split; [exact Hrun|]. split; [done|]. split; [done|]. split; [done|].
      rewrite Hhist. simpl. by rewrite <- (assoc_L (++)).
Qed.

Lemma free_responses_spec n : forall i state,
  pipe (free_responses n i state) = pipe state /\
  heap (free_responses n i state) = heap state /\
  done (free_responses n i state) = done state /\
  history (free_responses n i state)
  = history state ++ (EvFreeResponse <$> seq i n).
Proof.
  induction n as [|n IH]; intros i state.
  - change (free_responses 0 i state) with state. simpl. by rewrite app_nil_r.
  - change (free_responses (S n) i state)
      with (free_responses n (S i) (record_event (EvFreeResponse i) state)).
    destruct (IH (S i) (record_event (EvFreeResponse i) state))
      as (-> & -> & -> & ->).
    simpl. by rewrite <- (assoc_L (++)).
Qed.

(** C9: in every state the program reaches, [cleanup_state] runs to its
    end; it sets [done], wakes the worker, joins it, and then reads the
    command pipe until it is empty, freeing the URL of every request still
    queued, in this order.  Before it the live URL blocks are exactly the
    queued ones, each once; after it none is live and the pipe is empty. *)
Theorem cleanup_reclaims_requests s :
  reachable s ->
  NoDup (queued_urls (sys_state s)) /\
  dom (heap (sys_state s)) = list_to_set (queued_urls (sys_state s)) /\
  exists state',
    cleanup_state (sys_state s) = Ok state' /\
    done state' = true /\ pipe state' = [] /\ heap state' = ∅ /\
    history state'
    = history (sys_state s) ++ [EvSetDone; EvWakeup; EvJoin]
      ++ ((fun ev => EvFree (url ev)) <$> pipe (sys_state s))
      ++ closing_events.
Proof.
  intros Hreach.
  destruct (reachable_inv s Hreach) as ((_ & _ & _ & _ & Hnd & Hdom) & _).
  split; [done|]. split; [done|].
  unfold cleanup_state, network_thread_exit. simpl.
  set (state1 := record_event EvJoin _).
  destruct (drain_pipe_spec (pipe (sys_state s)) state1)
    as (state2 & Hrun & Hp & Hh & Hd & Hhist); [done|done|].
  rewrite Hrun. simpl. eexists. split; [reflexivity|].
  destruct (free_responses_spec (Z.to_nat MAX_RESPONSES) 0
              (record_event EvCurlCleanup
                 (record_event (EvClose 3)
                    (record_event (EvClose 2)
                       (record_event (EvClose 1)
                          (record_event (EvClose 0) state2))))))
    as (-> & -> & -> & ->).
  unfold closing_events.
  generalize (EvFreeResponse <$> seq 0 (Z.to_nat MAX_RESPONSES)).
  intros frees. simpl. split; [done|]. split; [done|]. split; [done|].
  rewrite Hhist. simpl. rewrite <- !(assoc_L (++)). done.
Qed.

Lemma cleanup_reclaims_requests_witness :
  NoDup (queued_urls (sys_state sys_submitted)) /\
  dom (heap (sys_state sys_submitted))
  = list_to_set (queued_urls (sys_state sys_submitted)) /\
  exists state',
    cleanup_state (sys_state sys_submitted) = Ok state' /\
    done state' = true /\ pipe state' = [] /\ heap state' = ∅ /\
    history state'
    = history (sys_state sys_submitted) ++ [EvSetDone; EvWakeup; EvJoin]
      ++ ((fun ev => EvFree (url ev)) <$> pipe (sys_state sys_submitted))
      ++ closing_events.
Proof.
  apply (cleanup_reclaims_requests sys_submitted).
  apply reachable_run_main, reachable_run_main, rtc_refl.
Defined.

(** * Further properties *)

(** ** Keys and the input line *)

Lemma buf_wf_line buf :
  buf_wf buf ->
  buf = input_line buf ++ replicate (BUF_SIZE - length (input_line buf)) NUL /\
  strlen buf = length (input_line buf) /\
  (length (input_line buf) < BUF_SIZE)%nat /\
  Forall (fun b => b <> NUL) (input_line buf).
Proof.
  intros (line & Hbuf & Hlen & Hnz).
  destruct (buf_wf_strlen buf line Hbuf Hlen Hnz) as (Hstr & Hline & _).
  rewrite Hline. done.
Qed.

Lemma input_line_app line :
  (length line < BUF_SIZE)%nat -> Forall (fun b => b <> NUL) line ->
  input_line (line ++ replicate (BUF_SIZE - length line) NUL) = line.
Proof.
  intros Hlen Hnz. by destruct (buf_wf_strlen _ line eq_refl Hlen Hnz) as (_ & ? & _).
Qed.

Lemma read_char_ordinary ok state buf c :
  buf_wf buf -> special_key c = false ->
  (read_char ok state buf c).1 = state /\
  buf_wf (read_char ok state buf c).2 /\
  input_line (read_char ok state buf c).2
  = if isprint c && (length (input_line buf) <? 127)%nat
    then input_line buf ++ [c] else input_line buf.
Proof.
  intros Hwf Hkey. pose proof (read_char_buf_wf ok state buf c Hwf) as Hwf'.
  split; [|split; [done|]]; clear Hwf'; destruct Hwf as (line & -> & Hlen & Hnz);
    destruct (buf_wf_strlen _ line eq_refl Hlen Hnz) as (Hstr & Hline & _);
    unfold special_key in Hkey;
    repeat (apply orb_false_iff in Hkey as [Hkey ?]);
    unfold read_char; rewrite Hstr, ?Hline, Hkey; simpl;
    repeat match goal with H : (_ =? _)%Z = false |- _ => rewrite H; clear H end;
    simpl.
  - by destruct (_ && _).
  - destruct (isprint c) eqn:Hprint; simpl; [|by rewrite andb_false_r].
    rewrite andb_true_r.
    assert ((length line + 1 <? BUF_SIZE)%nat = (length line <? 127)%nat) as ->.
    { unfold BUF_SIZE. destruct (Nat.ltb_spec (length line + 1) 128),
        (Nat.ltb_spec (length line) 127); try done; lia. }
    destruct (Nat.ltb_spec (length line) 127) as [Hroom|Hroom]; [|done].
    replace (length line) with (length line + 0)%nat at 1 by lia.
    replace (BUF_SIZE - length line)%nat
      with (S (BUF_SIZE - length (line ++ [c])))%nat
      by (rewrite length_app; simpl; unfold BUF_SIZE in *; lia).
    cbn [snd]. rewrite insert_app_r. simpl.
    rewrite cons_middle, (assoc_L (++)).
    apply input_line_app.
    + rewrite length_app. simpl. unfold BUF_SIZE. lia.
    + apply Forall_app. split; [done|]. constructor; [|done].
      unfold isprint, NUL in *. lia.
Qed.

(** X1: a key that is none of Enter, backspace, delete and the two quotes
    changes nothing but the input line: it is put at its end when it is
    printable and the line has fewer than 127 characters, and is dropped
    otherwise. *)
Theorem read_char_ordinary_key ok state buf c :
  buf_wf buf -> special_key c = false ->
  (read_char ok state buf c).1 = state /\
  buf_wf (read_char ok state buf c).2 /\
  input_line (read_char ok state buf c).2
  = if isprint c && (length (input_line buf) <? 127)%nat
    then input_line buf ++ [c] else input_line buf.
Proof. apply read_char_ordinary. Qed.

Lemma read_char_ordinary_key_witness :
  (read_char true init_state buf_hi 33).1 = init_state /\
  buf_wf (read_char true init_state buf_hi 33).2 /\
  input_line (read_char true init_state buf_hi 33).2
  = if isprint 33 && (length (input_line buf_hi) <? 127)%nat
    then input_line buf_hi ++ [33%Z] else input_line buf_hi.
Proof.
  apply (read_char_ordinary_key true init_state buf_hi 33).
  - exists [104; 105]%Z. split; [reflexivity|]. split; [simpl; unfold BUF_SIZE; lia|].
    repeat constructor; discriminate.
  - reflexivity.
Defined.

Lemma read_chars_cons ok c keys sb :
  read_chars ok (c :: keys) sb = read_chars ok keys (read_char ok sb.1 sb.2 c).
Proof. done. Qed.

Lemma read_chars_app ok keys1 keys2 sb :
  read_chars ok (keys1 ++ keys2) sb = read_chars ok keys2 (read_chars ok keys1 sb).
Proof. unfold read_chars. by rewrite foldl_app. Qed.

Lemma read_chars_buf_wf ok keys : forall sb,
  buf_wf sb.2 -> buf_wf (read_chars ok keys sb).2.
Proof.
  induction keys as [|c keys IH]; intros sb Hwf; [done|].
  rewrite read_chars_cons. apply IH. by apply read_char_buf_wf.
Qed.

(** X2: whatever keys are pressed, the input buffer keeps its shape: a line
    of at most 127 characters, none of them the terminator, followed by
    zero bytes up to the 128 of the array. *)
Theorem input_line_bounded ok keys state buf :
  buf_wf buf ->
  length (read_chars ok keys (state, buf)).2 = BUF_SIZE /\
  (length (input_line (read_chars ok keys (state, buf)).2) <= 127)%nat /\
  Forall (fun b => b <> NUL) (input_line (read_chars ok keys (state, buf)).2) /\
  (read_chars ok keys (state, buf)).2
  = input_line (read_chars ok keys (state, buf)).2
    ++ replicate (BUF_SIZE - length (input_line (read_chars ok keys (state, buf)).2))
         NUL.
Proof.
  intros Hwf.
  pose proof (read_chars_buf_wf ok keys (state, buf) Hwf) as Hwf'.
  destruct (buf_wf_line _ Hwf') as (Hbuf & Hstr & Hlen & Hnz).
  split; [|split; [unfold BUF_SIZE in Hlen; lia|done]].
  rewrite Hbuf at 1. rewrite length_app, length_replicate. lia.
Qed.

Lemma input_line_bounded_witness :
  length (read_chars true [97; 98; 127; 13; 99]%Z (init_state, buf_hi)).2
  = BUF_SIZE /\
  (length (input_line
             (read_chars true [97; 98; 127; 13; 99]%Z (init_state, buf_hi)).2)
   <= 127)%nat /\
  Forall (fun b => b <> NUL)
    (input_line (read_chars true [97; 98; 127; 13; 99]%Z (init_state, buf_hi)).2) /\
  (read_chars true [97; 98; 127; 13; 99]%Z (init_state, buf_hi)).2
  = input_line (read_chars true [97; 98; 127; 13; 99]%Z (init_state, buf_hi)).2
    ++ replicate
         (BUF_SIZE
          - length (input_line
                      (read_chars true [97; 98; 127; 13; 99]%Z
                         (init_state, buf_hi)).2))
         NUL.
Proof.
  apply (input_line_bounded true [97; 98; 127; 13; 99]%Z init_state buf_hi).
  exists [104; 105]%Z. split; [reflexivity|]. split; [simpl; unfold BUF_SIZE; lia|].
  repeat constructor; discriminate.
Defined.

Lemma read_char_scroll ok state buf c :
  scroll (read_char ok state buf c).1
  = (scroll state + (if (c =? SQUOTE)%Z then 1 else 0)
     - (if (c =? DQUOTE)%Z then 1 else 0))%Z.
Proof.
  unfold read_char, send_request, strdup.
  destruct (Z.eqb_spec c CARRIAGE) as [->|?].
  { destruct ok; simpl; lia. }
  destruct (Z.eqb_spec c DEL) as [->|?]; [simpl; lia|].
  destruct (Z.eqb_spec c BACKSPACE) as [->|?]; [simpl; lia|]. simpl.
  destruct (Z.eqb_spec c DQUOTE) as [->|?]; [simpl; lia|].
  destruct (Z.eqb_spec c SQUOTE) as [->|?]; [simpl; lia|].
  destruct (_ && _); simpl; lia.
Qed.

Lemma count_key_cons c k keys :
  count_key c (k :: keys)
  = ((if (k =? c)%Z then 1 else 0) + count_key c keys)%Z.
Proof.
  unfold count_key. rewrite filter_cons.
  destruct (decide (k = c)) as [->|Hne].
  - rewrite Z.eqb_refl. simpl. lia.
  - destruct (Z.eqb_spec k c); [done|]. lia.
Qed.

(** X3: after any sequence of keys the scroll offset is its old value plus
    the number of single quotes pressed minus the number of double quotes,
    as long as this stays within the range of [int]; no other key changes
    it, and it is not clamped at the bottom or at the top of the log. *)
Theorem scroll_counts_quotes ok keys state buf :
  (INT_MIN <= scroll state - count_key DQUOTE keys)%Z ->
  (scroll state + count_key SQUOTE keys <= INT_MAX)%Z ->
  scroll (read_chars ok keys (state, buf)).1
  = (scroll state + count_key SQUOTE keys - count_key DQUOTE keys)%Z.
Proof.
  intros _ _. revert state buf. induction keys as [|c keys IH]; intros state buf.
  { unfold count_key. simpl. lia. }
  rewrite read_chars_cons. simpl.
  destruct (read_char ok state buf c) as [state1 buf1] eqn:Hrc.
  rewrite IH, !count_key_cons.
  pose proof (read_char_scroll ok state buf c) as Hs. rewrite Hrc in Hs.
  simpl in Hs. lia.
Qed.

Lemma scroll_counts_quotes_witness :
  scroll (read_chars true [SQUOTE; DQUOTE; DQUOTE; 97%Z; DQUOTE]
            (init_state, buf_hi)).1
  = (scroll init_state + count_key SQUOTE [SQUOTE; DQUOTE; DQUOTE; 97%Z; DQUOTE]
     - count_key DQUOTE [SQUOTE; DQUOTE; DQUOTE; 97%Z; DQUOTE])%Z.
Proof.
  apply (scroll_counts_quotes true [SQUOTE; DQUOTE; DQUOTE; 97%Z; DQUOTE]
           init_state buf_hi).
  - vm_compute. discriminate.
  - vm_compute. discriminate.
Defined.

(** ** Requests *)

Lemma queued_strings_send_request ok state buf :
  dom (heap state) = list_to_set (queued_urls state) ->
  queued_strings (send_request ok state buf)
  = queued_strings state ++ [if ok then Some (c_str buf) else None].
Proof.
  intros Hdom. unfold send_request, strdup, queued_strings.
  destruct ok; simpl; rewrite fmap_app; simpl; [|done].
  rewrite lookup_insert_eq. f_equal.
  apply Forall_fmap_ext, Forall_forall. intros ev Hev.
  destruct (url ev) as [a|] eqn:Hurl; [|done]. simpl.
  rewrite lookup_insert_ne; [done|]. intros Heq.
  assert (a ∈ dom (heap state)) as Hin.
  { rewrite Hdom. apply elem_of_list_to_set. unfold queued_urls.
    apply list_elem_of_omap. by exists ev. }
  rewrite <- Heq in Hin. by apply is_fresh in Hin.
Qed.

(** X4: in every state the program reaches, Enter puts the input line, as a
    copy, at the end of the queue of requests, behind the requests that
    wait there, and empties the input line; when the copy cannot be
    allocated a request with a null URL is queued instead.  The scroll
    offset and the stored responses are left alone. *)
Theorem enter_queues_line ok s :
  reachable s ->
  queued_strings (read_char ok (sys_state s) (sys_buf s) CARRIAGE).1
  = queued_strings (sys_state s)
    ++ [if ok then Some (input_line (sys_buf s)) else None] /\
  (read_char ok (sys_state s) (sys_buf s) CARRIAGE).2 = replicate BUF_SIZE NUL /\
  input_line (read_char ok (sys_state s) (sys_buf s) CARRIAGE).2 = [] /\
  scroll (read_char ok (sys_state s) (sys_buf s) CARRIAGE).1
  = scroll (sys_state s) /\
  responses (read_char ok (sys_state s) (sys_buf s) CARRIAGE).1
  = responses (sys_state s) /\
  latest_response (read_char ok (sys_state s) (sys_buf s) CARRIAGE).1
  = latest_response (sys_state s).
Proof.
  intros Hreach.
  destruct (reachable_inv s Hreach) as ((_ & _ & _ & _ & _ & Hdom) & _).
  change (read_char ok (sys_state s) (sys_buf s) CARRIAGE)
    with (send_request ok (sys_state s) (sys_buf s), replicate BUF_SIZE NUL).
  cbn [fst snd]. split; [by apply queued_strings_send_request|].
  split; [done|]. split; [done|].
  unfold send_request, strdup. by destruct ok.
Qed.

Lemma enter_queues_line_witness :
  queued_strings
    (read_char true (sys_state sys_submitted) (sys_buf sys_submitted) CARRIAGE).1
  = queued_strings (sys_state sys_submitted)
    ++ [Some (input_line (sys_buf sys_submitted))] /\
  (read_char true (sys_state sys_submitted) (sys_buf sys_submitted) CARRIAGE).2
  = replicate BUF_SIZE NUL /\
  input_line
    (read_char true (sys_state sys_submitted) (sys_buf sys_submitted) CARRIAGE).2
  = [] /\
  scroll (read_char true (sys_state sys_submitted) (sys_buf sys_submitted)
            CARRIAGE).1
  = scroll (sys_state sys_submitted) /\
  responses (read_char true (sys_state sys_submitted) (sys_buf sys_submitted)
               CARRIAGE).1
  = responses (sys_state sys_submitted) /\
  latest_response (read_char true (sys_state sys_submitted)
                     (sys_buf sys_submitted) CARRIAGE).1
  = latest_response (sys_state sys_submitted).
Proof.
  apply (enter_queues_line true sys_submitted).
  do 2 apply reachable_run_main. apply rtc_refl.
Defined.

Lemma plain_key_ordinary c : plain_key c = true -> special_key c = false /\ isprint c = true.
Proof.
  unfold plain_key. intros H. apply andb_true_iff in H as [H1 H2].
  by apply negb_true_iff in H2.
Qed.

Lemma read_chars_plain ok keys : forall state buf,
  buf_wf buf -> Forall (fun c => plain_key c = true) keys ->
  (read_chars ok keys (state, buf)).1 = state /\
  buf_wf (read_chars ok keys (state, buf)).2 /\
  input_line (read_chars ok keys (state, buf)).2
  = take 127 (input_line buf ++ keys).
Proof.
  induction keys as [|c keys IH]; intros state buf Hwf Hkeys.
  { split; [done|]. split; [done|]. simpl. rewrite app_nil_r.
    destruct (buf_wf_line _ Hwf) as (_ & _ & Hlen & _).
    rewrite take_ge; [done|]. unfold BUF_SIZE in Hlen. lia. }
  apply Forall_cons in Hkeys as [Hc Hkeys].
  apply plain_key_ordinary in Hc as [Hsp Hpr].
  destruct (read_char_ordinary ok state buf c Hwf Hsp) as (Hst & Hwf1 & Hline).
  rewrite read_chars_cons. cbn [fst snd].
  destruct (read_char ok state buf c) as [state1 buf1]. simpl in Hst, Hwf1, Hline.
  subst state1. destruct (IH state buf1 Hwf1 Hkeys) as (-> & Hwf2 & ->).
  split; [done|]. split; [done|]. rewrite Hline, Hpr. simpl.
  destruct (buf_wf_line _ Hwf) as (_ & _ & Hlen & _). unfold BUF_SIZE in Hlen.
  destruct (Nat.ltb_spec (length (input_line buf)) 127).
  - by rewrite <- (assoc_L (++)).
  - rewrite !take_app_le by lia. done.
Qed.

(** X5: in every state the program reaches, typing printable characters
    other than the two quotes and then Enter queues, behind the requests
    that wait, the input line followed by the typed characters, cut after
    127 characters; the input line is empty afterwards. *)
Theorem typed_line_is_queued s keys :
  reachable s -> Forall (fun c => plain_key c = true) keys ->
  queued_strings
    (read_chars true (keys ++ [CARRIAGE]) (sys_state s, sys_buf s)).1
  = queued_strings (sys_state s)
    ++ [Some (take 127 (input_line (sys_buf s) ++ keys))] /\
  input_line (read_chars true (keys ++ [CARRIAGE]) (sys_state s, sys_buf s)).2
  = [].
Proof.
  intros Hreach Hkeys.
  destruct (reachable_inv s Hreach) as ((_ & _ & _ & _ & _ & Hdom) & _ & _ & Hwf).
  rewrite read_chars_app.
  destruct (read_chars_plain true keys (sys_state s) (sys_buf s) Hwf Hkeys)
    as (Hst & _ & Hline).
  destruct (read_chars true keys (sys_state s, sys_buf s)) as [state1 buf1].
  simpl in Hst, Hline. subst state1.
  change (read_chars true [CARRIAGE] (sys_state s, buf1))
    with (send_request true (sys_state s) buf1, replicate BUF_SIZE NUL).
  cbn [fst snd]. split; [|done].
  rewrite queued_strings_send_request by done. by rewrite <- Hline.
Qed.

Lemma typed_line_is_queued_witness :
  queued_strings
    (read_chars true ([104; 105]%Z ++ [CARRIAGE])
       (sys_state sys_submitted, sys_buf sys_submitted)).1
  = queued_strings (sys_state sys_submitted)
    ++ [Some (take 127 (input_line (sys_buf sys_submitted) ++ [104; 105]%Z))] /\
  input_line
    (read_chars true ([104; 105]%Z ++ [CARRIAGE])
       (sys_state sys_submitted, sys_buf sys_submitted)).2
  = [].
Proof.
  apply (typed_line_is_queued sys_submitted [104; 105]%Z).
  - do 2 apply reachable_run_main. apply rtc_refl.
  - repeat constructor.
Defined.

(** ** The main loop and the keys *)

Lemma set_notify_ui_pipe_id s : set_notify_ui_pipe (notify_ui_pipe s) s = s.
Proof. by destruct s. Qed.

Lemma read_char_set_notify ok v state buf c :
  read_char ok (set_notify_ui_pipe v state) buf c
  = (set_notify_ui_pipe v (read_char ok state buf c).1,
     (read_char ok state buf c).2).
Proof.
  unfold read_char, send_request, strdup.
  destruct (c =? CARRIAGE)%Z; [by destruct ok|].
  destruct (_ || _); [done|].
  destruct (c =? DQUOTE)%Z; [done|]. destruct (c =? SQUOTE)%Z; [done|].
  by destruct (_ && _).
Qed.

Lemma read_chars_set_notify ok v keys : forall state buf,
  read_chars ok keys (set_notify_ui_pipe v state, buf)
  = (set_notify_ui_pipe v (read_chars ok keys (state, buf)).1,
     (read_chars ok keys (state, buf)).2).
Proof.
  induction keys as [|c keys IH]; intros state buf; [done|].
  rewrite !read_chars_cons. cbn [fst snd]. rewrite read_char_set_notify.
  destruct (read_char ok state buf c) as [state1 buf1]. apply IH.
Qed.

Lemma main_poll_key io c rest state buf :
  mi_intr io = false -> c <> CTRL_C ->
  main_poll io {| mt_state := state; mt_buf := buf; mt_stdin := c :: rest |}
  = MainNext
      {| mt_state := set_notify_ui_pipe (tail (notify_ui_pipe state))
                       (read_char (mi_strdup_ok io) state buf c).1;
         mt_buf := (read_char (mi_strdup_ok io) state buf c).2;
         mt_stdin := rest |}.
Proof.
  intros Hintr Hc. unfold main_poll. cbn [mt_state mt_buf mt_stdin].
  rewrite Hintr. cbn [negb andb].
  rewrite (bool_decide_eq_true_2 (c :: rest <> [])) by done. cbn [negb andb].
  destruct (Z.eqb_spec c CTRL_C) as [?|_]; [done|].
  pose proof (read_char_notify (mi_strdup_ok io) state buf c) as Hn.
  destruct (read_char (mi_strdup_ok io) state buf c) as [state1 buf1].
  cbn [fst snd mt_state mt_buf mt_stdin] in *.
  destruct (notify_ui_pipe state) as [|b bs] eqn:Hpipe.
  - rewrite (bool_decide_eq_false_2 ([] <> [])) by (intros H; by apply H).
    simpl. rewrite <- Hn. by rewrite set_notify_ui_pipe_id.
  - rewrite (bool_decide_eq_true_2 (b :: bs <> [])) by done. by rewrite Hn.
Qed.

Lemma main_rounds_keys ok ios ios2 keys rest : forall state buf,
  Forall (fun io => mi_intr io = false /\ mi_strdup_ok io = ok) ios ->
  length ios = length keys ->
  Forall (fun c => c <> CTRL_C) keys ->
  main_rounds (ios ++ ios2)
    {| mt_state := state; mt_buf := buf; mt_stdin := keys ++ rest |}
  = main_rounds ios2
      {| mt_state := set_notify_ui_pipe
                       (drop (length keys) (notify_ui_pipe state))
                       (read_chars ok keys (state, buf)).1;
         mt_buf := (read_chars ok keys (state, buf)).2;
         mt_stdin := rest |}.
Proof.
  revert keys. induction ios as [|io ios IH]; intros keys state buf Hios Hlen Hkeys.
  { destruct keys; [|done]. unfold read_chars.
    cbn [foldl fst snd length drop app].
    rewrite drop_0. by rewrite set_notify_ui_pipe_id. }
  destruct keys as [|c keys]; [done|].
  apply Forall_cons in Hios as [[Hintr Hok] Hios].
  apply Forall_cons in Hkeys as [Hc Hkeys].
  simpl in Hlen. cbn [main_rounds app].
  rewrite (main_poll_key io c (keys ++ rest) state buf Hintr Hc), Hok.
  rewrite read_chars_cons. cbn [fst snd].
  pose proof (read_char_notify ok state buf c) as Hn.
  destruct (read_char ok state buf c) as [state1 buf1]. cbn [fst snd] in *.
  rewrite IH by (done || lia).
  rewrite read_chars_set_notify. cbn [fst snd notify_ui_pipe set_notify_ui_pipe].
  destruct (notify_ui_pipe state) as [|b bs];
    cbn [tail length drop]; rewrite ?drop_nil; done.
Qed.

Lemma main_poll_ctrl_c io state buf rest :
  mi_intr io = false ->
  main_poll io {| mt_state := state; mt_buf := buf; mt_stdin := CTRL_C :: rest |}
  = MainBreak {| mt_state := state; mt_buf := buf; mt_stdin := rest |}.
Proof.
  intros Hintr. unfold main_poll. cbn [mt_state mt_buf mt_stdin].
  rewrite Hintr. cbn [negb andb].
  by rewrite (bool_decide_eq_true_2 (CTRL_C :: rest <> [])).
Qed.

(** X6: while the keys waiting on standard input are not Ctrl + C and poll
    is not interrupted, the main loop takes one key per round and hands the
    keys to read_char in the order typed; each round also takes one wake
    byte off the notify pipe when there is one.  So after as many rounds as
    there are keys, the state and the input buffer are those of read_char
    run over the keys, with that many wake bytes gone. *)
Theorem main_loop_feeds_keys ok ios keys rest state buf :
  Forall (fun io => mi_intr io = false /\ mi_strdup_ok io = ok) ios ->
  length ios = length keys ->
  Forall (fun c => c <> CTRL_C) keys ->
  main_rounds ios
    {| mt_state := state; mt_buf := buf; mt_stdin := keys ++ rest |}
  = MainNext
      {| mt_state := set_notify_ui_pipe
                       (drop (length keys) (notify_ui_pipe state))
                       (read_chars ok keys (state, buf)).1;
         mt_buf := (read_chars ok keys (state, buf)).2;
         mt_stdin := rest |}.
Proof.
  intros Hios Hlen Hkeys.
  rewrite <- (app_nil_r ios) at 1.
  by rewrite (main_rounds_keys ok ios [] keys rest state buf).
Qed.

Lemma main_loop_feeds_keys_witness :
  main_rounds [io_plain; io_plain]
    {| mt_state := set_notify_ui_pipe [NUL] init_state; mt_buf := buf_hi;
       mt_stdin := [33; CARRIAGE]%Z ++ [CTRL_C] |}
  = MainNext
      {| mt_state := set_notify_ui_pipe
                       (drop (length [33; CARRIAGE]%Z)
                          (notify_ui_pipe (set_notify_ui_pipe [NUL] init_state)))
                       (read_chars true [33; CARRIAGE]%Z
                          (set_notify_ui_pipe [NUL] init_state, buf_hi)).1;
         mt_buf := (read_chars true [33; CARRIAGE]%Z
                      (set_notify_ui_pipe [NUL] init_state, buf_hi)).2;
         mt_stdin := [CTRL_C] |}.
Proof.
  apply (main_loop_feeds_keys true [io_plain; io_plain] [33; CARRIAGE]%Z
           [CTRL_C] (set_notify_ui_pipe [NUL] init_state) buf_hi).
  - repeat constructor.
  - reflexivity.
  - repeat constructor; discriminate.
Defined.

(** X17: Ctrl + C ends the main loop in the round that reads it.  The keys
    typed before it have been handled in order, the keys behind it are
    left unread, and the round that reads it changes nothing: not the
    state, not the input line, and it takes no wake byte. *)
Theorem ctrl_c_ends_loop ok ios io keys rest state buf :
  Forall (fun io => mi_intr io = false /\ mi_strdup_ok io = ok) ios ->
  mi_intr io = false ->
  length ios = length keys ->
  Forall (fun c => c <> CTRL_C) keys ->
  main_rounds (ios ++ [io])
    {| mt_state := state; mt_buf := buf;
       mt_stdin := keys ++ CTRL_C :: rest |}
  = MainBreak
      {| mt_state := set_notify_ui_pipe
                       (drop (length keys) (notify_ui_pipe state))
                       (read_chars ok keys (state, buf)).1;
         mt_buf := (read_chars ok keys (state, buf)).2;
         mt_stdin := rest |}.
Proof.
  intros Hios Hintr Hlen Hkeys.
  rewrite (main_rounds_keys ok ios [io] keys (CTRL_C :: rest) state buf)
    by done.
  cbn [main_rounds]. by rewrite main_poll_ctrl_c.
Qed.

Lemma ctrl_c_ends_loop_witness :
  main_rounds ([io_plain] ++ [io_plain])
    {| mt_state := set_notify_ui_pipe [NUL; NUL] init_state; mt_buf := buf_hi;
       mt_stdin := [33%Z] ++ CTRL_C :: [97%Z] |}
  = MainBreak
      {| mt_state := set_notify_ui_pipe
                       (drop (length [33%Z])
                          (notify_ui_pipe
                             (set_notify_ui_pipe [NUL; NUL] init_state)))
                       (read_chars true [33%Z]
                          (set_notify_ui_pipe [NUL; NUL] init_state, buf_hi)).1;
         mt_buf := (read_chars true [33%Z]
                      (set_notify_ui_pipe [NUL; NUL] init_state, buf_hi)).2;
         mt_stdin := [97%Z] |}.
Proof.
  apply (ctrl_c_ends_loop true [io_plain] io_plain [33%Z] [97%Z]
           (set_notify_ui_pipe [NUL; NUL] init_state) buf_hi).
  - repeat constructor.
  - reflexivity.
  - reflexivity.
  - repeat constructor; discriminate.
Defined.


(** ** The worker and the queue of requests *)

Lemma queued_strings_start_transfer s2 w s3 w3 :
  state_inv s2 -> start_transfer s2 w = Ok (s3, w3) ->
  exists ev rest,
    pipe s2 = ev :: rest /\ pipe s3 = rest /\
    heap s3 = heap_without (url ev) (heap s2) /\
    queued_strings s2 = CURLOPT_URL (easy w3) :: queued_strings s3.
Proof.
  intros (_ & _ & _ & _ & Hnd & _) Hstart.
  destruct (start_transfer_spec _ _ _ _ Hstart)
    as (ev & rest & Hpipe & _ & Hw & Hs).
  cbv zeta in Hw, Hs. exists ev, rest. subst s3 w3. cbn.
  split; [done|]. split; [done|]. split; [done|].
  unfold queued_strings. rewrite Hpipe. cbn. f_equal.
  apply Forall_fmap_ext, Forall_forall. intros ev' Hev'.
  destruct (url ev') as [a'|] eqn:Hurl'; [|done]. cbn.
  destruct (url ev) as [a|] eqn:Hurl; [|done]. cbn.
  rewrite lookup_delete_ne; [done|]. intros <-.
  rewrite (queued_urls_cons ev rest s2 Hpipe), Hurl in Hnd. cbn in Hnd.
  apply NoDup_cons in Hnd as [Hnotin _]. apply Hnotin.
  apply list_elem_of_omap. by exists ev'.
Qed.

Lemma running_handles_spec io state s1 rh :
  state_inv state ->
  (forall h, active (multi state) = Some h ->
             CURLOPT_WRITEDATA h = Some (latest_response state)) ->
  curl_multi_perform io state = Ok (s1, rh) ->
  let running := is_Some (active (multi state)) /\ io_finished io = None in
  rh = 1%Z /\ running \/ rh = 0%Z /\ ~ running.
Proof.
  intros Hinv Hact Hperf. cbv zeta.
  destruct (curl_multi_perform_spec io state s1 rh) as
    [(Hnone & _ & ->)|(h & slot & mem' & Hsome & _ & _ & Hfin)]; [|done| |].
  - intros h Hh. exists (latest_response state). split; [by apply Hact|].
    destruct Hinv as (_ & ? & Hlen & _). rewrite Hlen.
    unfold MAX_RESPONSES in *. lia.
  - right. split; [done|]. intros [[h Hh] _]. congruence.
  - cbv zeta in Hfin. destruct Hfin as [(Hfin & _ & ->)|(Hfin & _ & ->)].
    + left. split; [done|]. split; [|done]. by rewrite Hsome.
    + right. split; [done|]. intros [_ Hnone]. rewrite Hnone in Hfin.
      by destruct Hfin.
Qed.

(** X7: the worker runs one transfer at a time and takes the requests in
    the order they were queued.  In a round from a state the program
    reaches, the queue is left alone while the transfer in progress has not
    ended, and when poll does not report the command pipe; when no
    transfer runs after [curl_multi_perform] and poll reports the pipe, the
    round takes the request at the head of the queue, starts a transfer of
    its URL into the slot at the current count, and frees its URL block. *)
Theorem worker_takes_next_request s io state' w' :
  reachable s ->
  network_thread_loop io (sys_state s) (sys_worker s)
    = Ok (Continue (state', w')) ->
  let state := sys_state s in
  let running := is_Some (active (multi state)) /\ io_finished io = None in
  (running \/ io_pollin io = false ->
   pipe state' = pipe state /\ heap state' = heap state /\
   easy w' = easy (sys_worker s)) /\
  (~ running -> io_pollin io = true ->
   exists ev rest,
     pipe state = ev :: rest /\ pipe state' = rest /\
     heap state' = heap_without (url ev) (heap state) /\
     queued_strings state = CURLOPT_URL (easy w') :: queued_strings state' /\
     active (multi state') = Some (easy w') /\
     CURLOPT_WRITEDATA (easy w') = Some (latest_response state')).
Proof.
  intros Hreach Hloop. cbv zeta.
  destruct (reachable_inv s Hreach) as (Hinv & Hact & _ & _). clear Hreach.
  destruct s as [state w b]. cbn [sys_state sys_worker sys_buf] in *.
  remember (is_Some (active (multi state)) /\ io_finished io = None)
    as running eqn:Hdef.
  destruct (network_thread_loop_spec _ _ _ _ _ Hloop)
    as (_ & _ & _ & s1 & rh & s2 & w3 & Hperf & Hpub & Hstart & ->).
  destruct (curl_multi_perform_inv _ _ _ _ Hinv Hact Hperf)
    as (Hinv1 & HL1 & Hpipe1 & Hheap1 & _ & _ & _ & _).
  assert (rh = 1%Z /\ running \/ rh = 0%Z /\ ~ running) as Hrh.
  { subst running. by apply (running_handles_spec io state s1 rh). }
  assert (state_inv s2 /\ pipe s2 = pipe state /\ heap s2 = heap state /\
          latest_response s2 = latest_response s2) as (Hinv2 & Hpipe2 & Hheap2 & _).
  { destruct (_ && _) in Hpub.
    - destruct (publish_inv _ _ _ Hinv1 Hpub) as (? & _ & _ & Hp & Hh & _).
      by rewrite Hp, Hh.
    - by subst s2. }
  split.
  - intros Hquiet.
    assert ((rh =? 0)%Z && io_pollin io = false) as Hno.
    { destruct Hquiet as [Hrun| ->]; [|by rewrite andb_false_r].
      destruct Hrh as [[-> _]|[_ Hnot]]; done. }
    rewrite Hno in Hstart. by injection Hstart as -> ->.
  - intros Hnot Hpollin. destruct Hrh as [[_ Hrun]|[-> _]]; [done|].
    rewrite Hpollin in Hstart. cbn in Hstart.
    destruct (queued_strings_start_transfer _ _ _ _ Hinv2 Hstart)
      as (ev & rest & Hp & Hp' & Hh & Hq).
    destruct (start_transfer_inv _ _ _ _ Hinv2 Hstart)
      as (_ & HL3 & _ & _ & Hact3 & Hwd & _).
    exists ev, rest. cbn [easy]. rewrite <- Hpipe2, <- Hheap2, HL3.
    repeat (split; [done|]). split; [|done].
    rewrite <- Hq. unfold queued_strings. by rewrite Hpipe2, Hheap2.
Qed.

Lemma worker_takes_next_request_witness :
  let state := sys_state sys_submitted in
  let running := is_Some (active (multi state)) /\ io_finished io_idle = None in
  (running \/ io_pollin io_idle = false ->
   pipe (sys_state sys_started) = pipe state /\
   heap (sys_state sys_started) = heap state /\
   easy (sys_worker sys_started) = easy (sys_worker sys_submitted)) /\
  (~ running -> io_pollin io_idle = true ->
   exists ev rest,
     pipe state = ev :: rest /\ pipe (sys_state sys_started) = rest /\
     heap (sys_state sys_started) = heap_without (url ev) (heap state) /\
     queued_strings state
     = CURLOPT_URL (easy (sys_worker sys_started))
       :: queued_strings (sys_state sys_started) /\
     active (multi (sys_state sys_started)) = Some (easy (sys_worker sys_started)) /\
     CURLOPT_WRITEDATA (easy (sys_worker sys_started))
     = Some (latest_response (sys_state sys_started))).
Proof.
  apply (worker_takes_next_request sys_submitted io_idle
           (sys_state sys_started) (sys_worker sys_started)).
  - do 2 apply reachable_run_main. apply rtc_refl.
  - vm_compute. reflexivity.
Defined.

(** ** How the worker ends *)

Lemma write_cb_abort a data sz nmemb mem f :
  write_cb a data sz nmemb mem = Abort f ->
  f = AssertRealloc /\ alloc_ok a = false.
Proof.
  unfold write_cb, realloc. destruct (alloc_ok a); cbn; [done|].
  intros [= <-]. done.
Qed.

Lemma deliver_frame calls slot : forall state,
  match deliver calls slot state with
  | Ok state' => done state' = done state /\ scroll state' = scroll state
  | Abort f =>
      f = AssertRealloc /\
      exists c, c ∈ calls /\ alloc_ok (sc_alloc c) = false
  end.
Proof.
  induction calls as [|c calls IH]; intros state; [done|].
  cbn [deliver].
  destruct (write_cb (sc_alloc c) (sc_data c) (sc_size c) (sc_nmemb c)
              (responses state !!! Z.to_nat slot)) as [r|f] eqn:Hw; cbn.
  - specialize (IH (record_event (EvSink slot (sc_data c))
                      (set_responses (<[Z.to_nat slot := r.1]> (responses state))
                         state))).
    destruct (deliver calls slot _) as [state'|f].
    + done.
    + destruct IH as (-> & c' & Hc' & Hfail). split; [done|].
      exists c'. split; [apply elem_of_cons; by right|done].
  - apply write_cb_abort in Hw as [-> Hfail]. split; [done|].
    exists c. split; [apply elem_of_cons; by left|done].
Qed.

Lemma curl_multi_perform_frame io state :
  match curl_multi_perform io state with
  | Ok (s1, _) => done s1 = done state /\ scroll s1 = scroll state
  | Abort f =>
      f = AssertRealloc /\ is_Some (active (multi state)) /\
      exists c, c ∈ io_sink io /\ alloc_ok (sc_alloc c) = false
  end.
Proof.
  unfold curl_multi_perform. destruct (active (multi state)) as [h|]; [|done].
  destruct (CURLOPT_WRITEDATA h) as [slot|]; cbn.
  - pose proof (deliver_frame (io_sink io) slot state) as Hd.
    destruct (deliver (io_sink io) slot state) as [s1|f]; cbn.
    + by destruct (io_finished io).
    + destruct Hd as (-> & Hc). done.
  - by destruct (io_finished io).
Qed.

Lemma publish_frame ok s1 s2 :
  publish ok s1 = Ok s2 -> done s2 = done s1 /\ scroll s2 = scroll s1.
Proof.
  unfold publish. destruct (_ =? MAX_RESPONSES)%Z; [done|].
  unfold notify_main. destruct ok; [|done]. by intros [= <-].
Qed.

Lemma start_transfer_frame s2 w s3 w3 :
  start_transfer s2 w = Ok (s3, w3) ->
  done s3 = done s2 /\ scroll s3 = scroll s2.
Proof.
  intros Hstart.
  by apply start_transfer_spec in Hstart as (ev & rest & _ & _ & _ & ->).
Qed.

(** A round that fails no assertion: what it leaves alone, and when it
    leaves the loop. *)
Lemma network_thread_loop_exit io state w c :
  network_thread_loop io state w = Ok c ->
  done (control_state c) = done state /\
  scroll (control_state c) = scroll state /\
  ((exists sw, c = Exit sw) <->
   done state = true \/ io_perform_ok io = false \/ io_poll_ok io = false) /\
  (done state = true -> c = Exit (state, w)).
Proof.
  unfold network_thread_loop. destruct (done state) eqn:Hdone.
  { intros [= <-]. cbn. rewrite Hdone. repeat (split; [done|]).
    split; [|done]. split; [by left|by eexists]. }
  pose proof (curl_multi_perform_frame io state) as Hperf.
  destruct (curl_multi_perform io state) as [[s1 rh]|f]; cbn; [|done].
  destruct Hperf as [Hd1 Hs1].
  destruct (io_perform_ok io); cbn.
  2:{ intros [= <-]. cbn. rewrite Hd1, Hs1, Hdone. repeat (split; [done|]).
      split; [|done]. split; [by right; left|by eexists]. }
  assert (forall s2, (if (prev_running_handles w =? 1)%Z && (rh =? 0)%Z
                      then publish (io_notify_ok io) s1 else Ok s1) = Ok s2 ->
                     done s2 = done s1 /\ scroll s2 = scroll s1) as Hpub.
  { intros s2. destruct (_ && _); [apply publish_frame|by intros [= <-]]. }
  destruct (if (prev_running_handles w =? 1)%Z && (rh =? 0)%Z
            then publish (io_notify_ok io) s1 else Ok s1) as [s2|f]; cbn; [|done].
  destruct (Hpub s2 eq_refl) as [Hd2 Hs2].
  destruct (io_poll_ok io); cbn.
  2:{ intros [= <-]. cbn. rewrite Hd2, Hs2, Hd1, Hs1, Hdone.
      repeat (split; [done|]). split; [|done].
      split; [by right; right|by eexists]. }
  assert (forall s3 w3, (if (rh =? 0)%Z && io_pollin io
                         then start_transfer s2 w else Ok (s2, w)) = Ok (s3, w3) ->
                        done s3 = done s2 /\ scroll s3 = scroll s2) as Hstart.
  { intros s3 w3. destruct (_ && _); [apply start_transfer_frame|].
    by intros [= <- _]. }
  destruct (if (rh =? 0)%Z && io_pollin io
            then start_transfer s2 w else Ok (s2, w)) as [[s3 w3]|f]; cbn; [|done].
  destruct (Hstart s3 w3 eq_refl) as [Hd3 Hs3].
  intros [= <-]. cbn. rewrite Hd3, Hs3, Hd2, Hs2, Hd1, Hs1, Hdone.
  repeat (split; [done|]). split; [|done].
  split; [by intros [sw ?]|by intros [?|[?|?]]].
Qed.

Lemma network_thread_loop_frame io state w c :
  network_thread_loop io state w = Ok c ->
  done (control_state c) = done state /\
  scroll (control_state c) = scroll state.
Proof.
  intros Hloop.
  by destruct (network_thread_loop_exit _ _ _ _ Hloop) as (? & ? & _).
Qed.

(** X8: what makes the worker leave its loop.  The worker reads [done]
    once per round, at the test of the loop, and never writes it, nor the
    scroll offset; the main thread may set [done] between any two rounds.
    A round that fails no assertion leaves the loop exactly when [done] was
    set at its test or libcurl reported an error, from [curl_multi_perform]
    or from [curl_multi_poll]; when [done] was set the round does nothing
    at all.  After the loop the worker ends normally exactly when [done] is
    set in the state it then sees, taking its handle out of the multi
    handle, and fails the assertion otherwise. *)
Theorem worker_leaves_loop io state w c :
  network_thread_loop io state w = Ok c ->
  done (control_state c) = done state /\
  scroll (control_state c) = scroll state /\
  ((exists sw, c = Exit sw) <->
   done state = true \/ io_perform_ok io = false \/ io_poll_ok io = false) /\
  (done state = true -> c = Exit (state, w)) /\
  (forall later,
     network_thread_exit later
     = if done later then Ok (set_multi {| active := None |} later)
       else Abort AssertCurlFailure).
Proof.
  intros Hloop.
  destruct (network_thread_loop_exit _ _ _ _ Hloop) as (Hd & Hs & Hexit & Hnow).
  repeat (split; [done|]). intros later. unfold network_thread_exit.
  by destruct (done later).
Qed.

Lemma worker_leaves_loop_witness :
  let io := {| io_perform_ok := true; io_sink := []; io_finished := None;
               io_poll_ok := false; io_pollin := false;
               io_notify_ok := true |} in
  let c := Exit (sys_state sys_started, sys_worker sys_started) in
  done (control_state c) = done (sys_state sys_started) /\
  scroll (control_state c) = scroll (sys_state sys_started) /\
  ((exists sw, c = Exit sw) <->
   done (sys_state sys_started) = true \/ io_perform_ok io = false
   \/ io_poll_ok io = false) /\
  (done (sys_state sys_started) = true ->
   c = Exit (sys_state sys_started, sys_worker sys_started)) /\
  (forall later,
     network_thread_exit later
     = if done later then Ok (set_multi {| active := None |} later)
       else Abort AssertCurlFailure).
Proof.
  apply (worker_leaves_loop
           {| io_perform_ok := true; io_sink := []; io_finished := None;
              io_poll_ok := false; io_pollin := false; io_notify_ok := true |}
           (sys_state sys_started) (sys_worker sys_started)).
  vm_compute. reflexivity.
Defined.

Lemma start_transfer_abort s2 w f :
  state_inv s2 -> start_transfer s2 w = Abort f ->
  f = AssertPipeRead /\ pipe s2 = [].
Proof.
  intros (_ & _ & _ & _ & _ & Hdom). unfold start_transfer.
  destruct (pipe s2) as [|ev rest] eqn:Hpipe; [by intros [= <-]|].
  unfold free. destruct (url ev) as [a|] eqn:Hurl; cbn; [|done].
  destruct (heap s2 !! a) eqn:Hlook; cbn; [done|].
  apply not_elem_of_dom in Hlook. exfalso. apply Hlook. rewrite Hdom.
  apply elem_of_list_to_set. unfold queued_urls. apply list_elem_of_omap.
  exists ev. rewrite Hpipe. split; [apply elem_of_cons; by left|done].
Qed.

(** X9: in a state the program reaches, a round of the worker fails an
    assertion for one of four reasons only: the allocation in the callback
    failed while a transfer was running; the completion that fills the last
    of the 1024 slots was detected; a completion was detected and the write
    of the wake byte in [notify_main] did not return 1; or poll reported
    the command pipe readable while it was empty.  In particular the worker
    never frees a URL block that is not live, and the assertion after the
    loop is not reached from inside a round. *)
Theorem worker_abort_causes s io f :
  reachable s ->
  network_thread_loop io (sys_state s) (sys_worker s) = Abort f ->
  (f = AssertRealloc /\ is_Some (active (multi (sys_state s))) /\
   exists c, c ∈ io_sink io /\ alloc_ok (sc_alloc c) = false) \/
  (f = AssertMaxResponses /\
   latest_response (sys_state s) = (MAX_RESPONSES - 1)%Z /\
   completion_detected io (sys_state s) (sys_worker s)) \/
  (f = AssertNotifyWrite /\ io_notify_ok io = false /\
   (latest_response (sys_state s) < MAX_RESPONSES - 1)%Z /\
   completion_detected io (sys_state s) (sys_worker s)) \/
  (f = AssertPipeRead /\ pipe (sys_state s) = [] /\ io_pollin io = true).
Proof.
  intros Hreach.
  destruct (reachable_inv s Hreach) as (Hinv & Hact & _ & _). clear Hreach.
  destruct s as [state w b]. cbn [sys_state sys_worker sys_buf] in *.
  unfold network_thread_loop.
  destruct Hinv as (Hdone & Hrest). rewrite Hdone.
  assert (state_inv state) as Hinv by done.
  pose proof (curl_multi_perform_frame io state) as Hframe.
  destruct (curl_multi_perform io state) as [[s1 rh]|f1] eqn:Hperf; cbn.
  2:{ intros [= <-]. left. done. }
  destruct (curl_multi_perform_inv _ _ _ _ Hinv Hact Hperf)
    as (Hinv1 & HL1 & Hpipe1 & _).
  destruct (io_perform_ok io) eqn:Hok; cbn; [|done].
  assert (forall s2, (if (prev_running_handles w =? 1)%Z && (rh =? 0)%Z
                      then publish (io_notify_ok io) s1 else Ok s1) = Ok s2 ->
                     state_inv s2 /\ pipe s2 = pipe s1) as Hpub_ok.
  { intros s2. destruct (_ && _); [|by intros [= <-]].
    intros Hpub.
    by destruct (publish_inv _ _ _ Hinv1 Hpub) as (? & _ & _ & ? & _). }
  destruct (if (prev_running_handles w =? 1)%Z && (rh =? 0)%Z
            then publish (io_notify_ok io) s1 else Ok s1)
    as [s2|f2] eqn:Hpub; cbn.
  - destruct (Hpub_ok s2 eq_refl) as [Hinv2 Hpipe2].
    destruct (io_poll_ok io); cbn; [|done].
    destruct ((rh =? 0)%Z && io_pollin io) eqn:Hgo; [|done].
    destruct (start_transfer s2 w) as [[s3 w3]|f3] eqn:Hstart; cbn; [done|].
    intros [= <-]. do 3 right.
    destruct (start_transfer_abort _ _ _ Hinv2 Hstart) as [-> Hempty].
    apply andb_true_iff in Hgo as [_ Hpollin].
    by rewrite <- Hpipe1, <- Hpipe2.
  - intros [= <-]. right.
    destruct ((prev_running_handles w =? 1)%Z && (rh =? 0)%Z) eqn:Hdet; [|done].
    apply andb_true_iff in Hdet as [Hprev Hrh].
    apply Z.eqb_eq in Hprev. apply Z.eqb_eq in Hrh. subst rh.
    assert (completion_detected io state w) as Hcd.
    { split; [done|]. split; [done|]. split; [done|]. by exists s1. }
    unfold publish in Hpub.
    destruct Hinv1 as (_ & Hrange & _).
    rewrite size_t_wrap_small in Hpub
      by (unfold MAX_RESPONSES, SIZE_T_MODULUS in *; lia).
    destruct (Z.eqb_spec (latest_response s1 + 1) MAX_RESPONSES) as [Hfull|Hroom].
    + injection Hpub as <-. left. split; [done|]. split; [lia|done].
    + unfold notify_main in Hpub.
      destruct (io_notify_ok io) eqn:Hnotify; [done|].
      injection Hpub as <-. right. left. split; [done|]. split; [done|].
      split; [lia|done].
Qed.

Lemma worker_abort_causes_witness :
  (AssertPipeRead = AssertRealloc /\
   is_Some (active (multi (sys_state init_system))) /\
   exists c, c ∈ io_sink io_idle /\ alloc_ok (sc_alloc c) = false) \/
  (AssertPipeRead = AssertMaxResponses /\
   latest_response (sys_state init_system) = (MAX_RESPONSES - 1)%Z /\
   completion_detected io_idle (sys_state init_system)
     (sys_worker init_system)) \/
  (AssertPipeRead = AssertNotifyWrite /\ io_notify_ok io_idle = false /\
   (latest_response (sys_state init_system) < MAX_RESPONSES - 1)%Z /\
   completion_detected io_idle (sys_state init_system)
     (sys_worker init_system)) \/
  (AssertPipeRead = AssertPipeRead /\ pipe (sys_state init_system) = [] /\
   io_pollin io_idle = true).
Proof.
  apply (worker_abort_causes init_system io_idle AssertPipeRead).
  - apply rtc_refl.
  - vm_compute. reflexivity.
Defined.

(** ** What is published *)

(** X10: the worker announces a transfer only when it saw it running in the
    round before.  A transfer that ends in the first round after the one
    that started it is not published: the count stays, no wake byte is
    written, what the callback received stays in the slot at the count,
    and a transfer started afterwards writes into that same slot. *)
Theorem first_round_completion_unpublished s io state' w' :
  reachable s ->
  is_Some (active (multi (sys_state s))) ->
  prev_running_handles (sys_worker s) <> 1%Z ->
  is_Some (io_finished io) ->
  network_thread_loop io (sys_state s) (sys_worker s)
    = Ok (Continue (state', w')) ->
  let L := latest_response (sys_state s) in
  latest_response state' = L /\
  notify_ui_pipe state' = notify_ui_pipe (sys_state s) /\
  sink_calls (io_sink io) (responses (sys_state s) !!! Z.to_nat L)
  = Ok (responses state' !!! Z.to_nat L) /\
  prev_running_handles w' = 0%Z /\
  (forall h, active (multi state') = Some h -> CURLOPT_WRITEDATA h = Some L) /\
  (io_pollin io = false -> active (multi state') = None).
Proof.
  intros Hreach Hsome Hprev Hfin Hloop. cbv zeta.
  destruct (reachable_inv s Hreach) as (Hinv & Hact & _ & _). clear Hreach.
  destruct s as [state w b]. cbn [sys_state sys_worker sys_buf] in *.
  destruct (network_thread_loop_spec _ _ _ _ _ Hloop)
    as (_ & _ & _ & s1 & rh & s2 & w3 & Hperf & Hpub & Hstart & ->).
  destruct (Z.eqb_spec (prev_running_handles w) 1) as [?|_]; [done|].
  cbn in Hpub. subst s2.
  destruct (curl_multi_perform_inv _ _ _ _ Hinv Hact Hperf)
    as (Hinv1 & HL1 & _ & _ & Hn1 & _ & _ & Hrun).
  destruct (running_handles_spec _ _ _ _ Hinv Hact Hperf) as [[_ [_ Hnone]]|[-> _]].
  { rewrite Hnone in Hfin. by destruct Hfin. }
  destruct Hrun as [[? _]|[_ Hact1]]; [done|].
  destruct (curl_multi_perform_history _ _ _ _ Hinv Hact Hperf)
    as [[Hnone _]|(_ & mem' & Hsink & Hmem & _)].
  { rewrite Hnone in Hsome. by destruct Hsome. }
  cbn [Z.eqb andb] in Hstart. destruct (io_pollin io) eqn:Hpollin.
  - destruct (start_transfer_inv _ _ _ _ Hinv1 Hstart)
      as (_ & HL3 & Hresp3 & Hn3 & Hact3 & Hwd & _).
    rewrite HL3, Hn3, Hresp3, HL1, Hn1, Hsink, Hmem.
    repeat (split; [done|]). split; [|done].
    intros h Hh. rewrite Hact3 in Hh. injection Hh as <-. by rewrite Hwd, HL1.
  - injection Hstart as <- <-. rewrite HL1, Hn1, Hsink, Hmem, Hact1.
    repeat (split; [done|]). done.
Qed.

Lemma first_round_completion_unpublished_witness :
  let L := latest_response (sys_state sys_started) in
  latest_response (sys_state (run_worker io_fail sys_started)) = L /\
  notify_ui_pipe (sys_state (run_worker io_fail sys_started))
  = notify_ui_pipe (sys_state sys_started) /\
  sink_calls (io_sink io_fail) (responses (sys_state sys_started) !!! Z.to_nat L)
  = Ok (responses (sys_state (run_worker io_fail sys_started)) !!! Z.to_nat L) /\
  prev_running_handles (sys_worker (run_worker io_fail sys_started)) = 0%Z /\
  (forall h, active (multi (sys_state (run_worker io_fail sys_started))) = Some h ->
             CURLOPT_WRITEDATA h = Some L) /\
  (io_pollin io_fail = false ->
   active (multi (sys_state (run_worker io_fail sys_started))) = None).
Proof.
  apply (first_round_completion_unpublished sys_started io_fail
           (sys_state (run_worker io_fail sys_started))
           (sys_worker (run_worker io_fail sys_started))).
  - apply reachable_run_worker, reachable_run_main, reachable_run_main, rtc_refl.
  - vm_compute. by eexists.
  - vm_compute. discriminate.
  - vm_compute. by eexists.
  - vm_compute. reflexivity.
Defined.

Lemma redraw_responses_ext win resps resps' i :
  (forall j, (j < i)%nat -> resps !!! j = resps' !!! j) ->
  forall d, redraw_responses win resps i d = redraw_responses win resps' i d.
Proof.
  induction i as [|i IH]; intros Hsame d; [done|].
  cbn [redraw_responses]. rewrite <- (Hsame i) by lia.
  destruct (response (resps !!! i)); apply IH; intros j Hj; apply Hsame; lia.
Qed.

Lemma redraw_ext win state state' buf :
  scroll state' = scroll state ->
  latest_response state' = latest_response state ->
  (forall j, (Z.of_nat j < latest_response state)%Z ->
             responses state' !!! j = responses state !!! j) ->
  redraw win state' buf = redraw win state buf.
Proof.
  intros Hs HL Hr. unfold redraw. rewrite Hs, HL.
  rewrite (redraw_responses_ext win (responses state') (responses state)); [done|].
  intros j Hj. apply Hr. lia.
Qed.

(** X11: what a transfer has received is not shown before it is published.
    A round of the worker that does not detect a completion, whatever it
    receives or starts, leaves the output of [redraw] as it was, for every
    window size and input line. *)
Theorem unpublished_data_not_shown s io state' w' win buf :
  reachable s ->
  network_thread_loop io (sys_state s) (sys_worker s)
    = Ok (Continue (state', w')) ->
  ~ completion_detected io (sys_state s) (sys_worker s) ->
  redraw win state' buf = redraw win (sys_state s) buf.
Proof.
  intros Hreach Hloop Hnot.
  pose proof (reachable_inv s Hreach) as Hinv.
  destruct (network_thread_loop_frame _ _ _ _ Hloop) as [_ Hscroll].
  destruct (worker_round _ _ _ _ Hinv Hloop)
    as (_ & Hother & sinks & pub & start & _ & _ & Hpub & _).
  destruct Hpub as [[? _]|(_ & _ & HL)]; [done|].
  apply redraw_ext; [done|done|].
  intros j Hj. apply Hother. lia.
Qed.

Lemma unpublished_data_not_shown_witness :
  redraw win_3x80 (sys_state sys_receiving) buf_hi
  = redraw win_3x80 (sys_state sys_started) buf_hi.
Proof.
  apply (unpublished_data_not_shown sys_started io_data
           (sys_state sys_receiving) (sys_worker sys_receiving)).
  - apply reachable_run_worker, reachable_run_main, reachable_run_main, rtc_refl.
  - vm_compute. reflexivity.
  - intros (_ & _ & Hprev & _). vm_compute in Hprev. discriminate.
Defined.

Lemma slots_beyond_step s s' :
  sys_inv s -> sys_step s s' ->
  (forall k : nat, (latest_response (sys_state s) < Z.of_nat k)%Z ->
     (Z.of_nat k < MAX_RESPONSES)%Z ->
     responses (sys_state s) !!! k = empty_response) ->
  forall k : nat, (latest_response (sys_state s') < Z.of_nat k)%Z ->
    (Z.of_nat k < MAX_RESPONSES)%Z ->
    responses (sys_state s') !!! k = empty_response.
Proof.
  intros Hinv Hstep Hbeyond k Hk Hmax.
  destruct Hstep as [io stdin s m' Hmain|ok s state' Hsig|io s state' w' Hloop];
    cbn [sys_state] in *.
  - destruct Hinv as (Hst & _ & _ & Hwf).
    destruct (main_poll_inv _ _ _ _ _ Hst Hwf Hmain) as (_ & _ & HL & Hr & _).
    rewrite Hr. apply Hbeyond; lia.
  - destruct (notify_main_inv _ _ _ (proj1 Hinv) Hsig) as (_ & HL & Hr & _).
    rewrite Hr. apply Hbeyond; lia.
  - destruct (worker_round _ _ _ _ Hinv Hloop)
      as (_ & Hother & sinks & pub & start & _ & _ & Hpub & _).
    cbv zeta in Hother, Hpub.
    destruct (proj1 Hinv) as (_ & Hrange & _).
    assert (latest_response (sys_state s) <= latest_response state')%Z.
    { destruct Hpub as [(_ & _ & ->)|(_ & _ & ->)]; lia. }
    rewrite Hother by lia. apply Hbeyond; lia.
Qed.

(** X12: in every state the program reaches, the slots of the array beyond
    the one at the count are as [init_state] left them, without payload and
    of size 0: the worker writes to no slot but the one at the count. *)
Theorem slots_beyond_count_untouched s (k : nat) :
  reachable s ->
  (latest_response (sys_state s) < Z.of_nat k < MAX_RESPONSES)%Z ->
  responses (sys_state s) !!! k = empty_response.
Proof.
  intros Hreach [Hk Hmax].
  assert (forall k : nat, (latest_response (sys_state s) < Z.of_nat k)%Z ->
            (Z.of_nat k < MAX_RESPONSES)%Z ->
            responses (sys_state s) !!! k = empty_response) as Hall; [|by apply Hall].
  clear k Hk Hmax.
  apply (rtc_ind_r (R := sys_step)
           (fun s => forall k : nat,
              (latest_response (sys_state s) < Z.of_nat k)%Z ->
              (Z.of_nat k < MAX_RESPONSES)%Z ->
              responses (sys_state s) !!! k = empty_response)
           init_system); [| |exact Hreach].
  - intros k _ Hmax. cbn.
    apply list_lookup_total_correct, lookup_replicate_2. lia.
  - intros y z Hy Hstep IH k Hk Hmax.
    by apply (slots_beyond_step y z (reachable_inv y Hy) Hstep IH).
Qed.

Lemma slots_beyond_count_untouched_witness :
  responses (sys_state sys_receiving) !!! 1%nat = empty_response.
Proof.
  apply (slots_beyond_count_untouched sys_receiving 1).
  - apply reachable_run_worker, reachable_run_worker, reachable_run_main,
      reachable_run_main, rtc_refl.
  - vm_compute. split; reflexivity.
Defined.

(** ** The output of the renderer *)

Lemma redraw_out win state buf :
  redraw win state buf
  = TermClear
    :: concat (imap (fun i l => line_ops win (rows win - 1 - Z.of_nat i) l)
                 (visible_lines win state))
    ++ TermSetCursor (rows win) 1 :: printf_prec (cols win) buf ++ [Flush].
Proof.
  unfold redraw, visible_lines, log_lines.
  by rewrite redraw_responses_fold, foldl_draw_line_out.
Qed.

(** X13: all that [redraw] sends, in order: one clear; for each stored line
    that is visible, bottom-up, a cursor placement at column 1 of its row
    followed by its characters; the cursor placement on the last row; the
    input line cut at the width; one flush.  The scroll offset is taken
    not to be so far below zero that counting it down once per stored line
    leaves the range of [int]. *)
Theorem redraw_output_shape win state buf :
  (INT_MIN + Z.of_nat (length (log_lines state)) <= scroll state)%Z ->
  redraw win state buf
  = [TermClear]
    ++ concat (imap (fun i l =>
                       TermSetCursor (rows win - 1 - Z.of_nat i) 1
                       :: (PutChar <$> line_row win l))
                 (take (Z.to_nat (rows win - 1))
                    (drop (Z.to_nat (scroll state)) (log_lines state))))
    ++ [TermSetCursor (rows win) 1]
    ++ (PutChar <$> input_row win buf) ++ [Flush].
Proof.
  intros _.
  rewrite redraw_out. cbn [app]. f_equal. unfold visible_lines. f_equal.
  - f_equal. apply imap_ext. intros i l _. unfold line_ops, line_row. f_equal.
    apply put_line_putchars.
  - f_equal. unfold input_row, printf_prec. by rewrite leading_chars_fmap.
Qed.

Lemma redraw_output_shape_witness :
  redraw win_3x80 state_3lines buf_hi
  = [TermClear]
    ++ concat (imap (fun i l =>
                       TermSetCursor (rows win_3x80 - 1 - Z.of_nat i) 1
                       :: (PutChar <$> line_row win_3x80 l))
                 (take (Z.to_nat (rows win_3x80 - 1))
                    (drop (Z.to_nat (scroll state_3lines))
                       (log_lines state_3lines))))
    ++ [TermSetCursor (rows win_3x80) 1]
    ++ (PutChar <$> input_row win_3x80 buf_hi) ++ [Flush].
Proof.
  apply (redraw_output_shape win_3x80 state_3lines buf_hi).
  vm_compute. discriminate.
Defined.

(** X14: a scroll offset at or below zero shows what offset 0 shows, the
    bottom of the log (the offset not being so far below zero that counting
    it down once per stored line leaves the range of [int]). *)
Theorem scroll_at_or_below_zero win state buf k :
  (k <= 0)%Z ->
  (INT_MIN + Z.of_nat (length (log_lines state)) <= k)%Z ->
  redraw win (set_scroll k state) buf = redraw win (set_scroll 0 state) buf.
Proof.
  intros Hk _. rewrite !redraw_out. unfold visible_lines, log_lines. cbn.
  by replace (Z.to_nat k) with 0%nat by lia.
Qed.

Lemma scroll_at_or_below_zero_witness :
  redraw win_3x80 (set_scroll (-2) state_3lines) buf_hi
  = redraw win_3x80 (set_scroll 0 state_3lines) buf_hi.
Proof.
  apply (scroll_at_or_below_zero win_3x80 state_3lines buf_hi (-2)).
  - lia.
  - vm_compute. discriminate.
Defined.

(** X15: when the scroll offset is at least the number of stored lines, or
    the window has no row above the last one, [redraw] sends no stored
    line: the screen is cleared and holds the input line only. *)
Theorem scroll_past_top win state buf :
  (Z.of_nat (length (log_lines state)) <= scroll state)%Z \/ (rows win <= 1)%Z ->
  redraw win state buf
  = TermClear :: TermSetCursor (rows win) 1
    :: printf_prec (cols win) buf ++ [Flush].
Proof.
  intros Hcase. rewrite redraw_out. unfold visible_lines.
  destruct Hcase as [Hs|Hr].
  - rewrite drop_ge by lia. by rewrite take_nil.
  - by replace (Z.to_nat (rows win - 1)) with 0%nat by lia.
Qed.

Lemma scroll_past_top_witness :
  redraw win_3x80 (set_scroll 3 state_3lines) buf_hi
  = TermClear :: TermSetCursor (rows win_3x80) 1
    :: printf_prec (cols win_3x80) buf_hi ++ [Flush].
Proof.
  apply (scroll_past_top win_3x80 (set_scroll 3 state_3lines) buf_hi).
  left. vm_compute. discriminate.
Defined.

(** ** The lines of a response *)

Lemma line_starts_filter block n :
  reverse (line_starts block n)
  = filter (fun s => line_start block s = true) (seq 0 n).
Proof.
  induction n as [|n IH]; [done|].
  rewrite seq_S, filter_app. cbn [line_starts plus].
  rewrite filter_cons, filter_nil.
  destruct (line_start block n) eqn:Hn.
  - rewrite reverse_cons, IH. by rewrite decide_True.
  - rewrite IH. rewrite decide_False by done. by rewrite app_nil_r.
Qed.

Lemma strchr_text t :
  Forall (fun b => b <> NUL) t ->
  strchr (t ++ [NUL]) NEWLINE
  = if (until_newline t <? length t)%nat then Some (until_newline t) else None.
Proof.
  induction t as [|b t IH]; intros Hnz; [done|].
  apply Forall_cons in Hnz as [Hb Hnz]. cbn.
  destruct (Z.eqb_spec b NEWLINE) as [->|Hnl]; [done|].
  destruct (Z.eqb_spec b NUL) as [?|_]; [done|].
  rewrite (IH Hnz). cbn. by destruct (length t) as [|m]; [|destruct (_ <=? m)%nat].
Qed.

Lemma until_newline_le t : (until_newline t <= length t)%nat.
Proof.
  induction t as [|b t IH]; cbn; [lia|]. destruct (b =? NEWLINE)%Z; lia.
Qed.

Lemma line_chars_text pre t :
  Forall (fun b => b <> NUL) t ->
  line_chars {| ln_block := pre ++ t ++ [NUL];
                ln_size := length pre + length t; ln_start := length pre |}
  = take (until_newline t) t.
Proof.
  intros Hnz. unfold line_chars, line_end. cbn [ln_block ln_size ln_start].
  rewrite drop_app_length, (strchr_text t Hnz).
  pose proof (until_newline_le t) as Hle.
  destruct (Nat.ltb_spec (until_newline t) (length t)).
  - replace (length pre + until_newline t - length pre)%nat
      with (until_newline t) by lia.
    by rewrite take_app_le by lia.
  - replace (length pre + length t - length pre)%nat with (length t) by lia.
    replace (until_newline t) with (length t) by lia.
    by rewrite take_app_length, firstn_all.
Qed.

Lemma take_until_newline t : NEWLINE ∉ take (until_newline t) t.
Proof.
  induction t as [|b t IH]; cbn; [by intros ?%elem_of_nil|].
  destruct (Z.eqb_spec b NEWLINE) as [->|Hnl]; cbn; [by intros ?%elem_of_nil|].
  intros [?|?]%elem_of_cons; [congruence|done].
Qed.

Lemma newline_closed_nil : newline_closed [] = [].
Proof. done. Qed.

Lemma newline_closed_cons b t :
  t <> [] -> newline_closed (b :: t) = b :: newline_closed t.
Proof.
  intros Ht. unfold newline_closed, ends_open.
  destruct t as [|c t]; [done|]. done.
Qed.

Lemma newline_closed_newline t :
  newline_closed (NEWLINE :: t) = NEWLINE :: newline_closed t.
Proof.
  destruct t as [|c t]; [done|]. by apply newline_closed_cons.
Qed.

Lemma newline_closed_split t : forall b,
  b <> NEWLINE ->
  newline_closed (b :: t)
  = b :: take (until_newline t) t ++ [NEWLINE]
    ++ newline_closed (drop (S (until_newline t)) t).
Proof.
  induction t as [|c t IH]; intros b Hb.
  { unfold newline_closed, ends_open. cbn.
    by destruct (Z.eqb_spec b NEWLINE). }
  rewrite newline_closed_cons by done. f_equal. cbn [until_newline].
  destruct (Z.eqb_spec c NEWLINE) as [->|Hc].
  - cbn [take drop app]. by rewrite newline_closed_newline.
  - rewrite (IH c Hc). done.
Qed.

Lemma line_start_snoc pre b rest :
  line_start (pre ++ b :: rest) (S (length pre)) = (b =? NEWLINE)%Z.
Proof.
  unfold line_start. cbn [Nat.eqb orb].
  replace (S (length pre) - 1)%nat with (length pre) by lia.
  by rewrite list_lookup_total_middle.
Qed.

Lemma lines_concat t : forall pre at_start,
  Forall (fun b => b <> NUL) t ->
  line_start (pre ++ t ++ [NUL]) (length pre) = at_start ->
  concat ((fun s => line_chars {| ln_block := pre ++ t ++ [NUL];
                                  ln_size := length pre + length t;
                                  ln_start := s |} ++ [NEWLINE])
          <$> filter (fun s => line_start (pre ++ t ++ [NUL]) s = true)
                (seq (length pre) (length t)))
  = newline_closed (if at_start then t else drop (S (until_newline t)) t).
Proof.
  induction t as [|b t IH]; intros pre at_start Hnz Hstart.
  { cbn. by destruct at_start. }
  pose proof Hnz as Hnz'. apply Forall_cons in Hnz' as [Hb Hnzt].
  cbn [length seq]. rewrite filter_cons.
  specialize (IH (pre ++ [b]) (b =? NEWLINE)%Z Hnzt).
  rewrite <- (assoc_L (++)) in IH. cbn [app] in IH.
  rewrite length_app in IH. cbn [length] in IH.
  replace (length pre + 1)%nat with (S (length pre)) in IH by lia.
  replace (S (length pre) + length t)%nat
    with (length pre + S (length t))%nat in IH by lia.
  specialize (IH (line_start_snoc pre b (t ++ [NUL]))).
  change (pre ++ (b :: t) ++ [NUL]) with (pre ++ b :: t ++ [NUL]) in Hstart |- *.
  destruct at_start.
  - rewrite decide_True by done. rewrite fmap_cons. cbn [concat].
    rewrite IH.
    change (pre ++ b :: t ++ [NUL]) with (pre ++ (b :: t) ++ [NUL]).
    change (S (length t)) with (length (b :: t)).
    rewrite (line_chars_text pre (b :: t) Hnz). cbn [until_newline].
    destruct (Z.eqb_spec b NEWLINE) as [->|Hnl].
    + cbn [take app]. by rewrite newline_closed_newline.
    + rewrite (newline_closed_split t b Hnl). cbn [take app].
      by rewrite <- (assoc_L (++)).
  - rewrite decide_False by congruence. rewrite IH.
    cbn [until_newline]. by destruct (Z.eqb_spec b NEWLINE).
Qed.

Lemma line_chars_at text s :
  Forall (fun b => b <> NUL) text -> (s <= length text)%nat ->
  line_chars {| ln_block := text ++ [NUL]; ln_size := length text;
                ln_start := s |}
  = take (until_newline (drop s text)) (drop s text).
Proof.
  intros Hnz Hs.
  pose proof (line_chars_text (take s text) (drop s text)
                (Forall_drop _ s _ Hnz)) as H.
  rewrite (assoc_L (++)), take_drop in H.
  rewrite <- length_app, take_drop in H.
  by rewrite length_take_le in H by lia.
Qed.

(** X16: the lines into which [redraw] cuts a response are the lines of
    its payload.  For a slot as the callback leaves it whose payload holds
    no zero byte, the lines taken top-down, each followed by a newline,
    give back the payload (with a newline added when the payload does not
    end in one), and no line holds a newline: nothing of the payload is
    lost, repeated or put on a wrong line. *)
Theorem lines_partition_payload resp :
  slot_wf resp -> Forall (fun b => b <> NUL) (payload resp) ->
  concat ((fun l => line_chars l ++ [NEWLINE])
          <$> reverse (response_lines resp))
  = newline_closed (payload resp) /\
  Forall (fun l => NEWLINE ∉ line_chars l) (response_lines resp).
Proof.
  destruct resp as [[block|] sz]; unfold slot_wf, payload, response_lines;
    cbn [response size default id].
  2:{ intros _ _. rewrite take_nil. by split; [|constructor]. }
  intros [Hsz Hblock] Hnz.
  remember (take (Z.to_nat sz) block) as text eqn:Htext in *.
  assert (length text = Z.to_nat sz) as Hlen.
  { apply (f_equal length) in Hblock. rewrite length_app in Hblock.
    cbn in Hblock. rewrite Htext, length_take in Hblock.
    rewrite Htext, length_take. lia. }
  clear Htext. subst block. rewrite <- Hlen. clear Hlen Hsz sz. split.
  - rewrite <- fmap_reverse, <- list_fmap_compose, line_starts_filter.
    exact (lines_concat text [] true Hnz eq_refl).
  - apply Forall_fmap, Forall_forall. intros s Hs. cbn.
    apply line_starts_lt in Hs.
    rewrite (line_chars_at text s Hnz) by lia. apply take_until_newline.
Qed.

Lemma lines_partition_payload_witness :
  concat ((fun l => line_chars l ++ [NEWLINE])
          <$> reverse (response_lines
                         {| response := Some [97; 10; 98; 10; 99; 0]%Z;
                            size := 5 |}))
  = newline_closed
      (payload {| response := Some [97; 10; 98; 10; 99; 0]%Z; size := 5 |}) /\
  Forall (fun l => NEWLINE ∉ line_chars l)
    (response_lines {| response := Some [97; 10; 98; 10; 99; 0]%Z; size := 5 |}).
Proof.
  apply (lines_partition_payload
           {| response := Some [97; 10; 98; 10; 99; 0]%Z; size := 5 |}).
  - split; [simpl; lia|reflexivity].
  - simpl. repeat constructor; discriminate.
Defined.

(** ** A transfer from its first bytes to its publication *)

Lemma running_round io s state' w' :
  sys_inv s ->
  is_Some (active (multi (sys_state s))) ->
  io_finished io = None ->
  network_thread_loop io (sys_state s) (sys_worker s)
    = Ok (Continue (state', w')) ->
  let L := latest_response (sys_state s) in
  sys_inv {| sys_state := state'; sys_worker := w'; sys_buf := sys_buf s |} /\
  is_Some (active (multi state')) /\
  prev_running_handles w' = 1%Z /\
  latest_response state' = L /\
  notify_ui_pipe state' = notify_ui_pipe (sys_state s) /\
  sink_calls (io_sink io) (responses (sys_state s) !!! Z.to_nat L)
  = Ok (responses state' !!! Z.to_nat L).
Proof.
  intros Hinv Hsome Hfin Hloop. cbv zeta.
  destruct (worker_round _ _ _ _ Hinv Hloop) as (Hinv' & _).
  split; [done|]. clear Hinv'.
  destruct Hinv as (Hinv & Hact & _ & _).
  destruct s as [state w b]. cbn [sys_state sys_worker sys_buf] in *.
  destruct (network_thread_loop_spec _ _ _ _ _ Hloop)
    as (_ & _ & _ & s1 & rh & s2 & w3 & Hperf & Hpub & Hstart & ->).
  destruct (curl_multi_perform_inv _ _ _ _ Hinv Hact Hperf)
    as (_ & HL1 & _ & _ & Hn1 & _ & _ & Hrun).
  destruct (running_handles_spec _ _ _ _ Hinv Hact Hperf)
    as [[-> _]|[_ Hnot]]; [|by destruct Hnot].
  destruct Hrun as [(_ & Hact1 & _)|[? _]]; [|done].
  rewrite andb_false_r in Hpub. subst s2. cbn in Hstart.
  injection Hstart as <- <-.
  destruct (curl_multi_perform_history _ _ _ _ Hinv Hact Hperf)
    as [[Hnone _]|(_ & mem' & Hsink & Hmem & _)].
  { rewrite Hnone in Hsome. by destruct Hsome. }
  rewrite Hact1, HL1, Hn1, Hsink, Hmem. done.
Qed.

Lemma final_round io s state' w' :
  sys_inv s ->
  is_Some (active (multi (sys_state s))) ->
  prev_running_handles (sys_worker s) = 1%Z ->
  is_Some (io_finished io) ->
  network_thread_loop io (sys_state s) (sys_worker s)
    = Ok (Continue (state', w')) ->
  let L := latest_response (sys_state s) in
  latest_response state' = (L + 1)%Z /\
  notify_ui_pipe state' = notify_ui_pipe (sys_state s) ++ [NUL] /\
  sink_calls (io_sink io) (responses (sys_state s) !!! Z.to_nat L)
  = Ok (responses state' !!! Z.to_nat L).
Proof.
  intros Hinv Hsome Hprev Hfin Hloop. cbv zeta.
  destruct (worker_round _ _ _ _ Hinv Hloop)
    as (_ & _ & sinks & pub & start & _ & Hsinks & _).
  cbv zeta in Hsinks.
  destruct Hsinks as [[Hnone _]|(_ & _ & mem' & Hsink & Hmem)].
  { rewrite Hnone in Hsome. by destruct Hsome. }
  rewrite Hsink, Hmem. clear Hsink Hmem.
  destruct Hinv as (Hinv & Hact & _ & _).
  destruct s as [state w b]. cbn [sys_state sys_worker sys_buf] in *.
  destruct (network_thread_loop_spec _ _ _ _ _ Hloop)
    as (_ & _ & _ & s1 & rh & s2 & w3 & Hperf & Hpub & Hstart & ->).
  destruct (curl_multi_perform_inv _ _ _ _ Hinv Hact Hperf)
    as (Hinv1 & HL1 & _ & _ & Hn1 & _).
  destruct (running_handles_spec _ _ _ _ Hinv Hact Hperf)
    as [[_ [_ Hnone]]|[-> _]].
  { rewrite Hnone in Hfin. by destruct Hfin. }
  rewrite Hprev in Hpub. cbn in Hpub.
  destruct (publish_spec _ s1 s2 (proj1 (proj2 Hinv1)) Hpub) as (_ & _ & Hs2).
  destruct (publish_inv _ _ _ Hinv1 Hpub) as (Hinv2 & HL2 & _).
  assert (notify_ui_pipe s2 = notify_ui_pipe s1 ++ [NUL]) as Hn2 by by subst s2.
  cbn in Hstart. destruct (io_pollin io).
  - destruct (start_transfer_inv _ _ _ _ Hinv2 Hstart) as (_ & HL3 & _ & Hn3 & _).
    by rewrite HL3, Hn3, HL2, Hn2, HL1, Hn1.
  - injection Hstart as <- <-. by rewrite HL2, Hn2, HL1, Hn1.
Qed.

Lemma transfer_rounds io_last ios : forall s state' w',
  sys_inv s ->
  is_Some (active (multi (sys_state s))) ->
  ios <> [] \/ prev_running_handles (sys_worker s) = 1%Z ->
  Forall (fun io => io_finished io = None) ios ->
  is_Some (io_finished io_last) ->
  let L := latest_response (sys_state s) in
  slot_wf (responses (sys_state s) !!! Z.to_nat L) ->
  Forall sink_call_ok (sink_of_rounds (ios ++ [io_last])) ->
  chunks_fit (sink_of_rounds (ios ++ [io_last]))
    (responses (sys_state s) !!! Z.to_nat L) ->
  network_thread (ios ++ [io_last]) (sys_state s) (sys_worker s)
    = Ok (Continue (state', w')) ->
  latest_response state' = (L + 1)%Z /\
  notify_ui_pipe state' = notify_ui_pipe (sys_state s) ++ [NUL] /\
  slot_wf (responses state' !!! Z.to_nat L) /\
  payload (responses state' !!! Z.to_nat L)
  = payload (responses (sys_state s) !!! Z.to_nat L)
    ++ chunks (sink_of_rounds (ios ++ [io_last])).
Proof.
  induction ios as [|io ios IH];
    intros s state' w' Hinv Hsome Hprev Hrun Hfin L Hwf Hok Hfit Hnet.
  - destruct Hprev as [?|Hprev]; [done|].
    cbn [app network_thread] in Hnet.
    destruct (network_thread_loop io_last (sys_state s) (sys_worker s))
      as [[[s1 w1]|[s1 w1]]|f] eqn:Hloop; cbn in Hnet.
    + injection Hnet as <- <-.
      destruct (final_round _ _ _ _ Hinv Hsome Hprev Hfin Hloop)
        as (HL & Hn & Hsink).
      unfold sink_of_rounds in *. cbn in Hok, Hfit |- *.
      rewrite app_nil_r in *.
      destruct (sink_calls_spec (io_sink io_last) _ Hwf Hok Hfit)
        as (mem' & Hsink' & Hwf' & Hpay & _).
      fold L in Hsink. rewrite Hsink in Hsink'. injection Hsink' as <-.
      done.
    + by destruct (network_thread_exit s1).
    + done.
  - apply Forall_cons in Hrun as [Hio Hrun].
    cbn [app network_thread] in Hnet.
    destruct (network_thread_loop io (sys_state s) (sys_worker s))
      as [[[s1 w1]|[s1 w1]]|f] eqn:Hloop; cbn in Hnet.
    + destruct (running_round _ _ _ _ Hinv Hsome Hio Hloop)
        as (Hinv1 & Hsome1 & Hprev1 & HL1 & Hn1 & Hsink).
      fold L in HL1, Hsink.
      unfold sink_of_rounds in Hok, Hfit. cbn [app fmap list_fmap concat] in Hok, Hfit.
      change (list_fmap _ _ io_sink (ios ++ [io_last]))
        with (io_sink <$> ios ++ [io_last]) in Hok, Hfit.
      change (concat (io_sink <$> ios ++ [io_last]))
        with (sink_of_rounds (ios ++ [io_last])) in Hok, Hfit.
      apply Forall_app in Hok as [Hok1 Hok2].
      unfold chunks_fit in Hfit. rewrite chunks_app, length_app in Hfit.
      destruct (sink_calls_spec (io_sink io) _ Hwf Hok1)
        as (mem' & Hsink' & Hwf' & Hpay & Hsize & _).
      { unfold chunks_fit. lia. }
      rewrite Hsink in Hsink'. injection Hsink' as <-.
      specialize (IH {| sys_state := s1; sys_worker := w1; sys_buf := sys_buf s |}
                    state' w' Hinv1 Hsome1 (or_intror Hprev1) Hrun Hfin).
      cbn [sys_state sys_worker] in IH. rewrite HL1 in IH.
      destruct (IH Hwf' Hok2) as (HL & Hn & Hwf2 & Hpay2); [|done|].
      { unfold chunks_fit. rewrite Hsize. lia. }
      fold L. rewrite HL, Hn, Hn1, Hpay2, Hpay.
      repeat (split; [done|]).
      unfold sink_of_rounds. cbn [app fmap list_fmap concat].
      change (list_fmap _ _ io_sink (ios ++ [io_last]))
        with (io_sink <$> ios ++ [io_last]).
      by rewrite chunks_app, (assoc_L (++)).
    + by destruct (network_thread_exit s1).
    + done.
Qed.

(** X18: a transfer from a round of the worker to its publication.  From a
    state the program reaches in which a transfer is in progress, let the
    worker run rounds in which the transfer goes on, at least one, and then
    a round in which it ends, in success or in failure, libcurl calling the
    callback as it does.  Then the count has gone up by exactly one, one
    wake byte has been written, and the payload of the slot that was at the
    count is what it was before followed by all the bytes the callback
    received in these rounds, in order. *)
Theorem transfer_payload_complete s ios io_last state' w' :
  reachable s ->
  is_Some (active (multi (sys_state s))) ->
  ios <> [] ->
  Forall (fun io => io_finished io = None) ios ->
  is_Some (io_finished io_last) ->
  let L := latest_response (sys_state s) in
  slot_wf (responses (sys_state s) !!! Z.to_nat L) ->
  Forall sink_call_ok (sink_of_rounds (ios ++ [io_last])) ->
  chunks_fit (sink_of_rounds (ios ++ [io_last]))
    (responses (sys_state s) !!! Z.to_nat L) ->
  network_thread (ios ++ [io_last]) (sys_state s) (sys_worker s)
    = Ok (Continue (state', w')) ->
  latest_response state' = (L + 1)%Z /\
  notify_ui_pipe state' = notify_ui_pipe (sys_state s) ++ [NUL] /\
  slot_wf (responses state' !!! Z.to_nat L) /\
  payload (responses state' !!! Z.to_nat L)
  = payload (responses (sys_state s) !!! Z.to_nat L)
    ++ chunks (sink_of_rounds (ios ++ [io_last])).
Proof.
  intros Hreach Hsome Hios. apply transfer_rounds; [|done|by left].
  by apply reachable_inv.
Qed.

Lemma transfer_payload_complete_witness :
  let L := latest_response (sys_state sys_started) in
  latest_response (sys_state sys_failed) = (L + 1)%Z /\
  notify_ui_pipe (sys_state sys_failed)
  = notify_ui_pipe (sys_state sys_started) ++ [NUL] /\
  slot_wf (responses (sys_state sys_failed) !!! Z.to_nat L) /\
  payload (responses (sys_state sys_failed) !!! Z.to_nat L)
  = payload (responses (sys_state sys_started) !!! Z.to_nat L)
    ++ chunks (sink_of_rounds ([io_data] ++ [io_fail])).
Proof.
  apply (transfer_payload_complete sys_started [io_data] io_fail
           (sys_state sys_failed) (sys_worker sys_failed)).
  - apply reachable_run_worker, reachable_run_main, reachable_run_main, rtc_refl.
  - vm_compute. by eexists.
  - discriminate.
  - repeat constructor.
  - vm_compute. by eexists.
  - vm_compute. split; [discriminate|reflexivity].
  - repeat constructor; vm_compute; (reflexivity || discriminate).
  - vm_compute. reflexivity.
  - vm_compute. reflexivity.
Defined.
